(** * The outbound event queue of the browser tracker

    A shallow embedding of [OutQueueManager]
    (libraries/browser-tracker-core/src/tracker/out_queue.ts) and the
    properties of its batching, retry classification, oversized-event
    bypass, drain loop and persistence recovery.

    The manager is a closure over a handful of mutable variables.  Here the
    variables are a record that every operation takes and returns, the
    browser objects the closure talks to (XMLHttpRequest, Image, timers,
    localStorage, the logger, the two user callbacks) appear as a list of
    effects in call order, and the callbacks the manager leaves behind are
    data that a later event selects and runs. *)

From Stdlib Require Import String Ascii DecimalString ZArith List Bool Lia.
Import ListNotations.
Open Scope Z_scope.

(** ** Strings and numbers of the host language *)

(** A JavaScript string is its sequence of UTF-16 code units. *)
Definition jsstring := list Z.

Definition str (s : string) : jsstring :=
  map (fun a => Z.of_nat (nat_of_ascii a)) (list_ascii_of_string s).

Fixpoint jsstring_eqb (a b : jsstring) : bool :=
  match a, b with
  | [], [] => true
  | x :: a', y :: b' => (x =? y) && jsstring_eqb a' b'
  | _, _ => false
  end.

(** Truthiness of a string: only the empty string is falsy. *)
Definition truthy (s : jsstring) : bool :=
  match s with [] => false | _ => true end.

(** A number that arithmetic on a missing field may have turned into NaN. *)
Inductive number :=
| Num (z : Z)
| NaN.

Definition number_add (a b : number) : number :=
  match a, b with
  | Num x, Num y => Num (x + y)
  | _, _ => NaN
  end.

(** [a >= b]; every comparison with NaN is false. *)
Definition number_geb (a : number) (b : Z) : bool :=
  match a with
  | Num x => b <=? x
  | NaN => false
  end.

(** What a call can end with: a value, or a thrown exception. *)
Inductive JsError :=
| TypeError
| NoCollectorConfigured
| InvalidAccessError.

Inductive Exc (A : Type) :=
| Returned (a : A)
| Threw (e : JsError).

Arguments Returned {A} a.
Arguments Threw {A} e.

(** ** Count the bytes of a string when UTF-8 encoded *)

Fixpoint getUTF8Length (s : jsstring) : Z :=
  match s with
  | [] => 0
  | code :: rest =>
      if code <=? 127 then 1 + getUTF8Length rest
      else if code <=? 2047 then 2 + getUTF8Length rest
      else if (55296 <=? code) && (code <=? 57343) then
        (* a surrogate: four bytes, and the next unit is skipped *)
        4 + match rest with
            | [] => 0
            | _ :: rest' => getUTF8Length rest'
            end
      else if code <? 65535 then 3 + getUTF8Length rest
      else 4 + getUTF8Length rest
  end.

(** ** Status codes *)

Definition isSuccessfulRequest (statusCode : Z) : bool :=
  (200 <=? statusCode) && (statusCode <? 300).

(** [Array.prototype.includes] on a list of integer status codes. *)
Definition includes (l : list Z) (x : Z) : bool :=
  existsb (Z.eqb x) l.

Definition shouldRetryForStatusCode
    (retryFailedRequests : bool) (retryStatusCodes dontRetryStatusCodes : list Z)
    (statusCode : Z) : bool :=
  if isSuccessfulRequest statusCode then false
  else if negb retryFailedRequests then false
  else if includes retryStatusCodes statusCode then true
  else negb (includes dontRetryStatusCodes statusCode).

(** ** Records and queue entries *)

(** An event record: field names and their values in property order. *)
Definition Evt := list (jsstring * jsstring).

(** [evt[key] = value]: overwrite in place, or add as the last property. *)
Fixpoint setProp (key value : jsstring) (e : Evt) : Evt :=
  match e with
  | [] => [(key, value)]
  | (k, v) :: rest =>
      if jsstring_eqb k key then (k, value) :: rest
      else (k, v) :: setProp key value rest
  end.

Record PostEvent := mkPostEvent {
  evt : Evt;
  bytes : Z
}.

(** What a slot of [outQueue] can hold: the two shapes the manager pushes,
    and the primitive values a persisted array can bring back. *)
Inductive QueueItem :=
| Post (p : PostEvent)
| QueryString (s : jsstring)
| JsNull
| JsNumber (z : Z)
| JsBoolean (b : bool).

Inductive JsType :=
| TString
| TObject
| TNumber
| TBoolean.

Definition typeof (x : QueueItem) : JsType :=
  match x with
  | Post _ => TObject
  | QueryString _ => TString
  | JsNull => TObject
  | JsNumber _ => TNumber
  | JsBoolean _ => TBoolean
  end.

Definition is_TString (t : JsType) : bool :=
  match t with TString => true | _ => false end.

Definition is_TObject (t : JsType) : bool :=
  match t with TObject => true | _ => false end.

(** ['evt' in x] for an [x] whose [typeof] is ['object']: on [null] the
    operator throws. *)
Definition evt_in (x : QueueItem) : Exc bool :=
  match x with
  | Post _ => Returned true
  | JsNull => Threw TypeError
  | _ => Returned false
  end.

(** [postable]: [typeof queue[0] === 'object' && 'evt' in queue[0]]. *)
Definition postable (queue : list QueueItem) : Exc bool :=
  match queue with
  | [] => Returned false
  | x :: _ => if is_TObject (typeof x) then evt_in x else Returned false
  end.

(** [x.bytes] as it enters [byteCount += x.bytes]: a missing field is
    [undefined] and makes the sum NaN; reading a field of [null] throws. *)
Definition read_bytes (x : QueueItem) : Exc number :=
  match x with
  | Post p => Returned (Num (bytes p))
  | JsNull => Threw TypeError
  | _ => Returned NaN
  end.

(** ** Choosing how many records go into one POST *)

Fixpoint chooseHowManyToSend_loop (maxPostBytes : Z) (rest : list QueueItem)
    (numberToSend : nat) (byteCount : number) : Exc nat :=
  match rest with
  | [] => Returned numberToSend
  | x :: rest' =>
      match read_bytes x with
      | Threw e => Threw e
      | Returned b =>
          let byteCount := number_add byteCount b in
          if number_geb byteCount maxPostBytes then Returned numberToSend
          else chooseHowManyToSend_loop maxPostBytes rest' (S numberToSend) byteCount
      end
  end.

Definition chooseHowManyToSend (maxPostBytes : Z) (queue : list QueueItem) : Exc nat :=
  chooseHowManyToSend_loop maxPostBytes queue 0%nat (Num 0).

(** The sum of the byte sizes of a list of post-records. *)
Definition total_bytes (l : list PostEvent) : Z :=
  fold_right (fun p acc => bytes p + acc) 0 l.

(** ** The host: library functions the manager calls but does not define *)

Record Host := mkHost {
  (** [Number.prototype.toString] *)
  Number_toString : Z -> jsstring;
  (** [String.prototype.toLowerCase] *)
  toLowerCase : jsstring -> jsstring;
  encodeURIComponent : jsstring -> jsstring;
  (** [JSON.stringify] on a record of strings *)
  JSON_stringify_record : Evt -> jsstring;
  (** [JSON.stringify] on an array of queue entries *)
  JSON_stringify_queue : list QueueItem -> jsstring;
  (** [JSON.parse]: [None] when it throws, [Some None] for a value that is
      not an array, [Some (Some q)] for an array *)
  JSON_parse : jsstring -> option (option (list QueueItem));
  (** the constant of [./schemata] *)
  PAYLOAD_DATA_SCHEMA : jsstring
}.

(** What the browser answers during one task. *)
Record Browser := mkBrowser {
  (** [new Date().getTime()] *)
  now : Z;
  (** [navigator.sendBeacon(url, blob)]; a throw is caught and reads [false] *)
  sendBeacon : jsstring -> list Evt -> bool;
  (** whether [attemptWriteLocalStorage] manages to store this value *)
  storageWritable : jsstring -> bool
}.

(** ** Payloads *)

Inductive PayloadValue :=
| PString (s : jsstring)
| PNumber (z : Z)
| PBoolean (b : bool).

(** The own properties of a payload, in enumeration order. *)
Definition Payload := list (jsstring * PayloadValue).

Definition valueToString (h : Host) (v : PayloadValue) : jsstring :=
  match v with
  | PString s => s
  | PNumber z => Number_toString h z
  | PBoolean true => str "true"
  | PBoolean false => str "false"
  end.

Fixpoint getProp (key : jsstring) (request : Payload) : option PayloadValue :=
  match request with
  | [] => None
  | (k, v) :: rest => if jsstring_eqb k key then Some v else getProp key rest
  end.

Definition lowPriorityKeys : list jsstring := [str "co"; str "cx"].

Definition isLowPriority (key : jsstring) : bool :=
  existsb (jsstring_eqb key) lowPriorityKeys.

(** The first loop of [getQuerystring]. *)
Fixpoint getQuerystring_pairs (h : Host) (request : Payload)
    (querystring : jsstring) (firstPair : bool) : jsstring :=
  match request with
  | [] => querystring
  | (key, value) :: rest =>
      if negb (isLowPriority key) then
        let querystring := if firstPair then querystring else querystring ++ str "&" in
        getQuerystring_pairs h rest
          (querystring ++ encodeURIComponent h key ++ str "="
                       ++ encodeURIComponent h (valueToString h value))
          false
      else getQuerystring_pairs h rest querystring firstPair
  end.

(** The second loop: the context fields come last. *)
Fixpoint getQuerystring_context (h : Host) (request : Payload)
    (keys : list jsstring) (querystring : jsstring) : jsstring :=
  match keys with
  | [] => querystring
  | contextKey :: keys' =>
      match getProp contextKey request with
      | Some value =>
          getQuerystring_context h request keys'
            (querystring ++ str "&" ++ contextKey ++ str "="
                         ++ encodeURIComponent h (valueToString h value))
      | None => getQuerystring_context h request keys' querystring
      end
  end.

Definition getQuerystring (h : Host) (request : Payload) : jsstring :=
  getQuerystring_context h request lowPriorityKeys
    (getQuerystring_pairs h request (str "?") true).

Definition getBody (h : Host) (request : Payload) : PostEvent :=
  let cleanedRequest := map (fun kv => (fst kv, valueToString h (snd kv))) request in
  mkPostEvent cleanedRequest (getUTF8Length (JSON_stringify_record h cleanedRequest)).

(** ** Requests, callbacks and effects *)

Record XhrRequest := mkXhr {
  xhr_post : bool;
  xhr_url : jsstring;
  xhr_async : bool;
  xhr_headers : list (jsstring * jsstring);
  xhr_withCredentials : bool;
  xhr_timeout : option Z
}.

(** [{ schema: PAYLOAD_DATA_SCHEMA, data: events }], the document that
    [encloseInPayloadDataEnvelope] serialises. *)
Record Envelope := mkEnvelope {
  schema : jsstring;
  data : list Evt
}.

(** A member of the batch handed to the user callbacks: a stamped record, the
    URL of a GET, or (after a beacon) the queue entry itself. *)
Inductive BatchItem :=
| BEvent (e : Evt)
| BUrl (u : jsstring)
| BQueued (q : QueueItem).

Record RequestFailure := mkFailure {
  status : Z;
  message : jsstring;
  events : list BatchItem;
  willRetry : bool
}.

(** Which of the manager's requests an XMLHttpRequest is: an attempt on the
    queue, the standalone POST of an oversized event, or the one call to the
    identity service. *)
Inductive Purpose :=
| QueueRequest
| StandaloneRequest
| IdServiceRequest.

Inductive Effect :=
| LogWarn (msg : jsstring)
| LogError (msg : jsstring)
| XhrSend (purpose : Purpose) (xhr : XhrRequest) (body : option Envelope)
| XhrAbort
| BeaconSend (url : jsstring) (blob : Envelope) (accepted : bool)
| ImageSrc (url : jsstring)
| SetTimeout (ms : Z)
| ClearTimeout
| OnRequestSuccess (batch : list BatchItem)
| OnRequestFailure (failure : RequestFailure).

(** The callbacks a call leaves behind, waiting for the browser. *)
Inductive Pending :=
| XhrCallbacks (numberToSend : nat) (batch : list BatchItem)
    (* [onreadystatechange] and [xhrTimeout] of [setXhrCallbacks] *)
| IdServiceXhr
    (* [onreadystatechange] of the identity-service request *)
| ImageRequest (timerArmed : bool)
    (* [onload], [onerror] and the timer of an image whose [loading] is true *)
| BypassXhr (batch : list BatchItem).
    (* [onreadystatechange] of [sendPostRequestWithoutQueueing] *)

(** ** Configuration and state *)

(** The constructor's parameters and the constants it derives from them. *)
Record Config := mkConfig {
  postPath : jsstring;
  maxPostBytes : Z;
  maxGetBytes : Z;
  useStm : bool;
  maxLocalStorageQueueSize : Z;
  connectionTimeout : Z;
  customHeaders : list (jsstring * jsstring);
  withCredentials : bool;
  retryStatusCodes : list Z;
  dontRetryStatusCodes : list Z;
  idService : option jsstring;
  retryFailedRequests : bool;
  (** whether the optional callbacks were given *)
  hasOnRequestSuccess : bool;
  hasOnRequestFailure : bool;
  useBeacon : bool;
  useXhr : bool;
  usePost : bool;
  path : jsstring;
  queueName : jsstring;
  (** whether the constructor registered a buffer flusher *)
  flusherRegistered : bool
}.

(** The closure's variables, then the two pieces of the browser the manager
    writes to: its localStorage slot and the callbacks it has registered. *)
Record State := mkState {
  executingQueue : bool;
  configCollectorUrl : option jsstring;
  outQueue : list QueueItem;
  idServiceCalled : bool;
  useLocalStorage : bool;
  anonymousTracking : bool;
  bufferSize : Z;
  stored : option jsstring;
  pending : list Pending
}.

Definition set_executingQueue (v : bool) (s : State) : State :=
  mkState v (configCollectorUrl s) (outQueue s) (idServiceCalled s)
          (useLocalStorage s) (anonymousTracking s) (bufferSize s) (stored s) (pending s).

Definition set_configCollectorUrl (v : option jsstring) (s : State) : State :=
  mkState (executingQueue s) v (outQueue s) (idServiceCalled s)
          (useLocalStorage s) (anonymousTracking s) (bufferSize s) (stored s) (pending s).

Definition set_outQueue (v : list QueueItem) (s : State) : State :=
  mkState (executingQueue s) (configCollectorUrl s) v (idServiceCalled s)
          (useLocalStorage s) (anonymousTracking s) (bufferSize s) (stored s) (pending s).

Definition set_idServiceCalled (v : bool) (s : State) : State :=
  mkState (executingQueue s) (configCollectorUrl s) (outQueue s) v
          (useLocalStorage s) (anonymousTracking s) (bufferSize s) (stored s) (pending s).

Definition set_useLocalStorage (v : bool) (s : State) : State :=
  mkState (executingQueue s) (configCollectorUrl s) (outQueue s) (idServiceCalled s)
          v (anonymousTracking s) (bufferSize s) (stored s) (pending s).

Definition set_anonymousTracking (v : bool) (s : State) : State :=
  mkState (executingQueue s) (configCollectorUrl s) (outQueue s) (idServiceCalled s)
          (useLocalStorage s) v (bufferSize s) (stored s) (pending s).

Definition set_bufferSize (v : Z) (s : State) : State :=
  mkState (executingQueue s) (configCollectorUrl s) (outQueue s) (idServiceCalled s)
          (useLocalStorage s) (anonymousTracking s) v (stored s) (pending s).

Definition set_stored (v : option jsstring) (s : State) : State :=
  mkState (executingQueue s) (configCollectorUrl s) (outQueue s) (idServiceCalled s)
          (useLocalStorage s) (anonymousTracking s) (bufferSize s) v (pending s).

Definition set_pending (v : list Pending) (s : State) : State :=
  mkState (executingQueue s) (configCollectorUrl s) (outQueue s) (idServiceCalled s)
          (useLocalStorage s) (anonymousTracking s) (bufferSize s) (stored s) v.

Definition add_pending (p : Pending) (s : State) : State :=
  set_pending (pending s ++ [p]) s.

(** How a call ends: the state it leaves, what it did to the outside in call
    order, and the exception it threw, if any. *)
Record Outcome := mkOutcome {
  state : State;
  effects : list Effect;
  thrown : option JsError
}.

Definition done (s : State) : Outcome := mkOutcome s [] None.

Definition emit (e : list Effect) (s : State) : Outcome := mkOutcome s e None.

Definition throw (e : JsError) (s : State) : Outcome := mkOutcome s [] (Some e).

(** Sequencing: the rest does not run after a throw. *)
Definition andThen (o : Outcome) (k : State -> Outcome) : Outcome :=
  match thrown o with
  | Some _ => o
  | None =>
      let o' := k (state o) in
      mkOutcome (state o') (effects o ++ effects o') (thrown o')
  end.

Notation "o >>> k" := (andThen o k) (at level 61, left associativity).

(** ** Array helpers *)

(** [a.slice(0, e)]: a negative [e] counts from the end. *)
Definition slice0 {A : Type} (e : Z) (l : list A) : list A :=
  if e <? 0 then firstn (Z.to_nat (Z.of_nat (length l) + e)) l
  else firstn (Z.to_nat e) l.

Fixpoint remove_nth {A : Type} (i : nat) (l : list A) : list A :=
  match i, l with
  | _, [] => []
  | O, _ :: rest => rest
  | S i', x :: rest => x :: remove_nth i' rest
  end.

Fixpoint replace_nth {A : Type} (i : nat) (y : A) (l : list A) : list A :=
  match i, l with
  | _, [] => []
  | O, _ :: rest => y :: rest
  | S i', x :: rest => x :: replace_nth i' y rest
  end.

(** [s.replace('?', r)]: the first question mark only. *)
Fixpoint replaceQuestionMark (r s : jsstring) : jsstring :=
  match s with
  | [] => []
  | c :: rest => if c =? 63 then r ++ rest else c :: replaceQuestionMark r rest
  end.

(** The failsafe loop at the head of [executeQueue]. *)
Fixpoint dropBadHead (queue : list QueueItem) : list QueueItem :=
  match queue with
  | [] => []
  | x :: rest =>
      if negb (is_TString (typeof x)) && negb (is_TObject (typeof x))
      then dropBadHead rest
      else queue
  end.

(** ** Stamping a batch *)

(** [x.evt]: [None] is [undefined]; reading a field of [null] throws. *)
Definition read_evt (x : QueueItem) : Exc (option Evt) :=
  match x with
  | Post p => Returned (Some (evt p))
  | JsNull => Threw TypeError
  | _ => Returned None
  end.

(** [batch.map(x => x.evt)] *)
Fixpoint map_evt (batch : list QueueItem) : Exc (list (option Evt)) :=
  match batch with
  | [] => Returned []
  | x :: rest =>
      match read_evt x with
      | Threw e => Threw e
      | Returned v =>
          match map_evt rest with
          | Threw e => Threw e
          | Returned vs => Returned (v :: vs)
          end
      end
  end.

(** [attachStmToEvent]: writes [stm] into each event in turn; the flag says
    that the write hit an [undefined] entry and threw there. *)
Fixpoint attachStmToEvent (stm : jsstring) (evts : list (option Evt))
    : list (option Evt) * bool :=
  match evts with
  | [] => ([], false)
  | Some e :: rest =>
      let r := attachStmToEvent stm rest in
      (Some (setProp (str "stm") stm e) :: fst r, snd r)
  | None :: rest => (None :: rest, true)
  end.

(** The events of a batch are the very objects the queue entries hold, so a
    write to them shows in the queue. *)
Fixpoint aliased (evts : list (option Evt)) (queue : list QueueItem) : list QueueItem :=
  match evts, queue with
  | Some e :: evts', Post p :: queue' =>
      Post (mkPostEvent e (bytes p)) :: aliased evts' queue'
  | _ :: evts', x :: queue' => x :: aliased evts' queue'
  | _, _ => queue
  end.

Fixpoint present (evts : list (option Evt)) : list Evt :=
  match evts with
  | [] => []
  | Some e :: rest => e :: present rest
  | None :: rest => present rest
  end.

Section Manager.

Variable h : Host.
Variable cfg : Config.

Definition stm_now (b : Browser) : jsstring := Number_toString h (now b).

(** [configCollectorUrl] inside a string concatenation. *)
Definition collectorUrl_text (s : State) : jsstring :=
  match configCollectorUrl s with
  | Some u => u
  | None => str "undefined"
  end.

(** Modelled from the spec: [isString] of [../helpers], applied to
    [configCollectorUrl], which is either unset or a string. *)
Definition isString (u : option jsstring) : bool :=
  match u with Some _ => true | None => false end.

(** Modelled from the spec: [attemptWriteLocalStorage] of [../helpers], a
    best-effort write that reports whether the value was stored. *)
Definition attemptWriteLocalStorage (b : Browser) (value : jsstring) (s : State)
    : State * bool :=
  if storageWritable b value then (set_stored (Some value) s, true) else (s, false).

(** [attemptWriteLocalStorage(queueName, JSON.stringify(outQueue.slice(0, maxLocalStorageQueueSize)))] *)
Definition writeQueue (b : Browser) (s : State) : State * bool :=
  attemptWriteLocalStorage b
    (JSON_stringify_queue h (slice0 (maxLocalStorageQueueSize cfg) (outQueue s))) s.

Definition createGetUrl (b : Browser) (s : State) (nextRequest : jsstring) : jsstring :=
  if useStm cfg then
    collectorUrl_text s
      ++ replaceQuestionMark (str "?stm=" ++ Number_toString h (now b) ++ str "&") nextRequest
  else collectorUrl_text s ++ nextRequest.

Definition item_toString (x : QueueItem) : jsstring :=
  match x with
  | QueryString q => q
  | Post _ => str "[object Object]"
  | JsNull => str "null"
  | JsNumber z => Number_toString h z
  | JsBoolean true => str "true"
  | JsBoolean false => str "false"
  end.

(** [createGetUrl(outQueue[0])]: an entry that is not a string has no
    [replace] method. *)
Definition createGetUrl_head (b : Browser) (s : State) (x : QueueItem) : Exc jsstring :=
  match x with
  | QueryString q => Returned (createGetUrl b s q)
  | _ => if useStm cfg then Threw TypeError
         else Returned (collectorUrl_text s ++ item_toString x)
  end.

Definition initializeXMLHttpRequest (s : State) (url : jsstring) (post sync : bool)
    : XhrRequest :=
  mkXhr post url (negb sync)
    ((if post then [(str "Content-Type", str "application/json; charset=UTF-8")] else [])
       ++ (if anonymousTracking s then [(str "SP-Anonymous", str "*")] else [])
       ++ customHeaders cfg)
    (withCredentials cfg)
    None.

Definition encloseInPayloadDataEnvelope (evts : list Evt) : Envelope :=
  mkEnvelope (PAYLOAD_DATA_SCHEMA h) evts.

(** [onRequestSuccess?.(batch)] *)
Definition callOnRequestSuccess (batch : list BatchItem) : list Effect :=
  if hasOnRequestSuccess cfg then [OnRequestSuccess batch] else [].

(** [onRequestFailure?.(failure)] *)
Definition callOnRequestFailure (failure : RequestFailure) : list Effect :=
  if hasOnRequestFailure cfg then [OnRequestFailure failure] else [].

(** Send an event as a POST right away, without going to the queue. *)
Definition sendPostRequestWithoutQueueing (b : Browser) (body : PostEvent)
    (url : jsstring) (s : State) : Outcome :=
  let xhr := initializeXMLHttpRequest s url true false in
  let batch := present (fst (attachStmToEvent (stm_now b) [Some (evt body)])) in
  emit [XhrSend StandaloneRequest xhr (Some (encloseInPayloadDataEnvelope batch))]
       (add_pending (BypassXhr (map BEvent batch)) s).

(** The [onreadystatechange] that [sendPostRequestWithoutQueueing] installs. *)
Definition bypass_onreadystatechange (batch : list BatchItem)
    (readyState statusCode : Z) (statusText : jsstring) (s : State) : Outcome :=
  if readyState =? 4 then
    if isSuccessfulRequest statusCode then emit (callOnRequestSuccess batch) s
    else emit (callOnRequestFailure (mkFailure statusCode statusText batch false)) s
  else done s.

Definition removeEventsFromQueue (b : Browser) (numberToSend : nat) (s : State) : State :=
  let s := set_outQueue (skipn numberToSend (outQueue s)) s in
  if useLocalStorage s then fst (writeQueue b s) else s.

(** [setXhrCallbacks]: installs the two callbacks and starts the timer. *)
Definition setXhrCallbacks (numberToSend : nat) (batch : list BatchItem) (s : State)
    : Outcome :=
  emit [SetTimeout (connectionTimeout cfg)] (add_pending (XhrCallbacks numberToSend batch) s).

Definition idService_truthy : option jsstring :=
  match idService cfg with
  | Some u => if truthy u then Some u else None
  | None => None
  end.

(** The last steps of a POST attempt: stamp the batch, install the callbacks,
    send the envelope. *)
Definition sendBatch (b : Browser) (xhr : XhrRequest) (numberToSend : nat)
    (eventBatch : list (option Evt)) (s : State) : Outcome :=
  let r := attachStmToEvent (stm_now b) eventBatch in
  let s := set_outQueue (aliased (fst r) (outQueue s)) s in
  if snd r then throw TypeError s
  else
    let batch := present (fst r) in
    setXhrCallbacks numberToSend (map BEvent batch) s
      >>> emit [XhrSend QueueRequest xhr (Some (encloseInPayloadDataEnvelope batch))].

(** What one activation of [executeQueue] comes to: it returns or throws,
    or (after an accepted beacon) it calls itself on the state it has
    reached, having done [effs] so far. *)
Inductive Activation :=
| Halt (o : Outcome)
| Recurse (effs : list Effect) (s : State).

(** The body of [executeQueue(sync)] up to its recursive call. *)
Definition executeQueue_body (b : Browser) (sync : bool) (s : State) : Activation :=
  let s := set_outQueue (dropBadHead (outQueue s)) s in
  match outQueue s with
  | [] => Halt (done (set_executingQueue false s))
  | head :: _ =>
      if negb (isString (configCollectorUrl s)) then
        Halt (throw NoCollectorConfigured s)
      else
        let s := set_executingQueue true s in
        match (if idServiceCalled s then None else idService_truthy) with
        | Some idUrl =>
            let xhr := initializeXMLHttpRequest s idUrl false sync in
            let s := set_idServiceCalled true s in
            if sync then
              (* [xhr.timeout = connectionTimeout] on a synchronous request:
                 in a window the setter throws, and nothing is sent *)
              Halt (throw InvalidAccessError s)
            else
              let xhr := mkXhr (xhr_post xhr) (xhr_url xhr) (xhr_async xhr)
                               (xhr_headers xhr) (xhr_withCredentials xhr)
                               (Some (connectionTimeout cfg)) in
              Halt (emit [XhrSend IdServiceRequest xhr None]
                         (add_pending IdServiceXhr s))
        | None =>
            if useXhr cfg then
              match postable (outQueue s) with
              | Threw e => Halt (throw e s)
              | Returned true =>
                  (* the second [postable(outQueue)] reads the same queue
                     and takes the same branch *)
                  let url := collectorUrl_text s in
                  let xhr := initializeXMLHttpRequest s url true sync in
                  match chooseHowManyToSend (maxPostBytes cfg) (outQueue s) with
                  | Threw e => Halt (throw e s)
                  | Returned numberToSend =>
                      match firstn numberToSend (outQueue s) with
                      | [] => Halt (done s)
                      | batch =>
                          match map_evt batch with
                          | Threw e => Halt (throw e s)
                          | Returned eventBatch =>
                              if useBeacon cfg then
                                let r := attachStmToEvent (stm_now b) eventBatch in
                                let s := set_outQueue (aliased (fst r) (outQueue s)) s in
                                if snd r then Halt (throw TypeError s)
                                else
                                  let blob := encloseInPayloadDataEnvelope (present (fst r)) in
                                  if sendBeacon b url (present (fst r)) then
                                    let sent := map BQueued (firstn numberToSend (outQueue s)) in
                                    Recurse (BeaconSend url blob true :: callOnRequestSuccess sent)
                                            (removeEventsFromQueue b numberToSend s)
                                  else
                                    Halt (emit [BeaconSend url blob false] s
                                            >>> sendBatch b xhr numberToSend (fst r))
                              else Halt (sendBatch b xhr numberToSend eventBatch s)
                          end
                      end
                  end
              | Returned false =>
                  (* not postable, so it is a GET: just send it *)
                  match createGetUrl_head b s head with
                  | Threw e => Halt (throw e s)
                  | Returned url =>
                      let xhr := initializeXMLHttpRequest s url false sync in
                      Halt (setXhrCallbacks 1 [BUrl url] s
                              >>> emit [XhrSend QueueRequest xhr None])
                  end
              end
            else if negb (anonymousTracking s) then
              match postable (outQueue s) with
              | Threw e => Halt (throw e s)
              | Returned true => Halt (done (set_executingQueue false s))
              | Returned false =>
                  match createGetUrl_head b s head with
                  | Threw e => Halt (throw e s)
                  | Returned url =>
                      Halt (emit [ImageSrc url; SetTimeout (connectionTimeout cfg)]
                                 (add_pending (ImageRequest true) s))
                  end
              end
            else Halt (done (set_executingQueue false s))
        end
  end.

(** Run through the queue of requests.  Each recursive call finds a shorter
    queue; [fuel] bounds their number, and [None] is running out of it. *)
Fixpoint executeQueue_fuel (fuel : nat) (b : Browser) (sync : bool) (s : State)
    : option Outcome :=
  match fuel with
  | O => None
  | S fuel' =>
      match executeQueue_body b sync s with
      | Halt o => Some o
      | Recurse effs s' =>
          match executeQueue_fuel fuel' b false s' with
          | None => None
          | Some o => Some (mkOutcome (state o) (effs ++ effects o) (thrown o))
          end
      end
  end.

(** [executeQueue(sync)], with fuel for every entry of the queue and one
    more; [executeQueue_fuel_total] shows that this is always enough. *)
Definition executeQueue (b : Browser) (sync : bool) (s : State) : Outcome :=
  match executeQueue_fuel (S (length (outQueue s))) b sync s with
  | Some o => o
  | None => done s
  end.

(** The [onreadystatechange] that [setXhrCallbacks] installs. *)
Definition xhr_onreadystatechange (b : Browser) (numberToSend : nat)
    (batch : list BatchItem) (readyState statusCode : Z) (statusText : jsstring)
    (s : State) : Outcome :=
  if readyState =? 4 then
    if isSuccessfulRequest statusCode then
      emit (ClearTimeout :: callOnRequestSuccess batch)
           (removeEventsFromQueue b numberToSend s)
        >>> executeQueue b false
    else
      let willRetry :=
        shouldRetryForStatusCode (retryFailedRequests cfg) (retryStatusCodes cfg)
                                 (dontRetryStatusCodes cfg) statusCode in
      let failure := mkFailure statusCode statusText batch willRetry in
      if negb willRetry then
        emit (ClearTimeout
                :: LogError (str "Status " ++ Number_toString h statusCode
                                           ++ str ", will not retry.")
                :: callOnRequestFailure failure)
             (set_executingQueue false (removeEventsFromQueue b numberToSend s))
      else
        emit (ClearTimeout :: callOnRequestFailure failure) (set_executingQueue false s)
  else done s.

(** The timer that [setXhrCallbacks] starts.  It fires only on a request
    that was sent and is not done, and on such a request [xhr.abort()] makes
    the browser run the request's [onreadystatechange] at once, with
    [readyState] 4, status 0 and an empty status text (the response is a
    network error).  Only then does the body of the timer go on.  What a
    listener throws is reported by the browser and does not reach the caller
    of [abort]. *)
Definition xhrTimeout (b : Browser) (numberToSend : nat) (batch : list BatchItem)
    (s : State) : Outcome :=
  let aborted := xhr_onreadystatechange b numberToSend batch 4 0 [] s in
  let s := state aborted in
  let s := if negb (retryFailedRequests cfg)
           then removeEventsFromQueue b numberToSend s else s in
  mkOutcome (set_executingQueue false s)
            (XhrAbort
               :: effects aborted
               ++ callOnRequestFailure
                    (mkFailure 0 (str "timeout") batch (retryFailedRequests cfg)))
            None.

(** The [onreadystatechange] of the identity-service request. *)
Definition idService_onreadystatechange (b : Browser) (readyState : Z) (s : State)
    : Outcome :=
  if readyState =? 4 then executeQueue b false s else done s.

(** [image.onload], while [loading] is true. *)
Definition image_onload (b : Browser) (s : State) : Outcome :=
  let s := set_outQueue (skipn 1 (outQueue s)) s in
  let s := if useLocalStorage s then fst (writeQueue b s) else s in
  executeQueue b false s.

(** [image.onerror], while [loading] is true. *)
Definition image_onerror (s : State) : Outcome :=
  done (set_executingQueue false s).

Definition eventTooBigWarning (nbytes maxBytes : Z) : Effect :=
  LogWarn (str "Event (" ++ Number_toString h nbytes ++ str "B) too big, max is "
                         ++ Number_toString h maxBytes).

(** The tail of [enqueueRequest], after the record was pushed. *)
Definition afterPush (b : Browser) (s : State) : Outcome :=
  let w := if useLocalStorage s then writeQueue b s else (s, false) in
  let s := fst w in
  let savedToLocalStorage := snd w in
  if negb (executingQueue s)
     && (negb savedToLocalStorage || (bufferSize s <=? Z.of_nat (length (outQueue s))))
  then executeQueue b false s
  else done s.

(** Queue for submission to the collector and start processing the queue. *)
Definition enqueueRequest (b : Browser) (request : Payload) (url : jsstring)
    (s : State) : Outcome :=
  let s := set_configCollectorUrl (Some (url ++ path cfg)) s in
  if usePost cfg then
    let body := getBody h request in
    if maxPostBytes cfg <=? bytes body then
      emit [eventTooBigWarning (bytes body) (maxPostBytes cfg)] s
        >>> sendPostRequestWithoutQueueing b body (collectorUrl_text s)
    else afterPush b (set_outQueue (outQueue s ++ [Post body]) s)
  else
    let querystring := getQuerystring h request in
    let nbytes := getUTF8Length (createGetUrl b s querystring) in
    if (0 <? maxGetBytes cfg) && (maxGetBytes cfg <=? nbytes) then
      if useXhr cfg then
        emit [eventTooBigWarning nbytes (maxGetBytes cfg)] s
          >>> sendPostRequestWithoutQueueing b (getBody h request) (url ++ postPath cfg)
      else emit [eventTooBigWarning nbytes (maxGetBytes cfg)] s
    else afterPush b (set_outQueue (outQueue s ++ [QueryString querystring]) s).

(** ** The interface the manager returns, and the browser's events *)

(** The [executeQueue] of the returned object. *)
Definition public_executeQueue (b : Browser) (s : State) : Outcome :=
  if negb (executingQueue s) then executeQueue b false s else done s.

(** The function pushed to [sharedSate.bufferFlushers]. *)
Definition bufferFlusher (b : Browser) (sync : bool) (s : State) : Outcome :=
  if negb (executingQueue s) then executeQueue b sync s else done s.

Definition setCollectorUrl (url : jsstring) (s : State) : State :=
  set_configCollectorUrl (Some (url ++ path cfg)) s.

Inductive Event :=
| CallEnqueueRequest (request : Payload) (url : jsstring)
| CallExecuteQueue
| CallSetUseLocalStorage (v : bool)
| CallSetAnonymousTracking (v : bool)
| CallSetCollectorUrl (url : jsstring)
| CallSetBufferSize (v : Z)
| CallBufferFlusher (sync : bool)
| ReadyStateChange (i : nat) (readyState statusCode : Z) (statusText : jsstring)
| TimerFires (i : nat)
| ImageLoads (i : nat)
| ImageFails (i : nat).

(** One task of the event loop: a call from the tracker, or the browser
    running the [i]-th registered callback.  A callback that can run only
    once is removed before it runs.

    A completed response clears the timer of its request, and the timer
    fires only on a request that is not done: its task aborts the request,
    which runs the response callback inside that task (see [xhrTimeout]).
    The response to a synchronous request is a later task like any other.
    The two user callbacks are effects: they do not call back into the
    manager.

    Calls into the browser are taken to return, with one exception that the
    program's own values decide: the timeout setter on a synchronous request
    (see [executeQueue_body]).  [encodeURIComponent] throws on a string with
    an unpaired surrogate, and [XMLHttpRequest.open] and [setRequestHeader]
    throw on a URL or a header they cannot parse; runs in which they do are
    outside the model. *)
Definition handle (b : Browser) (ev : Event) (s : State) : Outcome :=
  match ev with
  | CallEnqueueRequest request url => enqueueRequest b request url s
  | CallExecuteQueue => public_executeQueue b s
  | CallSetUseLocalStorage v => done (set_useLocalStorage v s)
  | CallSetAnonymousTracking v => done (set_anonymousTracking v s)
  | CallSetCollectorUrl url => done (setCollectorUrl url s)
  | CallSetBufferSize v => done (set_bufferSize v s)
  | CallBufferFlusher sync =>
      if flusherRegistered cfg then bufferFlusher b sync s else done s
  | ReadyStateChange i readyState statusCode statusText =>
      let s' := if readyState =? 4 then set_pending (remove_nth i (pending s)) s else s in
      match nth_error (pending s) i with
      | Some (XhrCallbacks numberToSend batch) =>
          xhr_onreadystatechange b numberToSend batch readyState statusCode statusText s'
      | Some IdServiceXhr => idService_onreadystatechange b readyState s'
      | Some (BypassXhr batch) =>
          bypass_onreadystatechange batch readyState statusCode statusText s'
      | _ => done s
      end
  | TimerFires i =>
      match nth_error (pending s) i with
      | Some (XhrCallbacks numberToSend batch) =>
          xhrTimeout b numberToSend batch (set_pending (remove_nth i (pending s)) s)
      | Some (ImageRequest true) =>
          if executingQueue s
          then executeQueue b false (set_pending (remove_nth i (pending s)) s)
          else done (set_pending (replace_nth i (ImageRequest false) (pending s)) s)
      | _ => done s
      end
  | ImageLoads i =>
      match nth_error (pending s) i with
      | Some (ImageRequest _) =>
          image_onload b (set_pending (remove_nth i (pending s)) s)
      | _ => done s
      end
  | ImageFails i =>
      match nth_error (pending s) i with
      | Some (ImageRequest _) =>
          image_onerror (set_pending (remove_nth i (pending s)) s)
      | _ => done s
      end
  end.

(** A run: the tasks in order, each with what the browser answers during it.
    An exception ends its own task only; the next task finds the state the
    throw left. *)
Fixpoint run (tasks : list (Browser * Event)) (s : State) : State * list Effect :=
  match tasks with
  | [] => (s, [])
  | (b, ev) :: rest =>
      let o := handle b ev s in
      let r := run rest (state o) in
      (fst r, effects o ++ snd r)
  end.

End Manager.

(** ** Construction *)

Inductive EventMethod :=
| MethodString (s : jsstring)
| MethodBoolean (v : bool).

Record Args := mkArgs {
  arg_id : jsstring;
  arg_useLocalStorage : bool;
  arg_eventMethod : EventMethod;
  arg_postPath : jsstring;
  arg_bufferSize : Z;
  arg_maxPostBytes : Z;
  arg_maxGetBytes : Z;
  arg_useStm : bool;
  arg_maxLocalStorageQueueSize : Z;
  arg_connectionTimeout : Z;
  arg_anonymousTracking : bool;
  arg_customHeaders : list (jsstring * jsstring);
  arg_withCredentials : bool;
  arg_retryStatusCodes : list Z;
  arg_dontRetryStatusCodes : list Z;
  arg_idService : option jsstring;
  (** [None]: left out, so the default [true] applies *)
  arg_retryFailedRequests : option bool;
  arg_onRequestSuccess : bool;
  arg_onRequestFailure : bool
}.

(** What the constructor finds in [window].  The user-agent tests of
    [hasWebKitBeaconBug] are regular-expression matches; their verdict is a
    field here. *)
Record Window := mkWindow {
  (** [window.navigator && window.navigator.sendBeacon] *)
  beaconSupported : bool;
  webKitBeaconBug : bool;
  (** [window.XMLHttpRequest && 'withCredentials' in new XMLHttpRequest()] *)
  xhrSupported : bool;
  (** [localStorageAccessible()] of [../detectors] *)
  localStorageAccessible : bool;
  (** [window.localStorage.getItem]: [None] when it throws, [Some None] for
      [null] *)
  getItem : jsstring -> option (option jsstring)
}.

Definition methodIs (m : EventMethod) (name : string) : bool :=
  match m with
  | MethodString s => jsstring_eqb s (str name)
  | MethodBoolean _ => false
  end.

(** The queue the constructor reads back: [None] stands for a parsed value
    that is not an array. *)
Definition loadQueue (h : Host) (w : Window) (useLocalStorage : bool)
    (queueName : jsstring) : option (list QueueItem) :=
  if useLocalStorage then
    match getItem w queueName with
    | None => Some []                     (* caught: [outQueue] keeps its [[]] *)
    | Some None => Some []
    | Some (Some localStorageQueue) =>
        if truthy localStorageQueue then
          match JSON_parse h localStorageQueue with
          | None => Some []               (* caught *)
          | Some v => v
          end
        else Some []
    end
  else Some [].

Definition OutQueueManager (h : Host) (w : Window) (a : Args) : Config * State :=
  let eventMethod :=
    match arg_eventMethod a with
    | MethodString s => MethodString (toLowerCase h s)
    | m => m
    end in
  let isBeaconRequested :=
    match eventMethod with
    | MethodBoolean v => v
    | _ => methodIs eventMethod "beacon" || methodIs eventMethod "true"
    end in
  let isBeaconAvailable :=
    isBeaconRequested && beaconSupported w && negb (webKitBeaconBug w) in
  let useBeacon := isBeaconAvailable && isBeaconRequested in
  let isGetRequested := methodIs eventMethod "get" in
  let useXhr := xhrSupported w in
  let usePost :=
    negb isGetRequested && useXhr && (methodIs eventMethod "post" || isBeaconRequested) in
  let path := if usePost then arg_postPath a else str "/i" in
  let queueName :=
    str "snowplowOutQueue_" ++ arg_id a ++ str "_"
      ++ (if usePost then str "post2" else str "get") in
  let customHeaders := if isBeaconRequested then [] else arg_customHeaders a in
  let bufferSize :=
    if arg_useLocalStorage a && localStorageAccessible w && usePost
       && negb (arg_bufferSize a =? 0)
    then arg_bufferSize a else 1 in
  let outQueue :=
    match loadQueue h w (arg_useLocalStorage a) queueName with
    | Some q => q
    | None => []                          (* [!Array.isArray(outQueue)] *)
    end in
  (mkConfig (arg_postPath a) (arg_maxPostBytes a) (arg_maxGetBytes a) (arg_useStm a)
            (arg_maxLocalStorageQueueSize a) (arg_connectionTimeout a) customHeaders
            (arg_withCredentials a) (arg_retryStatusCodes a) (arg_dontRetryStatusCodes a)
            (arg_idService a)
            (match arg_retryFailedRequests a with Some v => v | None => true end)
            (arg_onRequestSuccess a) (arg_onRequestFailure a)
            useBeacon useXhr usePost path queueName
            (useXhr && (1 <? bufferSize)),
   mkState false None outQueue false (arg_useLocalStorage a) (arg_anonymousTracking a)
           bufferSize
           (match getItem w queueName with Some v => v | None => None end)
           []).

(** ** A concrete host and configuration, for the examples *)

Definition sample_Number_toString (z : Z) : jsstring :=
  str (NilZero.string_of_int (Z.to_int z)).

(** Renders [{k:v,...}] without quoting; enough to give records a size. *)
Definition sample_stringify_record (e : Evt) : jsstring :=
  str "{" ++ flat_map (fun kv => fst kv ++ str ":" ++ snd kv ++ str ",") e ++ str "}".

Definition sample_stringify_queue (q : list QueueItem) : jsstring :=
  str "[" ++ flat_map (fun x =>
                         match x with
                         | Post p => sample_stringify_record (evt p)
                         | QueryString s => s
                         | JsNull => str "null"
                         | JsNumber z => sample_Number_toString z
                         | JsBoolean true => str "true"
                         | JsBoolean false => str "false"
                         end ++ str ",") q ++ str "]".

(** Knows three texts: an empty array, an array holding [null], an object. *)
Definition sample_parse (text : jsstring) : option (option (list QueueItem)) :=
  if jsstring_eqb text (str "[]") then Some (Some [])
  else if jsstring_eqb text (str "[null]") then Some (Some [JsNull])
  else if jsstring_eqb text (str "{}") then Some None
  else None.

Definition sampleHost : Host :=
  mkHost sample_Number_toString (fun s => s) (fun s => s)
         sample_stringify_record sample_stringify_queue sample_parse
         (str "iglu:com.snowplowanalytics.snowplow/payload_data/jsonschema/1-0-4").

Definition sampleBrowser : Browser :=
  mkBrowser 1700000000000 (fun _ _ => false) (fun _ => true).

(** POST over XHR, no beacon, a cap of 10000 bytes, persistence on. *)
Definition sampleWindow : Window :=
  mkWindow false false true true (fun _ => Some None).

Definition sampleArgs : Args :=
  mkArgs (str "sp") true (MethodString (str "post")) (str "/com.snowplowanalytics.snowplow/tp2")
         1 10000 0 true 1000 5000 false [] true [] [] None None true true.

Definition sampleConfig : Config := fst (OutQueueManager sampleHost sampleWindow sampleArgs).

Definition sampleState : State := snd (OutQueueManager sampleHost sampleWindow sampleArgs).

(** The same manager with status 0 on the don't-retry list. *)
Definition sampleArgs_dontRetry0 : Args :=
  mkArgs (str "sp") true (MethodString (str "post")) (str "/com.snowplowanalytics.snowplow/tp2")
         1 10000 0 true 1000 5000 false [] true [] [0] None None true true.

Definition sampleConfig_dontRetry0 : Config :=
  fst (OutQueueManager sampleHost sampleWindow sampleArgs_dontRetry0).

(** GET in a browser without CORS requests, with a cap of 10 bytes on the URL. *)
Definition sampleWindow_noXhr : Window :=
  mkWindow false false false true (fun _ => Some None).

Definition sampleArgs_get : Args :=
  mkArgs (str "sp") true (MethodString (str "get")) (str "/com.snowplowanalytics.snowplow/tp2")
         1 10000 10 false 1000 5000 false [] true [] [] None None true true.

Definition sampleConfig_get : Config :=
  fst (OutQueueManager sampleHost sampleWindow_noXhr sampleArgs_get).

Definition sampleState_get : State :=
  snd (OutQueueManager sampleHost sampleWindow_noXhr sampleArgs_get).

(** A browser whose stored queue is the text [[null]]. *)
Definition sampleWindow_storedNull : Window :=
  mkWindow false false true true (fun _ => Some (Some (str "[null]"))).

Definition sampleState_storedNull : State :=
  snd (OutQueueManager sampleHost sampleWindow_storedNull sampleArgs).

(** A browser whose stored queue is not JSON. *)
Definition sampleWindow_storedGarbage : Window :=
  mkWindow false false true true (fun _ => Some (Some (str "[{"))).

(** A payload whose record serialises to 18000 bytes under [sampleHost]. *)
Definition samplePayload_18000 : Payload :=
  [(str "e", PString (repeat 97 (Z.to_nat 17995)))].

(** A small payload. *)
Definition samplePayload_small : Payload :=
  [(str "e", PString (str "pv")); (str "p", PString (str "web"))].

(** The POST manager with a buffer of two records. *)
Definition sampleArgs_buffer2 : Args :=
  mkArgs (str "sp") true (MethodString (str "post")) (str "/com.snowplowanalytics.snowplow/tp2")
         2 10000 0 true 1000 5000 false [] true [] [] None None true true.

Definition sampleConfig_buffer2 : Config :=
  fst (OutQueueManager sampleHost sampleWindow sampleArgs_buffer2).

Definition sampleState_buffer2 : State :=
  snd (OutQueueManager sampleHost sampleWindow sampleArgs_buffer2).

Definition samplePayload (n : Z) : Payload :=
  [(str "e", PString (str "pv")); (str "n", PNumber n)].

(** Scenario A: three enqueues, the response 200 to the first request coming
    in between the second and the third. *)
Definition scenarioA : list (Browser * Event) :=
  [(sampleBrowser, CallEnqueueRequest (samplePayload 1) (str "https://collector.example"));
   (sampleBrowser, CallEnqueueRequest (samplePayload 2) (str "https://collector.example"));
   (sampleBrowser, ReadyStateChange 0 4 200 (str "OK"));
   (sampleBrowser, CallEnqueueRequest (samplePayload 3) (str "https://collector.example"))].

(** Scenario D: one enqueue, then the response 503 to its request. *)
Definition scenarioD : list (Browser * Event) :=
  [(sampleBrowser, CallEnqueueRequest (samplePayload 1) (str "https://collector.example"));
   (sampleBrowser, ReadyStateChange 0 4 503 (str "Service Unavailable"))].







Definition sampleState_dontRetry0 : State :=
  snd (OutQueueManager sampleHost sampleWindow sampleArgs_dontRetry0).

(** One enqueue, then the timer of its request. *)
Definition scenarioTimeout : list (Browser * Event) :=
  [(sampleBrowser, CallEnqueueRequest (samplePayload 1) (str "https://collector.example"));
   (sampleBrowser, TimerFires 0)].

(** The manager with retries switched off. *)
Definition sampleArgs_noRetry : Args :=
  mkArgs (str "sp") true (MethodString (str "post")) (str "/com.snowplowanalytics.snowplow/tp2")
         1 10000 0 true 1000 5000 false [] true [] [] None (Some false) true true.

Definition sampleConfig_noRetry : Config :=
  fst (OutQueueManager sampleHost sampleWindow sampleArgs_noRetry).

Definition sampleState_noRetry : State :=
  snd (OutQueueManager sampleHost sampleWindow sampleArgs_noRetry).

(** Two enqueues, the second while the request of the first is in flight,
    then the timer of that request. *)
Definition scenarioTimeout2 : list (Browser * Event) :=
  [(sampleBrowser, CallEnqueueRequest (samplePayload 1) (str "https://collector.example"));
   (sampleBrowser, CallEnqueueRequest (samplePayload 2) (str "https://collector.example"));
   (sampleBrowser, TimerFires 0)].

(** A browser whose storage holds a queue written under a larger cap: one
    record of 18000 bytes. *)
Definition samplePosts_stored : list QueueItem :=
  [Post (mkPostEvent [(str "e", str "pv")] 18000)].

Definition sampleHost_stored : Host :=
  mkHost sample_Number_toString (fun s => s) (fun s => s)
         sample_stringify_record sample_stringify_queue
         (fun text => if jsstring_eqb text (sample_stringify_queue samplePosts_stored)
                      then Some (Some samplePosts_stored) else sample_parse text)
         (str "iglu:com.snowplowanalytics.snowplow/payload_data/jsonschema/1-0-4").

Definition sampleWindow_stored : Window :=
  mkWindow false false true true
           (fun _ => Some (Some (sample_stringify_queue samplePosts_stored))).

Definition sampleConfig_stored : Config :=
  fst (OutQueueManager sampleHost_stored sampleWindow_stored sampleArgs).

Definition sampleState_stored : State :=
  snd (OutQueueManager sampleHost_stored sampleWindow_stored sampleArgs).

(** [setCollectorUrl], [executeQueue()], then an enqueue and another
    [executeQueue()]. *)
Definition scenarioStored : list (Browser * Event) :=
  [(sampleBrowser, CallSetCollectorUrl (str "https://collector.example"));
   (sampleBrowser, CallExecuteQueue);
   (sampleBrowser, CallEnqueueRequest (samplePayload 1) (str "https://collector.example"));
   (sampleBrowser, CallExecuteQueue)].

(** ** Vocabulary of the properties *)

(** A record without its send-time stamp: [attachStmToEvent] rewrites the
    [stm] field of a queued record at every attempt, and a record stays the
    same record through that. *)
Definition eraseStmEvt (e : Evt) : Evt :=
  filter (fun kv => negb (jsstring_eqb (fst kv) (str "stm"))) e.

Definition eraseStm (x : QueueItem) : QueueItem :=
  match x with
  | Post p => Post (mkPostEvent (eraseStmEvt (evt p)) (bytes p))
  | _ => x
  end.

Definition records (queue : list QueueItem) : list QueueItem := map eraseStm queue.

(** [n] entries from position [off] on. *)
Definition segment {A : Type} (off n : nat) (l : list A) : list A :=
  firstn n (skipn off l).

(** A send attempt on the queue, as the network sees it: the records of a
    POST body or beacon blob, or the URL of a GET or pixel. *)
Inductive Attempt :=
| PostAttempt (evts : list Evt)
| GetAttempt (url : jsstring).

Definition attempt_of (e : Effect) : list Attempt :=
  match e with
  | XhrSend QueueRequest _ (Some env) => [PostAttempt (data env)]
  | XhrSend QueueRequest xhr None => [GetAttempt (xhr_url xhr)]
  | BeaconSend _ blob _ => [PostAttempt (data blob)]
  | ImageSrc url => [GetAttempt url]
  | _ => []
  end.

(** The attempts of a trace, in order. *)
Definition attempts (effs : list Effect) : list Attempt := flat_map attempt_of effs.

(** The attempt carries exactly these records: a POST the events of these
    post-records, a GET the URL made from this one query string. *)
Definition carries (h : Host) (cfg : Config) (a : Attempt) (entries : list QueueItem)
    : Prop :=
  match a with
  | PostAttempt evts =>
      exists posts, entries = map Post posts /\ map evt posts = map eraseStmEvt evts
  | GetAttempt url =>
      exists q b s, entries = [QueryString q] /\ url = createGetUrl h cfg b s q
  end.

(** [fifo_log h cfg H hi lo log atts]: the attempts [atts], in order, carry segments
    of the arrival order [H]; [log] gives each segment's offset and length,
    and the offsets never decrease from [lo] to [hi]. *)
Inductive fifo_log (h : Host) (cfg : Config) (H : list QueueItem) (hi : nat)
    : nat -> list (nat * nat) -> list Attempt -> Prop :=
| fifo_log_nil lo :
    (lo <= hi)%nat ->
    fifo_log h cfg H hi lo [] []
| fifo_log_cons lo off n a log atts :
    (lo <= off)%nat ->
    (1 <= n)%nat ->
    (off + n <= length H)%nat ->
    carries h cfg a (segment off n H) ->
    fifo_log h cfg H hi off log atts ->
    fifo_log h cfg H hi lo ((off, n) :: log) (a :: atts).


(** What a task appends to the queue: the record of an [enqueueRequest] that
    is not diverted. *)
Definition pushed (h : Host) (cfg : Config) (b : Browser) (ev : Event) (s : State)
    : list QueueItem :=
  match ev with
  | CallEnqueueRequest request url =>
      if usePost cfg then
        if maxPostBytes cfg <=? bytes (getBody h request) then []
        else [Post (getBody h request)]
      else
        if (0 <? maxGetBytes cfg)
           && (maxGetBytes cfg <=?
                 getUTF8Length
                   (createGetUrl h cfg b (setCollectorUrl cfg url s)
                                 (getQuerystring h request)))
        then []
        else [QueryString (getQuerystring h request)]
  | _ => []
  end.


(** A post-record after [attachStmToEvent] wrote into its event. *)
Definition stampPost (stm : jsstring) (p : PostEvent) : PostEvent :=
  mkPostEvent (setProp (str "stm") stm (evt p)) (bytes p).

(** [o] drains [queue]: its attempts carry segments of [queue] at offsets
    that never decrease, and the queue it leaves is what remains of [queue]
    behind some front part. *)
Definition drains (h : Host) (cfg : Config) (queue : list QueueItem) (o : Outcome) : Prop :=
  exists log k,
    fifo_log h cfg (records queue) k 0 log (attempts (effects o))
    /\ records (outQueue (state o)) = skipn k (records queue)
    /\ (k <= length queue)%nat.

(** The callbacks that belong to a drain: every pending callback except
    those of standalone requests. *)
Definition is_bypass (p : Pending) : bool :=
  match p with BypassXhr _ => true | _ => false end.

Definition drain_pendings (s : State) : list Pending :=
  filter (fun p => negb (is_bypass p)) (pending s).

(** The batch a callback holds is the batch made from these queue entries. *)
Definition batch_matches (h : Host) (cfg : Config)
    (batch : list BatchItem) (front : list QueueItem) : Prop :=
  (exists posts, front = map Post posts /\ batch = map (fun p => BEvent (evt p)) posts)
  \/ (exists q b s, front = [QueryString q] /\ batch = [BUrl (createGetUrl h cfg b s q)]).

(** At most one drain is waiting for the browser; while one is, the
    executing flag is on, and the entries it will remove on completion are
    the ones it sent. *)
Definition single_flight (h : Host) (cfg : Config) (s : State) : Prop :=
  match drain_pendings s with
  | [] => True
  | [XhrCallbacks n batch] =>
      executingQueue s = true
      /\ (1 <= n <= length (outQueue s))%nat
      /\ batch_matches h cfg batch (firstn n (outQueue s))
  | [IdServiceXhr] => executingQueue s = true
  | [ImageRequest _] =>
      executingQueue s = true /\ exists q rest, outQueue s = QueryString q :: rest
  | _ => False
  end.

(** ** Vocabulary of the further properties *)

(** The doc comment of [getUTF8Length] promises the number of bytes the
    string occupies when UTF-8 encoded.  These three definitions say what
    that number is: the code points of a well-formed UTF-16 string ([None]
    when a surrogate is unpaired or a unit is out of range), and the size of
    a code point in UTF-8. *)
Definition isHighSurrogate (c : Z) : bool := (55296 <=? c) && (c <=? 56319).

Definition isLowSurrogate (c : Z) : bool := (56320 <=? c) && (c <=? 57343).

Fixpoint codePoints (s : jsstring) : option (list Z) :=
  match s with
  | [] => Some []
  | c :: rest =>
      if isHighSurrogate c then
        match rest with
        | [] => None
        | lo :: rest' =>
            if isLowSurrogate lo then
              option_map (cons (65536 + (c - 55296) * 1024 + (lo - 56320)))
                         (codePoints rest')
            else None
        end
      else if isLowSurrogate c then None
      else if (0 <=? c) && (c <=? 65535) then option_map (cons c) (codePoints rest)
      else None
  end.

Definition utf8_size (cp : Z) : Z :=
  if cp <=? 127 then 1
  else if cp <=? 2047 then 2
  else if cp <=? 65535 then 3
  else 4.

Definition utf8_length (cps : list Z) : Z :=
  fold_right (fun cp acc => utf8_size cp + acc) 0 cps.

(** [evt[key]]: the value of a field, if the record has it. *)
Fixpoint getEvtProp (key : jsstring) (e : Evt) : option jsstring :=
  match e with
  | [] => None
  | (k, v) :: rest => if jsstring_eqb k key then Some v else getEvtProp key rest
  end.

Definition isPost (x : QueueItem) : bool :=
  match x with Post _ => true | _ => false end.

Definition isQueryString (x : QueueItem) : bool :=
  match x with QueryString _ => true | _ => false end.

(** The queue holds the one shape its transport pushes. *)
Definition wellTyped (cfg : Config) (queue : list QueueItem) : bool :=
  if usePost cfg then forallb isPost queue else forallb isQueryString queue.

(** A post-record whose size the enqueue test lets through. *)
Definition postBelow (maxBytes : Z) (x : QueueItem) : bool :=
  match x with
  | Post p => (0 <=? bytes p) && (bytes p <? maxBytes)
  | _ => false
  end.



Definition isImageSrc (e : Effect) : bool :=
  match e with ImageSrc _ => true | _ => false end.

Definition isXhrSend (e : Effect) : bool :=
  match e with XhrSend _ _ _ => true | _ => false end.

Definition hasHeader (name value : jsstring) (xhr : XhrRequest) : bool :=
  existsb (fun nv => jsstring_eqb (fst nv) name && jsstring_eqb (snd nv) value)
          (xhr_headers xhr).

(** Every request of the trace carries the anonymity header: the trace
    loads no pixel and sends no beacon, which carry no header of the
    manager's, and each XHR has the header set. *)
Definition anonymousOnly (effs : list Effect) : bool :=
  forallb (fun e =>
             match e with
             | XhrSend _ xhr _ => hasHeader (str "SP-Anonymous") (str "*") xhr
             | ImageSrc _ => false
             | BeaconSend _ _ _ => false
             | _ => true
             end) effs.

(** The context fields of a request, [co] before [cx]. *)
Definition contextPairs (request : Payload) : Payload :=
  flat_map (fun key =>
              match getProp key request with
              | Some value => [(key, value)]
              | None => []
              end) lowPriorityKeys.

(** The constructor's [eventMethod] after lower-casing, and its
    [isBeaconRequested]. *)
Definition loweredMethod (h : Host) (a : Args) : EventMethod :=
  match arg_eventMethod a with
  | MethodString s => MethodString (toLowerCase h s)
  | m => m
  end.

Definition beaconRequested (h : Host) (a : Args) : bool :=
  match loweredMethod h a with
  | MethodBoolean v => v
  | m => methodIs m "beacon" || methodIs m "true"
  end.

(** What a drain never changes: the collector URL, the three settings, the
    stored text while storage is off, and that the identity service has
    been called. *)
Definition drain_frame (s s' : State) : Prop :=
  configCollectorUrl s' = configCollectorUrl s
  /\ useLocalStorage s' = useLocalStorage s
  /\ anonymousTracking s' = anonymousTracking s
  /\ bufferSize s' = bufferSize s
  /\ (useLocalStorage s = false -> stored s' = stored s)
  /\ (idServiceCalled s = true -> idServiceCalled s' = true).

(** The queue holds post-records only, or query strings only. *)
Definition sameShape (queue : list QueueItem) : bool :=
  forallb isPost queue || forallb isQueryString queue.

Definition isStorageSwitch (ev : Event) : bool :=
  match ev with CallSetUseLocalStorage true => true | _ => false end.

Definition isAnonymousSwitch (ev : Event) : bool :=
  match ev with CallSetAnonymousTracking false => true | _ => false end.

(** The tasks that set the collector URL before anything else. *)
Definition setsCollectorUrl (ev : Event) : bool :=
  match ev with
  | CallEnqueueRequest _ _ | CallSetCollectorUrl _ => true
  | _ => false
  end.

(** The state a task works from once its setter, if it has one, has run. *)
Definition afterSetter (cfg : Config) (ev : Event) (s : State) : State :=
  match ev with
  | CallEnqueueRequest _ url | CallSetCollectorUrl url => setCollectorUrl cfg url s
  | CallSetUseLocalStorage v => set_useLocalStorage v s
  | CallSetAnonymousTracking v => set_anonymousTracking v s
  | CallSetBufferSize v => set_bufferSize v s
  | _ => s
  end.

(** An effect that sends nothing. *)
Definition isQuiet (e : Effect) : bool :=
  match e with
  | XhrSend _ _ _ | BeaconSend _ _ _ | ImageSrc _ => false
  | _ => true
  end.


(** One [enqueueRequest] per request, all for the same collector. *)
Definition enqueueAll (b : Browser) (url : jsstring) (requests : list Payload)
    : list (Browser * Event) :=
  map (fun request => (b, CallEnqueueRequest request url)) requests.

(** The request [e] carried the batch [batch]: a POST its events, a GET its
    URL. *)
Definition sendsBatch (batch : list BatchItem) (e : Effect) : Prop :=
  match e with
  | XhrSend QueueRequest _ (Some env) => batch = map BEvent (data env)
  | XhrSend QueueRequest xhr None => batch = [BUrl (xhr_url xhr)]
  | _ => False
  end.

(** The batch a waiting request callback holds was sent in [trace]. *)
Definition wasSent (trace : list Effect) (p : Pending) : Prop :=
  match p with
  | XhrCallbacks _ batch => exists e, In e trace /\ sendsBatch batch e
  | _ => True
  end.

(** The query string, part by part. *)

(** The fields of a request other than the context fields, in the order of
    the payload. *)
Definition ordinaryFields (request : Payload) : Payload :=
  filter (fun kv => negb (isLowPriority (fst kv))) request.

(** [key=value] of a field, both sides percent-encoded. *)
Definition encodedPair (h : Host) (kv : jsstring * PayloadValue) : jsstring :=
  encodeURIComponent h (fst kv) ++ str "="
    ++ encodeURIComponent h (valueToString h (snd kv)).

(** The strings of a list with a separator between neighbours. *)
Fixpoint joinWith (sep : jsstring) (l : list jsstring) : jsstring :=
  match l with
  | [] => []
  | [x] => x
  | x :: rest => x ++ sep ++ joinWith sep rest
  end.

(** [&key=value] of a context field the request has, with the key as it is
    and the value percent-encoded; nothing for a field it lacks. *)
Definition contextField (h : Host) (request : Payload) (key : jsstring) : jsstring :=
  match getProp key request with
  | Some value => str "&" ++ key ++ str "=" ++ encodeURIComponent h (valueToString h value)
  | None => []
  end.

(** * Properties *)

(** ** Byte counting *)

Lemma getUTF8Length_nonneg_upto (n : nat) :
  forall s : jsstring, (length s <= n)%nat -> 0 <= getUTF8Length s.
Proof.
  induction n as [|n IH]; intros s Hlen.
  - destruct s; simpl in *; [lia | lia].
  - destruct s as [|code rest]; [simpl; lia|].
    simpl in Hlen.
    assert (Hrest : 0 <= getUTF8Length rest) by (apply IH; lia).
    assert (Hskip : 0 <= match rest with [] => 0 | _ :: rest' => getUTF8Length rest' end).
    { destruct rest as [|c rest']; [lia|]. apply IH. simpl in Hlen. lia. }
    change (getUTF8Length (code :: rest)) with
      (if code <=? 127 then 1 + getUTF8Length rest
       else if code <=? 2047 then 2 + getUTF8Length rest
       else if (55296 <=? code) && (code <=? 57343) then
         4 + match rest with [] => 0 | _ :: rest' => getUTF8Length rest' end
       else if code <? 65535 then 3 + getUTF8Length rest
       else 4 + getUTF8Length rest).
    destruct (code <=? 127); [lia|].
    destruct (code <=? 2047); [lia|].
    destruct ((55296 <=? code) && (code <=? 57343)); [lia|].
    destruct (code <? 65535); lia.
Qed.

Lemma getUTF8Length_nonneg (s : jsstring) : 0 <= getUTF8Length s.
Proof. apply (getUTF8Length_nonneg_upto (length s)). lia. Qed.

Lemma getBody_bytes_nonneg (h : Host) (request : Payload) :
  0 <= bytes (getBody h request).
Proof. unfold getBody; simpl. apply getUTF8Length_nonneg. Qed.

(** ** Batch selection *)

Lemma total_bytes_cons (p : PostEvent) (l : list PostEvent) :
  total_bytes (p :: l) = bytes p + total_bytes l.
Proof. reflexivity. Qed.

Lemma total_bytes_firstn_mono (l : list PostEvent) :
  Forall (fun p => 0 <= bytes p) l ->
  forall i j, (i <= j)%nat -> total_bytes (firstn i l) <= total_bytes (firstn j l).
Proof.
  induction 1 as [|p l Hp Hl IH]; intros i j Hij.
  - rewrite !firstn_nil. lia.
  - destruct i as [|i]; destruct j as [|j]; try lia.
    + simpl firstn. rewrite total_bytes_cons.
      specialize (IH 0%nat j ltac:(lia)). simpl in IH. simpl (total_bytes []). lia.
    + simpl firstn. rewrite !total_bytes_cons.
      specialize (IH i j ltac:(lia)). lia.
Qed.

(** The loop, started anywhere: it stops at the first record that brings the
    running count to the cap, and counts the records before it. *)
Lemma chooseHowManyToSend_loop_posts (maxBytes : Z) (l : list PostEvent) :
  forall (n : nat) (acc : Z),
  exists k : nat,
    chooseHowManyToSend_loop maxBytes (map Post l) n (Num acc) = Returned (n + k)%nat
    /\ (k <= length l)%nat
    /\ (forall j, (1 <= j <= k)%nat -> acc + total_bytes (firstn j l) < maxBytes)
    /\ ((k < length l)%nat -> maxBytes <= acc + total_bytes (firstn (S k) l)).
Proof.
  induction l as [|p l IH]; intros n acc.
  - exists 0%nat. simpl. rewrite Nat.add_0_r. repeat split; try lia.
  - simpl map. simpl chooseHowManyToSend_loop.
    destruct (maxBytes <=? acc + bytes p) eqn:Hcap.
    + exists 0%nat. rewrite Nat.add_0_r. repeat split; try lia.
      intros _. simpl firstn. rewrite total_bytes_cons. simpl (total_bytes []).
      apply Z.leb_le in Hcap. lia.
    + apply Z.leb_gt in Hcap.
      destruct (IH (S n) (acc + bytes p)) as (k & Hk & Hlen & Hbelow & Hstop).
      exists (S k). repeat split.
      * rewrite Hk. f_equal. lia.
      * simpl. lia.
      * intros j Hj. destruct j as [|j]; [lia|].
        simpl firstn. rewrite total_bytes_cons.
        destruct j as [|j].
        -- simpl. lia.
        -- specialize (Hbelow (S j) ltac:(lia)). lia.
      * intros Hlt. simpl in Hlt.
        change (firstn (S (S k)) (p :: l)) with (p :: firstn (S k) l).
        rewrite total_bytes_cons.
        specialize (Hstop ltac:(lia)). lia.
Qed.

Lemma chooseHowManyToSend_posts (maxBytes : Z) (l : list PostEvent) :
  exists n : nat,
    chooseHowManyToSend maxBytes (map Post l) = Returned n
    /\ (n <= length l)%nat
    /\ (forall j, (1 <= j <= n)%nat -> total_bytes (firstn j l) < maxBytes)
    /\ ((n < length l)%nat -> maxBytes <= total_bytes (firstn (S n) l)).
Proof.
  destruct (chooseHowManyToSend_loop_posts maxBytes l 0%nat 0)
    as (k & Hk & Hlen & Hbelow & Hstop).
  exists k. unfold chooseHowManyToSend. rewrite Hk.
  split; [reflexivity|]. split; [exact Hlen|]. split.
  - intros j Hj. specialize (Hbelow j Hj). lia.
  - intros Hlt. specialize (Hstop Hlt). lia.
Qed.

(** X24.  What [chooseHowManyToSend] computes.  On a queue of post-records
    whose sizes are not negative, it returns the length of the longest prefix
    whose cumulative size is below the POST cap: every non-empty prefix up to
    it is below the cap, no longer prefix is, and a selected batch (one
    record or many) is always below the cap.  A record is selected exactly
    when the first record's own size is below the cap; when it is at or
    above the cap the selection is empty. *)
Theorem chooseHowManyToSend_longest_prefix (maxBytes : Z) (l : list PostEvent) :
  Forall (fun p => 0 <= bytes p) l ->
  exists n : nat,
    chooseHowManyToSend maxBytes (map Post l) = Returned n
    /\ (n <= length l)%nat
    /\ (forall j, (1 <= j <= n)%nat -> total_bytes (firstn j l) < maxBytes)
    /\ (forall m, (m <= length l)%nat -> (1 <= m)%nat ->
                  total_bytes (firstn m l) < maxBytes -> (m <= n)%nat)
    /\ (forall p rest, l = p :: rest -> ((1 <= n)%nat <-> bytes p < maxBytes)).
Proof.
  intros Hnonneg.
  destruct (chooseHowManyToSend_posts maxBytes l) as (n & Hn & Hlen & Hbelow & Hstop).
  exists n.
  split; [exact Hn|]. split; [exact Hlen|]. split; [exact Hbelow|]. split.
  - intros m Hm Hm1 Hsum.
    destruct (Nat.le_gt_cases m n) as [|Hgt]; [assumption|exfalso].
    specialize (Hstop ltac:(lia)).
    pose proof (total_bytes_firstn_mono l Hnonneg (S n) m ltac:(lia)). lia.
  - intros p rest Hl. subst l. split.
    + intros Hn1. specialize (Hbelow 1%nat ltac:(lia)).
      simpl in Hbelow. lia.
    + intros Hp.
      destruct n as [|n]; [exfalso|lia].
      specialize (Hstop ltac:(simpl; lia)). simpl in Hstop. lia.
Qed.

Lemma chooseHowManyToSend_longest_prefix_witness :
  exists n : nat,
    chooseHowManyToSend 10
      (map Post [mkPostEvent [] 4; mkPostEvent [] 4; mkPostEvent [] 4]) = Returned n
    /\ (n <= 3)%nat
    /\ (forall j, (1 <= j <= n)%nat ->
          total_bytes (firstn j [mkPostEvent [] 4; mkPostEvent [] 4; mkPostEvent [] 4]) < 10)
    /\ (forall m, (m <= 3)%nat -> (1 <= m)%nat ->
          total_bytes (firstn m [mkPostEvent [] 4; mkPostEvent [] 4; mkPostEvent [] 4]) < 10 ->
          (m <= n)%nat)
    /\ (forall p rest,
          [mkPostEvent [] 4; mkPostEvent [] 4; mkPostEvent [] 4] = p :: rest ->
          ((1 <= n)%nat <-> bytes p < 10)).
Proof.
  apply (chooseHowManyToSend_longest_prefix 10
           [mkPostEvent [] 4; mkPostEvent [] 4; mkPostEvent [] 4]).
  repeat constructor; simpl; lia.
Defined.

(** C1.  The claim fails on the code, and the code is at fault.  The stored
    queue holds one record of 18000 bytes, written under a larger cap; the
    cap is now 10000.  After [setCollectorUrl], [executeQueue()] sets the
    executing flag and selects no record: the size of the head is added
    before the test against the cap.  The guard [batch.length > 0] then
    skips the send, so no request goes out and no callback is registered,
    and nothing clears the flag.  From then on [enqueueRequest] only
    appends and [executeQueue()] returns at once: the record that was
    enqueued later, 11 bytes long, is never sent. *)
Theorem oversized_stored_head_stalls_the_queue :
  let first := run sampleHost_stored sampleConfig_stored (firstn 2 scenarioStored)
                   sampleState_stored in
  let r := run sampleHost_stored sampleConfig_stored scenarioStored sampleState_stored in
  outQueue sampleState_stored = samplePosts_stored
  /\ executingQueue sampleState_stored = false
  /\ maxPostBytes sampleConfig_stored = 10000
  /\ chooseHowManyToSend (maxPostBytes sampleConfig_stored) samplePosts_stored
     = Returned 0%nat
  /\ snd first = []
  /\ executingQueue (fst first) = true
  /\ pending (fst first) = []
  /\ snd r = []
  /\ outQueue (fst r)
     = samplePosts_stored ++ [Post (getBody sampleHost_stored (samplePayload 1))]
  /\ bytes (getBody sampleHost_stored (samplePayload 1)) = 11
  /\ executingQueue (fst r) = true
  /\ pending (fst r) = [].
Proof. cbv zeta. repeat split; vm_compute; reflexivity. Qed.

(** ** Retry classification *)

Lemma includes_In (l : list Z) (x : Z) : includes l x = true <-> In x l.
Proof.
  unfold includes. rewrite existsb_exists. split.
  - intros (y & Hy & Heq). apply Z.eqb_eq in Heq. now subst.
  - intros Hx. exists x. split; [assumption | apply Z.eqb_refl].
Qed.

(** C2.  The classifier never retries a 2xx status; never retries when the
    global flag is off; for a failed status with retries on it retries every
    status on the retry list, whatever the don't-retry list says, and any
    other status exactly when it is not on the don't-retry list.  The three
    rows of the spec's matrix follow. *)
Theorem shouldRetryForStatusCode_policy :
  (forall enabled retry dont statusCode,
      200 <= statusCode < 300 ->
      shouldRetryForStatusCode enabled retry dont statusCode = false)
  /\ (forall retry dont statusCode,
      shouldRetryForStatusCode false retry dont statusCode = false)
  /\ (forall retry dont statusCode,
      ~ 200 <= statusCode < 300 -> In statusCode retry ->
      shouldRetryForStatusCode true retry dont statusCode = true)
  /\ (forall retry dont statusCode,
      ~ 200 <= statusCode < 300 -> ~ In statusCode retry ->
      (shouldRetryForStatusCode true retry dont statusCode = true
       <-> ~ In statusCode dont))
  /\ shouldRetryForStatusCode true [] [] 500 = true
  /\ shouldRetryForStatusCode true [] [404] 404 = false
  /\ shouldRetryForStatusCode true [429] [429] 429 = true.
Proof.
  assert (Hok : forall c, isSuccessfulRequest c = true <-> 200 <= c < 300).
  { intros c. unfold isSuccessfulRequest.
    rewrite andb_true_iff, Z.leb_le, Z.ltb_lt. tauto. }
  repeat split.
  - intros enabled retry dont c Hc. unfold shouldRetryForStatusCode.
    apply Hok in Hc. now rewrite Hc.
  - intros retry dont c. unfold shouldRetryForStatusCode.
    now destruct (isSuccessfulRequest c).
  - intros retry dont c Hc Hin. unfold shouldRetryForStatusCode.
    destruct (isSuccessfulRequest c) eqn:E; [apply Hok in E; contradiction|].
    apply includes_In in Hin. now rewrite Hin.
  - unfold shouldRetryForStatusCode.
    destruct (isSuccessfulRequest statusCode) eqn:E; [apply Hok in E; contradiction|].
    simpl. destruct (includes retry statusCode) eqn:Er.
    + apply includes_In in Er. contradiction.
    + intros Hd Hin. apply includes_In in Hin. rewrite Hin in Hd. discriminate.
  - unfold shouldRetryForStatusCode.
    destruct (isSuccessfulRequest statusCode) eqn:E; [apply Hok in E; contradiction|].
    simpl. destruct (includes retry statusCode) eqn:Er.
    + reflexivity.
    + intros Hnot. destruct (includes dont statusCode) eqn:Ed; [|reflexivity].
      apply includes_In in Ed. contradiction.
Qed.

(** ** Single flight *)

(** C8.  While [executingQueue] is true, the public [executeQueue] and the
    registered buffer flusher do nothing: same state, no effect, no throw. *)
Theorem executing_external_triggers_noop
    (h : Host) (cfg : Config) (b : Browser) (sync : bool) (s : State) :
  executingQueue s = true ->
  public_executeQueue h cfg b s = done s
  /\ bufferFlusher h cfg b sync s = done s
  /\ handle h cfg b CallExecuteQueue s = done s
  /\ handle h cfg b (CallBufferFlusher sync) s = done s.
Proof.
  intros Hexec.
  unfold handle, public_executeQueue, bufferFlusher. rewrite Hexec. simpl.
  repeat split; try reflexivity.
  now destruct (flusherRegistered cfg).
Qed.

Lemma executing_external_triggers_noop_witness :
  let s := set_executingQueue true
             (set_outQueue [Post (mkPostEvent [] 7)] sampleState) in
  executingQueue s = true
  /\ public_executeQueue sampleHost sampleConfig sampleBrowser s = done s
  /\ bufferFlusher sampleHost sampleConfig sampleBrowser true s = done s
  /\ handle sampleHost sampleConfig sampleBrowser CallExecuteQueue s = done s
  /\ handle sampleHost sampleConfig sampleBrowser (CallBufferFlusher true) s = done s.
Proof.
  split; [reflexivity|].
  apply (executing_external_triggers_noop sampleHost sampleConfig sampleBrowser true).
  reflexivity.
Defined.

(** ** The standalone request of an oversized event *)

Lemma sendPostRequestWithoutQueueing_spec
    (h : Host) (cfg : Config) (b : Browser) (body : PostEvent) (url : jsstring) (s : State) :
  let stamped := setProp (str "stm") (stm_now h b) (evt body) in
  sendPostRequestWithoutQueueing h cfg b body url s
  = emit [XhrSend StandaloneRequest (initializeXMLHttpRequest cfg s url true false)
                  (Some (encloseInPayloadDataEnvelope h [stamped]))]
         (add_pending (BypassXhr [BEvent stamped]) s).
Proof. reflexivity. Qed.

Lemma bypass_onreadystatechange_state
    (cfg : Config) (batch : list BatchItem) (readyState statusCode : Z)
    (statusText : jsstring) (s : State) :
  state (bypass_onreadystatechange cfg batch readyState statusCode statusText s) = s
  /\ thrown (bypass_onreadystatechange cfg batch readyState statusCode statusText s) = None.
Proof.
  unfold bypass_onreadystatechange.
  destruct (readyState =? 4); [|split; reflexivity].
  destruct (isSuccessfulRequest statusCode); split; reflexivity.
Qed.

Lemma bypass_onreadystatechange_willRetry
    (cfg : Config) (batch : list BatchItem) (readyState statusCode : Z)
    (statusText : jsstring) (s : State) (f : RequestFailure) :
  In (OnRequestFailure f)
     (effects (bypass_onreadystatechange cfg batch readyState statusCode statusText s)) ->
  f = mkFailure statusCode statusText batch false.
Proof.
  unfold bypass_onreadystatechange, callOnRequestSuccess, callOnRequestFailure.
  destruct (readyState =? 4); [|intros []].
  destruct (isSuccessfulRequest statusCode); cbn [effects emit].
  - destruct (hasOnRequestSuccess cfg); [|intros []].
    intros [Hf|[]]. discriminate.
  - destruct (hasOnRequestFailure cfg); [|intros []].
    intros [Hf|[]]. now inversion Hf.
Qed.

(** C10.  The callback of a standalone request never changes the manager:
    the state it returns is the state it was given, so the queue and the
    stored copy stay as they are and nothing is re-queued.  Any failure it
    reports carries [willRetry = false], and on a completed request with a
    status outside 2xx the report is exactly that status and status text,
    whatever the retry flag and the two status lists say.  The same holds
    when the browser delivers the response as a task of the event loop, and
    the send itself touches neither the queue nor the stored copy. *)
Theorem bypass_never_retries_nor_touches_queue
    (h : Host) (cfg : Config) (b : Browser) (batch : list BatchItem)
    (readyState statusCode : Z) (statusText : jsstring)
    (body : PostEvent) (url : jsstring) (i : nat) (s : State) :
  let o := bypass_onreadystatechange cfg batch readyState statusCode statusText s in
  let sent := sendPostRequestWithoutQueueing h cfg b body url s in
  let delivered := handle h cfg b (ReadyStateChange i readyState statusCode statusText) s in
  state o = s
  /\ thrown o = None
  /\ (forall f, In (OnRequestFailure f) (effects o) -> willRetry f = false)
  /\ (readyState = 4 -> isSuccessfulRequest statusCode = false ->
      effects o = callOnRequestFailure cfg (mkFailure statusCode statusText batch false))
  /\ (nth_error (pending s) i = Some (BypassXhr batch) ->
      outQueue (state delivered) = outQueue s
      /\ stored (state delivered) = stored s
      /\ executingQueue (state delivered) = executingQueue s
      /\ (forall f, In (OnRequestFailure f) (effects delivered) -> willRetry f = false))
  /\ outQueue (state sent) = outQueue s
  /\ stored (state sent) = stored s
  /\ executingQueue (state sent) = executingQueue s.
Proof.
  cbv zeta.
  split; [apply bypass_onreadystatechange_state|].
  split; [apply bypass_onreadystatechange_state|].
  split.
  { intros f Hin. apply bypass_onreadystatechange_willRetry in Hin. now subst f. }
  split.
  { intros Hready Hstatus. subst readyState.
    unfold bypass_onreadystatechange. cbn [Z.eqb Pos.eqb]. now rewrite Hstatus. }
  split; [|repeat split].
  intros Hnth. cbn [handle]. rewrite Hnth.
  rewrite (proj1 (bypass_onreadystatechange_state cfg batch readyState statusCode
                    statusText _)).
  split; [now destruct (readyState =? 4)|].
  split; [now destruct (readyState =? 4)|].
  split; [now destruct (readyState =? 4)|].
  intros f Hin. apply bypass_onreadystatechange_willRetry in Hin. now subst f.
Qed.

(** ** Timeouts *)

Lemma removeEventsFromQueue_outQueue
    (h : Host) (cfg : Config) (b : Browser) (n : nat) (s : State) :
  outQueue (removeEventsFromQueue h cfg b n s) = skipn n (outQueue s).
Proof.
  unfold removeEventsFromQueue, writeQueue, attemptWriteLocalStorage. simpl.
  destruct (useLocalStorage s); [|reflexivity].
  match goal with |- context [if ?c then _ else _] => destruct c end; reflexivity.
Qed.

(** The task of the timer, written out: the abort, then what the response
    callback does with status 0 (the classifier's verdict decides whether
    the batch is removed and an error logged, and is reported), then what
    the body of the timer does (the retry flag decides whether the batch is
    removed, and is reported with the message "timeout"). *)
Lemma xhrTimeout_runs_both_handlers
    (h : Host) (cfg : Config) (b : Browser) (numberToSend : nat)
    (batch : list BatchItem) (s : State) :
  let verdict :=
    shouldRetryForStatusCode (retryFailedRequests cfg) (retryStatusCodes cfg)
                             (dontRetryStatusCodes cfg) 0 in
  let o := xhrTimeout h cfg b numberToSend batch s in
  effects o
  = XhrAbort :: ClearTimeout
      :: (if verdict then []
          else [LogError (str "Status " ++ Number_toString h 0
                                        ++ str ", will not retry.")])
      ++ callOnRequestFailure cfg (mkFailure 0 [] batch verdict)
      ++ callOnRequestFailure cfg
           (mkFailure 0 (str "timeout") batch (retryFailedRequests cfg))
  /\ thrown o = None
  /\ executingQueue (state o) = false
  /\ outQueue (state o)
     = skipn ((if verdict then 0 else numberToSend)
              + (if retryFailedRequests cfg then 0 else numberToSend))%nat
             (outQueue s).
Proof.
  cbv zeta. unfold xhrTimeout, xhr_onreadystatechange. cbv zeta.
  change (4 =? 4) with true. change (isSuccessfulRequest 0) with false. cbv iota.
  destruct (shouldRetryForStatusCode _ _ _ 0) eqn:Hverdict; cbn [negb];
    destruct (retryFailedRequests cfg) eqn:Hretry; cbn [negb emit state effects app];
    try (exfalso; revert Hverdict; unfold shouldRetryForStatusCode; cbn; discriminate);
    repeat split;
    repeat (progress (rewrite ?removeEventsFromQueue_outQueue;
                      cbn [outQueue set_executingQueue]));
    rewrite ?skipn_skipn, ?Nat.add_0_r;
    reflexivity.
Qed.

(** C4.  The claim fails on the code, and the code is at fault.  With
    retries on and status 0 on the don't-retry list, the classifier's
    verdict for status 0 is "do not retry".  One enqueue sends the record;
    then the timer fires.  The abort
    runs the response callback, which reports status 0 with an empty message
    and [willRetry = false], logs the error and removes the batch; the body
    of the timer then reports status 0 and "timeout" with
    [willRetry = true], the retry flag, for a batch that is no longer
    queued.  The callback that carries "timeout" does not carry the
    classifier's verdict, and the failure is reported twice. *)
Theorem timeout_reports_twice :
  let r := run sampleHost sampleConfig_dontRetry0 scenarioTimeout sampleState_dontRetry0 in
  let batch :=
    [BEvent (setProp (str "stm") (stm_now sampleHost sampleBrowser)
                     (evt (getBody sampleHost (samplePayload 1))))] in
  shouldRetryForStatusCode (retryFailedRequests sampleConfig_dontRetry0)
                           (retryStatusCodes sampleConfig_dontRetry0)
                           (dontRetryStatusCodes sampleConfig_dontRetry0) 0 = false
  /\ filter (fun e => match e with OnRequestFailure _ => true | _ => false end) (snd r)
     = [OnRequestFailure (mkFailure 0 [] batch false);
        OnRequestFailure (mkFailure 0 (str "timeout") batch true)]
  /\ existsb (fun e => match e with LogError _ => true | _ => false end) (snd r) = true
  /\ attempts (snd r) = [PostAttempt (map (fun x => match x with BEvent e => e | _ => [] end)
                                          batch)]
  /\ outQueue (fst r) = []
  /\ executingQueue (fst r) = false.
Proof. cbv zeta. repeat split; vm_compute; reflexivity. Qed.

(** ** Construction-time load *)

(** C9.  With persistence enabled, a stored text that does not parse, or
    parses to something that is not an array, leaves the queue empty; a text
    that parses to an array makes the queue exactly that array.  The
    constructor is a total function without effects: nothing is thrown or
    reported.  (The host's [JSON.parse] rejects the empty text.) *)
Theorem OutQueueManager_loads_or_resets
    (h : Host) (w : Window) (a : Args) (text : jsstring) :
  JSON_parse h [] = None ->
  arg_useLocalStorage a = true ->
  getItem w (queueName (fst (OutQueueManager h w a))) = Some (Some text) ->
  let s := snd (OutQueueManager h w a) in
  (JSON_parse h text = None -> outQueue s = [])
  /\ (JSON_parse h text = Some None -> outQueue s = [])
  /\ (forall q, JSON_parse h text = Some (Some q) -> outQueue s = q)
  /\ executingQueue s = false
  /\ pending s = [].
Proof.
  intros Hempty Hls Hget. cbv zeta.
  unfold OutQueueManager in *. cbv zeta in *. simpl in *.
  unfold loadQueue. rewrite Hls. rewrite Hget.
  destruct text as [|c text]; simpl.
  - rewrite Hempty. repeat split; try reflexivity; congruence.
  - repeat split; try reflexivity.
    + intros Hp. now rewrite Hp.
    + intros Hp. now rewrite Hp.
    + intros q Hp. now rewrite Hp.
Qed.

Lemma OutQueueManager_loads_or_resets_witness :
  let s := snd (OutQueueManager sampleHost sampleWindow_storedNull sampleArgs) in
  (JSON_parse sampleHost (str "[null]") = None -> outQueue s = [])
  /\ (JSON_parse sampleHost (str "[null]") = Some None -> outQueue s = [])
  /\ (forall q, JSON_parse sampleHost (str "[null]") = Some (Some q) -> outQueue s = q)
  /\ executingQueue s = false
  /\ pending s = [].
Proof.
  apply (OutQueueManager_loads_or_resets sampleHost sampleWindow_storedNull sampleArgs
           (str "[null]")); reflexivity.
Defined.

(** Scenario C: the stored text is malformed, the queue starts empty. *)
Lemma OutQueueManager_malformed_storage :
  JSON_parse sampleHost (str "[{") = None
  /\ outQueue (snd (OutQueueManager sampleHost sampleWindow_storedGarbage sampleArgs)) = [].
Proof. split; reflexivity. Qed.

(** Without a stored value, or when reading it throws, the queue is empty. *)
Lemma OutQueueManager_no_stored_value (h : Host) (w : Window) (a : Args) :
  getItem w (queueName (fst (OutQueueManager h w a))) = None
  \/ getItem w (queueName (fst (OutQueueManager h w a))) = Some None ->
  outQueue (snd (OutQueueManager h w a)) = [].
Proof.
  unfold OutQueueManager. cbv zeta. simpl. unfold loadQueue.
  intros [Hget|Hget]; rewrite Hget; now destruct (arg_useLocalStorage a).
Qed.

(** ** The head of a drain *)

Lemma executeQueue_halt
    (h : Host) (cfg : Config) (b : Browser) (sync : bool) (s : State) (o : Outcome) :
  executeQueue_body h cfg b sync s = Halt o -> executeQueue h cfg b sync s = o.
Proof. intros Hbody. unfold executeQueue. simpl. now rewrite Hbody. Qed.

(** C5.  A drain whose queue, once the failsafe has dropped what it drops, is
    not empty and whose collector URL is unset throws "No collector
    configured": it sends nothing, and the queue keeps every entry the
    failsafe kept.  A drain whose queue is then empty returns normally with
    the executing flag off. *)
Theorem executeQueue_configuration_error
    (h : Host) (cfg : Config) (b : Browser) (sync : bool) (s : State) :
  (dropBadHead (outQueue s) <> [] -> configCollectorUrl s = None ->
     executeQueue h cfg b sync s
     = mkOutcome (set_outQueue (dropBadHead (outQueue s)) s) []
                 (Some NoCollectorConfigured))
  /\ (dropBadHead (outQueue s) = [] ->
     executeQueue h cfg b sync s = done (set_executingQueue false (set_outQueue [] s))
     /\ thrown (executeQueue h cfg b sync s) = None
     /\ executingQueue (state (executeQueue h cfg b sync s)) = false).
Proof.
  split.
  - intros Hq Hurl. apply executeQueue_halt.
    unfold executeQueue_body. cbv zeta. simpl.
    destruct (dropBadHead (outQueue s)) as [|x rest]; [contradiction|].
    rewrite Hurl. reflexivity.
  - intros Hq.
    assert (E : executeQueue h cfg b sync s
                = done (set_executingQueue false (set_outQueue [] s))).
    { apply executeQueue_halt. unfold executeQueue_body. cbv zeta. simpl.
      now rewrite Hq. }
    rewrite E. repeat split.
Qed.

Lemma executeQueue_configuration_error_witness :
  executeQueue sampleHost sampleConfig sampleBrowser false
    (set_outQueue [JsNumber 3; Post (mkPostEvent [] 7)] sampleState)
  = mkOutcome (set_outQueue [Post (mkPostEvent [] 7)] sampleState) []
              (Some NoCollectorConfigured).
Proof.
  apply (proj1 (executeQueue_configuration_error sampleHost sampleConfig sampleBrowser false
                  (set_outQueue [JsNumber 3; Post (mkPostEvent [] 7)] sampleState))).
  - discriminate.
  - reflexivity.
Defined.

(** What the failsafe does achieve: the entry it stops at is a string or has
    type ['object'], and it drops only entries that are neither. *)
Lemma dropBadHead_head (queue : list QueueItem) (x : QueueItem) (rest : list QueueItem) :
  dropBadHead queue = x :: rest -> typeof x = TString \/ typeof x = TObject.
Proof.
  induction queue as [|y queue IH]; simpl; [discriminate|].
  destruct (typeof y) eqn:Ty; simpl; intros Hq; try (now apply IH);
    inversion Hq; subst; auto.
Qed.

Lemma dropBadHead_suffix (queue : list QueueItem) :
  exists d, dropBadHead queue = skipn d queue
            /\ (d <= length queue)%nat
            /\ Forall (fun x => typeof x = TNumber \/ typeof x = TBoolean) (firstn d queue).
Proof.
  induction queue as [|y queue IH].
  - exists 0%nat. simpl. repeat split; auto.
  - simpl. destruct IH as (d & Hd & Hlen & Hall).
    destruct (typeof y) eqn:Ty; simpl;
      try (exists 0%nat; simpl; repeat split; auto; lia);
      exists (S d); simpl; (split; [exact Hd|]); (split; [lia|]);
      constructor; auto.
Qed.

(** C6 at its failing input.  The stored queue is the text [[null]]: the
    constructor loads one entry, [null].  The failsafe keeps it, since
    [typeof null] is ['object'], and the drain goes on with it as the first
    record: [postable] evaluates ['evt' in null], which throws, leaving the
    executing flag on and [null] at the head of the queue. *)
Theorem executeQueue_keeps_null_head :
  let s := setCollectorUrl sampleConfig (str "https://collector.example")
             sampleState_storedNull in
  let o := executeQueue sampleHost sampleConfig sampleBrowser false s in
  outQueue s = [JsNull]
  /\ dropBadHead (outQueue s) = [JsNull]
  /\ outQueue (state o) = [JsNull]
  /\ thrown o = Some TypeError
  /\ executingQueue (state o) = true
  /\ effects o = [].
Proof. repeat split. Qed.
(** ** Stamping and aliasing *)

Lemma eraseStmEvt_setProp (v : jsstring) (e : Evt) :
  eraseStmEvt (setProp (str "stm") v e) = eraseStmEvt e.
Proof.
  induction e as [|[k x] e IH]; [reflexivity|].
  unfold eraseStmEvt in *. cbn [setProp].
  destruct (jsstring_eqb k (str "stm")) eqn:Hk; cbn [filter fst]; rewrite Hk; cbn [negb].
  - reflexivity.
  - now rewrite IH.
Qed.

Lemma eraseStm_stampPost (stm : jsstring) (p : PostEvent) :
  eraseStm (Post (stampPost stm p)) = eraseStm (Post p).
Proof. unfold eraseStm, stampPost. simpl. now rewrite eraseStmEvt_setProp. Qed.

Lemma records_stampPost (stm : jsstring) (posts : list PostEvent) :
  records (map Post (map (stampPost stm) posts)) = records (map Post posts).
Proof.
  unfold records. rewrite !map_map. apply map_ext. intros p. apply eraseStm_stampPost.
Qed.

Lemma map_evt_posts (posts : list PostEvent) :
  map_evt (map Post posts) = Returned (map (fun p => Some (evt p)) posts).
Proof.
  induction posts as [|p posts IH]; [reflexivity|].
  simpl. now rewrite IH.
Qed.

Lemma attachStmToEvent_posts (stm : jsstring) (posts : list PostEvent) :
  attachStmToEvent stm (map (fun p => Some (evt p)) posts)
  = (map (fun p => Some (evt (stampPost stm p))) posts, false).
Proof.
  induction posts as [|p posts IH]; [reflexivity|].
  cbn [map attachStmToEvent]. rewrite IH. reflexivity.
Qed.

Lemma aliased_posts (stm : jsstring) (posts : list PostEvent) (rest : list QueueItem) :
  aliased (map (fun p => Some (evt (stampPost stm p))) posts) (map Post posts ++ rest)
  = map Post (map (stampPost stm) posts) ++ rest.
Proof.
  induction posts as [|p posts IH].
  - simpl. now destruct rest.
  - cbn [map app aliased]. rewrite IH. reflexivity.
Qed.

Lemma present_posts (stm : jsstring) (posts : list PostEvent) :
  present (map (fun p => Some (evt (stampPost stm p))) posts)
  = map (fun p => evt (stampPost stm p)) posts.
Proof.
  induction posts as [|p posts IH]; [reflexivity|].
  cbn [map present]. now rewrite IH.
Qed.

(** A batch that [attachStmToEvent] gets through holds post-records only. *)
Lemma attach_through_posts (stm : jsstring) (batch : list QueueItem) :
  forall evs, map_evt batch = Returned evs ->
  snd (attachStmToEvent stm evs) = false ->
  exists posts, batch = map Post posts.
Proof.
  induction batch as [|x batch IH]; intros evs Hmap Hthrough.
  - now exists [].
  - simpl in Hmap.
    destruct (read_evt x) as [v|] eqn:Hx; [|discriminate].
    destruct (map_evt batch) as [vs|] eqn:Hb; [|discriminate].
    inversion Hmap; subst evs; clear Hmap.
    destruct x as [p| | | |]; simpl in Hx; inversion Hx; subst v; simpl in Hthrough;
      try discriminate.
    destruct (IH vs eq_refl Hthrough) as (posts & Hposts).
    exists (p :: posts). simpl. now rewrite Hposts.
Qed.

(** Writing the stamp never changes which records the queue holds. *)
Lemma aliased_unstamped (batch rest : list QueueItem) :
  forall evs, map_evt batch = Returned evs -> aliased evs (batch ++ rest) = batch ++ rest.
Proof.
  induction batch as [|x batch IH]; intros evs Hmap.
  - simpl in Hmap. inversion Hmap. simpl. now destruct rest.
  - simpl in Hmap.
    destruct (read_evt x) as [v|] eqn:Hx; [|discriminate].
    destruct (map_evt batch) as [vs|] eqn:Hb; [|discriminate].
    inversion Hmap; subst evs; clear Hmap.
    destruct x as [p| | | |]; simpl in Hx; inversion Hx; subst v; simpl;
      rewrite (IH vs eq_refl); try reflexivity.
    now destruct p.
Qed.

Lemma records_aliased_attach (stm : jsstring) (batch rest : list QueueItem) :
  forall evs, map_evt batch = Returned evs ->
  records (aliased (fst (attachStmToEvent stm evs)) (batch ++ rest))
  = records (batch ++ rest).
Proof.
  induction batch as [|x batch IH]; intros evs Hmap.
  - simpl in Hmap. inversion Hmap. simpl. now destruct rest.
  - simpl in Hmap.
    destruct (read_evt x) as [v|] eqn:Hx; [|discriminate].
    destruct (map_evt batch) as [vs|] eqn:Hb; [|discriminate].
    inversion Hmap; subst evs; clear Hmap.
    destruct x as [p| | | |]; simpl in Hx; inversion Hx; subst v.
    + simpl. unfold records in *. simpl. rewrite (IH vs eq_refl).
      now rewrite eraseStmEvt_setProp.
    + simpl. now rewrite (aliased_unstamped batch rest vs Hb).
    + simpl. now rewrite (aliased_unstamped batch rest vs Hb).
    + simpl. now rewrite (aliased_unstamped batch rest vs Hb).
Qed.
(** ** Logs of attempts *)

Lemma records_app (q1 q2 : list QueueItem) : records (q1 ++ q2) = records q1 ++ records q2.
Proof. apply map_app. Qed.

Lemma records_skipn (n : nat) (q : list QueueItem) : records (skipn n q) = skipn n (records q).
Proof. unfold records. now rewrite skipn_map. Qed.

Lemma records_firstn (n : nat) (q : list QueueItem) : records (firstn n q) = firstn n (records q).
Proof. unfold records. now rewrite firstn_map. Qed.

Lemma records_length (q : list QueueItem) : length (records q) = length q.
Proof. apply length_map. Qed.

Lemma attempts_app (e1 e2 : list Effect) : attempts (e1 ++ e2) = attempts e1 ++ attempts e2.
Proof. apply flat_map_app. Qed.

Lemma segment_skipn {A : Type} (m off n : nat) (l : list A) :
  segment off n (skipn m l) = segment (m + off) n l.
Proof. unfold segment. rewrite skipn_skipn. f_equal. f_equal. lia. Qed.


Section Logs.

Variable h : Host.
Variable cfg : Config.

Lemma fifo_log_bounds (H : list QueueItem) (hi lo : nat) log atts :
  fifo_log h cfg H hi lo log atts -> (lo <= hi)%nat.
Proof. induction 1; lia. Qed.

Lemma fifo_log_lower (H : list QueueItem) (hi lo lo' : nat) log atts :
  fifo_log h cfg H hi lo log atts -> (lo' <= lo)%nat -> fifo_log h cfg H hi lo' log atts.
Proof.
  intros Hlog Hle. destruct Hlog.
  - constructor. lia.
  - econstructor; eauto. lia.
Qed.

Lemma fifo_log_raise (H : list QueueItem) (hi hi' lo : nat) log atts :
  fifo_log h cfg H hi lo log atts -> (hi <= hi')%nat -> fifo_log h cfg H hi' lo log atts.
Proof.
  induction 1; intros Hle.
  - constructor. lia.
  - econstructor; eauto.
Qed.

Lemma fifo_log_app (H : list QueueItem) (hi mid lo : nat) log1 atts1 log2 atts2 :
  fifo_log h cfg H mid lo log1 atts1 ->
  fifo_log h cfg H hi mid log2 atts2 ->
  fifo_log h cfg H hi lo (log1 ++ log2) (atts1 ++ atts2).
Proof.
  induction 1; intros Hrest; simpl.
  - eapply fifo_log_lower; eauto.
  - econstructor; eauto.
Qed.

(** A log over what is left of [H] behind [m] entries is a log over [H]. *)
Lemma fifo_log_shift (H : list QueueItem) (m hi lo : nat) log atts :
  (m <= length H)%nat ->
  fifo_log h cfg (skipn m H) hi lo log atts ->
  fifo_log h cfg H (m + hi) (m + lo)
           (map (fun on => ((m + fst on)%nat, snd on)) log) atts.
Proof.
  intros Hm. induction 1; simpl.
  - constructor. lia.
  - econstructor; eauto.
    + lia.
    + rewrite length_skipn in *. lia.
    + now rewrite <- segment_skipn.
Qed.





Lemma fifo_log_length (H : list QueueItem) (hi lo : nat) log atts :
  fifo_log h cfg H hi lo log atts -> length log = length atts.
Proof. induction 1; simpl; congruence. Qed.

End Logs.
(** ** One activation of the drain *)

Lemma chooseHowManyToSend_loop_bound (maxBytes : Z) (rest : list QueueItem) :
  forall n acc m,
    chooseHowManyToSend_loop maxBytes rest n acc = Returned m ->
    (n <= m <= n + length rest)%nat.
Proof.
  induction rest as [|x rest IH]; intros n acc m Hm; simpl in Hm.
  - inversion Hm. simpl. lia.
  - destruct (read_bytes x) as [v|]; [|discriminate].
    destruct (number_geb (number_add acc v) maxBytes).
    + inversion Hm. simpl. lia.
    + apply IH in Hm. simpl. lia.
Qed.

Lemma chooseHowManyToSend_bound (maxBytes : Z) (queue : list QueueItem) (n : nat) :
  chooseHowManyToSend maxBytes queue = Returned n -> (n <= length queue)%nat.
Proof.
  intros Hn. apply chooseHowManyToSend_loop_bound in Hn. lia.
Qed.

Lemma postable_false_head (x : QueueItem) (rest : list QueueItem) :
  typeof x = TString \/ typeof x = TObject ->
  postable (x :: rest) = Returned false ->
  exists q, x = QueryString q.
Proof.
  intros Hty Hp. destruct x; simpl in *; try discriminate;
    try (destruct Hty; discriminate).
  now exists s.
Qed.

Section Activation.

Variable h : Host.
Variable cfg : Config.

Lemma carries_posts (stm : jsstring) (posts : list PostEvent) :
  carries h cfg (PostAttempt (map (fun p => evt (stampPost stm p)) posts))
          (records (map Post posts)).
Proof.
  simpl. exists (map (fun p => mkPostEvent (eraseStmEvt (evt p)) (bytes p)) posts).
  split.
  - unfold records. rewrite !map_map. reflexivity.
  - rewrite !map_map. apply map_ext. intros p. simpl.
    now rewrite eraseStmEvt_setProp.
Qed.

(** The last steps of a POST attempt leave the same records in the queue and
    make at most one attempt, on the batch. *)
Lemma sendBatch_attempts (b : Browser) (xhr : XhrRequest) (n : nat)
    (evs : list (option Evt)) (s : State) (batch rest : list QueueItem) :
  outQueue s = batch ++ rest ->
  map_evt batch = Returned evs ->
  let o := sendBatch h cfg b xhr n evs s in
  records (outQueue (state o)) = records (outQueue s)
  /\ (attempts (effects o) = []
      \/ exists a, attempts (effects o) = [a] /\ carries h cfg a (records batch)).
Proof.
  intros Hq Hmap. cbv zeta. unfold sendBatch. cbv zeta.
  destruct (snd (attachStmToEvent (stm_now h b) evs)) eqn:Hthrew.
  - simpl. rewrite Hq. split; [|now left].
    now apply records_aliased_attach.
  - simpl. rewrite Hq. split; [now apply records_aliased_attach|].
    right.
    destruct (attach_through_posts (stm_now h b) batch evs Hmap Hthrew) as (posts & Hposts).
    subst batch. rewrite map_evt_posts in Hmap. inversion Hmap; subst evs.
    rewrite attachStmToEvent_posts. cbn [fst]. rewrite present_posts.
    eexists. split; [reflexivity|]. apply carries_posts.
Qed.

End Activation.
Section Drain.

Variable h : Host.
Variable cfg : Config.

Lemma fifo_log_one (queue : list QueueItem) (d n : nat) (a : Attempt) :
  (1 <= n)%nat -> (d + n <= length queue)%nat ->
  carries h cfg a (segment d n (records queue)) ->
  fifo_log h cfg (records queue) d d [(d, n)] [a].
Proof.
  intros Hn Hlen Hcarry. econstructor; eauto.
  - now rewrite records_length.
  - constructor. lia.
Qed.

Lemma fifo_log_two (queue : list QueueItem) (d n : nat) (a a' : Attempt) :
  (1 <= n)%nat -> (d + n <= length queue)%nat ->
  carries h cfg a (segment d n (records queue)) ->
  carries h cfg a' (segment d n (records queue)) ->
  fifo_log h cfg (records queue) d d [(d, n); (d, n)] [a; a'].
Proof.
  intros Hn Hlen Hcarry Hcarry'. econstructor; eauto.
  - now rewrite records_length.
  - now apply fifo_log_one.
Qed.

Lemma executeQueue_body_drains (b : Browser) (sync : bool) (s : State) :
  exists d, (d <= length (outQueue s))%nat /\
    match executeQueue_body h cfg b sync s with
    | Halt o =>
        exists log,
          fifo_log h cfg (records (outQueue s)) d d log (attempts (effects o))
          /\ records (outQueue (state o)) = skipn d (records (outQueue s))
    | Recurse effs s' =>
        exists log n,
          (1 <= n)%nat /\ (d + n <= length (outQueue s))%nat
          /\ fifo_log h cfg (records (outQueue s)) d d log (attempts effs)
          /\ records (outQueue s') = skipn (d + n) (records (outQueue s))
    end.
Proof.
  destruct (dropBadHead_suffix (outQueue s)) as (d & Hd & Hlen & _).
  exists d. split; [exact Hlen|].
  unfold executeQueue_body. cbv zeta.
  pose proof (dropBadHead_head (outQueue s)) as Hhead.
  remember (dropBadHead (outQueue s)) as q eqn:Hq.
  assert (Hrec : records q = skipn d (records (outQueue s)))
    by (rewrite Hd; apply records_skipn).
  cbn [outQueue set_outQueue set_executingQueue configCollectorUrl idServiceCalled
       anonymousTracking].
  assert (Hquiet : forall s' : State, outQueue s' = q ->
            exists log,
              fifo_log h cfg (records (outQueue s)) d d log (attempts [])
              /\ records (outQueue s') = skipn d (records (outQueue s))).
  { intros s' Hs'. exists []. split; [constructor; lia | now rewrite Hs']. }
  destruct q as [|head tl] eqn:Hqueue.
  { apply Hquiet. reflexivity. }
  rewrite <- Hqueue in *.
  assert (Hpos : (d + 1 <= length (outQueue s))%nat).
  { assert (Hl : length q = (length (outQueue s) - d)%nat)
      by (rewrite Hd; apply length_skipn).
    rewrite Hqueue in Hl. simpl in Hl. lia. }
  destruct (negb (isString (configCollectorUrl s))).
  { apply Hquiet. reflexivity. }
  destruct (if idServiceCalled s then None else idService_truthy cfg) as [idUrl|].
  { destruct sync; apply Hquiet; reflexivity. }
  destruct (useXhr cfg).
  - destruct (postable q) as [[|]|] eqn:Hpostable.
    + (* a POST *)
      destruct (chooseHowManyToSend (maxPostBytes cfg) q) as [n|] eqn:Hn;
        [|apply Hquiet; reflexivity].
      pose proof (chooseHowManyToSend_bound _ _ _ Hn) as Hnle.
      pose proof (firstn_skipn n q) as Hsplit.
      destruct (firstn n q) as [|x batch] eqn:Hbatch; [apply Hquiet; reflexivity|].
      assert (Hn1 : (1 <= n)%nat) by (destruct n; [discriminate | lia]).
      assert (Hdn : (d + n <= length (outQueue s))%nat).
      { assert (Hl : length q = (length (outQueue s) - d)%nat)
          by (rewrite Hd; apply length_skipn). lia. }
      assert (Hseg : records (x :: batch) = segment d n (records (outQueue s))).
      { unfold segment. rewrite <- Hrec, <- Hbatch. apply records_firstn. }
      destruct (map_evt (x :: batch)) as [evs|] eqn:Hmap; [|apply Hquiet; reflexivity].
      destruct (useBeacon cfg).
      * destruct (snd (attachStmToEvent (stm_now h b) evs)) eqn:Hthrew.
        -- exists []. split; [constructor; lia|]. cbn.
           rewrite <- Hsplit, records_aliased_attach by assumption.
           now rewrite Hsplit.
        -- destruct (attach_through_posts _ _ _ Hmap Hthrew) as (posts & Hposts).
           rewrite Hposts in *. rewrite map_evt_posts in Hmap.
           inversion Hmap; subst evs; clear Hmap.
           rewrite attachStmToEvent_posts in *. cbn [fst snd] in *.
           rewrite present_posts.
           assert (Hcarry : carries h cfg
                     (PostAttempt (map (fun p => evt (stampPost (stm_now h b) p)) posts))
                     (segment d n (records (outQueue s)))).
           { rewrite <- Hseg. apply carries_posts. }
           destruct (sendBeacon b _ _).
           ++ exists [(d, n)], n. repeat split; try assumption.
              ** cbn [attempts flat_map attempt_of app encloseInPayloadDataEnvelope data].
                 replace (attempts _) with (@nil Attempt).
                 2:{ unfold callOnRequestSuccess. now destruct (hasOnRequestSuccess cfg). }
                 now apply fifo_log_one.
              ** rewrite removeEventsFromQueue_outQueue. cbn [outQueue set_outQueue].
                 rewrite records_skipn.
                 rewrite <- Hsplit at 1. rewrite aliased_posts.
                 rewrite records_app, records_stampPost, <- records_app, Hsplit.
                 rewrite Hrec, skipn_skipn. f_equal. lia.
           ++ unfold andThen. cbn [thrown emit effects state].
              set (s2 := set_outQueue
                           (aliased (map (fun p => Some (evt (stampPost (stm_now h b) p))) posts) q)
                           (set_executingQueue true (set_outQueue q s))).
              assert (Hs2 : outQueue s2 = map Post (map (stampPost (stm_now h b)) posts)
                                          ++ skipn n q).
              { subst s2. cbn [outQueue set_outQueue].
                rewrite <- Hsplit at 1. apply aliased_posts. }
              destruct (sendBatch_attempts h cfg b
                          (initializeXMLHttpRequest cfg
                             (set_executingQueue true (set_outQueue q s))
                             (collectorUrl_text (set_executingQueue true (set_outQueue q s)))
                             true sync)
                          n _ s2 _ _ Hs2 (map_evt_posts _)) as (Hrecs & Hatt).
              rewrite !map_map in Hatt, Hrecs.
              cbn [effects state].
              assert (Hfinal : records (outQueue s2) = skipn d (records (outQueue s))).
              { rewrite Hs2, records_app, records_stampPost, <- records_app, Hsplit.
                exact Hrec. }
              rewrite records_stampPost, Hseg in Hatt.
              rewrite attempts_app.
              cbn [attempts flat_map attempt_of app encloseInPayloadDataEnvelope data].
              destruct Hatt as [Hnone|(a & Hone & Hcarry2)].
              ** exists [(d, n)]. split.
                 --- rewrite Hnone.
                     now apply fifo_log_one.
                 --- rewrite Hrecs. exact Hfinal.
              ** exists [(d, n); (d, n)]. split.
                 --- rewrite Hone.
                     now apply fifo_log_two.
                 --- rewrite Hrecs. exact Hfinal.
      * set (s2 := set_executingQueue true (set_outQueue q s)).
        assert (Hs2 : outQueue s2 = (x :: batch) ++ skipn n q)
          by (subst s2; cbn [outQueue set_outQueue set_executingQueue]; now rewrite Hsplit).
        destruct (sendBatch_attempts h cfg b
                    (initializeXMLHttpRequest cfg s2 (collectorUrl_text s2) true sync)
                    n evs s2 _ _ Hs2 Hmap) as (Hrecs & Hatt).
        rewrite Hseg in Hatt.
        assert (Hfinal : records (outQueue s2) = skipn d (records (outQueue s)))
          by (subst s2; exact Hrec).
        destruct Hatt as [Hnone|(a & Hone & Hcarry2)].
        -- exists []. split; [rewrite Hnone; constructor; lia|].
           now rewrite Hrecs.
        -- exists [(d, n)]. split; [|now rewrite Hrecs].
           rewrite Hone. now apply fifo_log_one.
    + (* a GET over XHR *)
      destruct (postable_false_head head tl (Hhead head tl Hqueue)) as (qs & Hqs).
      { now rewrite <- Hqueue. }
      subst head. cbn [createGetUrl_head].
      exists [(d, 1%nat)]. split.
      * cbn. apply fifo_log_one; try lia.
        unfold segment. rewrite <- Hrec, Hqueue. cbn.
        exists qs, b, (set_executingQueue true (set_outQueue q s)). now rewrite Hqueue.
      * cbn. exact Hrec.
    + apply Hquiet. reflexivity.
  - destruct (negb (anonymousTracking s)); [|apply Hquiet; reflexivity].
    destruct (postable q) as [[|]|] eqn:Hpostable; try (apply Hquiet; reflexivity).
    destruct (postable_false_head head tl (Hhead head tl Hqueue)) as (qs & Hqs).
    { now rewrite <- Hqueue. }
    subst head. cbn [createGetUrl_head].
    exists [(d, 1%nat)]. split.
    + cbn. apply fifo_log_one; try lia.
      unfold segment. rewrite <- Hrec, Hqueue. cbn.
      exists qs, b, (set_executingQueue true (set_outQueue q s)). now rewrite Hqueue.
    + cbn. exact Hrec.
Qed.

(** ** The drain as a whole *)

Lemma executeQueue_body_recurse_shorter
    (b : Browser) (sync : bool) (s s' : State) (effs : list Effect) :
  executeQueue_body h cfg b sync s = Recurse effs s' ->
  (length (outQueue s') < length (outQueue s))%nat.
Proof.
  intros Hbody.
  destruct (executeQueue_body_drains b sync s) as (d & Hd & Hspec).
  rewrite Hbody in Hspec. destruct Hspec as (log & n & Hn & Hdn & _ & Hrec).
  apply (f_equal (@length QueueItem)) in Hrec.
  rewrite length_skipn, !records_length in Hrec. lia.
Qed.

(** Fuel beyond the length of the queue is never used up. *)
Lemma executeQueue_fuel_total (fuel : nat) :
  forall (b : Browser) (sync : bool) (s : State),
    (length (outQueue s) < fuel)%nat ->
    exists o, executeQueue_fuel h cfg fuel b sync s = Some o.
Proof.
  induction fuel as [|fuel IH]; intros b sync s Hlen; [lia|].
  simpl. destruct (executeQueue_body h cfg b sync s) as [o|effs s'] eqn:Hbody.
  - now exists o.
  - apply executeQueue_body_recurse_shorter in Hbody.
    destruct (IH b false s' ltac:(lia)) as (o & Ho). rewrite Ho. eauto.
Qed.

Lemma executeQueue_fuel_stable (fuel : nat) :
  forall (fuel' : nat) (b : Browser) (sync : bool) (s : State) (o : Outcome),
    executeQueue_fuel h cfg fuel b sync s = Some o ->
    (fuel <= fuel')%nat ->
    executeQueue_fuel h cfg fuel' b sync s = Some o.
Proof.
  induction fuel as [|fuel IH]; intros fuel' b sync s o Ho Hle; [discriminate|].
  destruct fuel' as [|fuel']; [lia|].
  simpl in *. destruct (executeQueue_body h cfg b sync s) as [o'|effs s']; [assumption|].
  destruct (executeQueue_fuel h cfg fuel b false s') as [o'|] eqn:Hrec; [|discriminate].
  rewrite (IH fuel' b false s' o' Hrec ltac:(lia)). assumption.
Qed.

Lemma executeQueue_fuel_enough
    (fuel : nat) (b : Browser) (sync : bool) (s : State) :
  (length (outQueue s) < fuel)%nat ->
  executeQueue_fuel h cfg fuel b sync s = Some (executeQueue h cfg b sync s).
Proof.
  intros Hlen. unfold executeQueue.
  destruct (executeQueue_fuel_total (S (length (outQueue s))) b sync s ltac:(lia))
    as (o & Ho).
  rewrite Ho. eapply executeQueue_fuel_stable; [exact Ho | lia].
Qed.

(** [executeQueue] is its body, followed by [executeQueue()] where the body
    calls itself. *)
Lemma executeQueue_unfold (b : Browser) (sync : bool) (s : State) :
  executeQueue h cfg b sync s
  = match executeQueue_body h cfg b sync s with
    | Halt o => o
    | Recurse effs s' =>
        let o := executeQueue h cfg b false s' in
        mkOutcome (state o) (effs ++ effects o) (thrown o)
    end.
Proof.
  destruct (executeQueue_body h cfg b sync s) as [o|effs s'] eqn:Hbody.
  - now apply executeQueue_halt.
  - pose proof (executeQueue_fuel_enough (S (length (outQueue s))) b sync s ltac:(lia))
      as Hfuel.
    simpl in Hfuel. rewrite Hbody in Hfuel.
    pose proof (executeQueue_body_recurse_shorter _ _ _ _ _ Hbody) as Hshort.
    rewrite (executeQueue_fuel_enough (length (outQueue s)) b false s' Hshort) in Hfuel.
    now inversion Hfuel.
Qed.

Lemma drains_shift (queue : list QueueItem) (m : nat) (o : Outcome)
    (effs : list Effect) (d hi : nat) log :
  (hi <= m)%nat -> (m <= length queue)%nat ->
  fifo_log h cfg (records queue) hi d log (attempts effs) ->
  drains h cfg (skipn m queue) o ->
  drains h cfg queue (mkOutcome (state o) (effs ++ effects o) (thrown o)).
Proof.
  intros Hdm Hm Hlog (log' & k & Hlog' & Hrec & Hk).
  rewrite records_skipn in Hlog', Hrec.
  apply fifo_log_shift in Hlog'; [|now rewrite records_length].
  rewrite length_skipn in Hk.
  exists (log ++ map (fun on => ((m + fst on)%nat, snd on)) log'), (m + k)%nat.
  cbn [effects state]. rewrite attempts_app. repeat split.
  - eapply fifo_log_app.
    + eapply fifo_log_lower; [|apply Nat.le_0_l].
      eapply fifo_log_raise; [exact Hlog|exact Hdm].
    + rewrite Nat.add_0_r in Hlog'. exact Hlog'.
  - rewrite Hrec, skipn_skipn. f_equal. lia.
  - lia.
Qed.

Lemma executeQueue_fuel_drains (fuel : nat) :
  forall (b : Browser) (sync : bool) (s : State) (o : Outcome),
    executeQueue_fuel h cfg fuel b sync s = Some o -> drains h cfg (outQueue s) o.
Proof.
  induction fuel as [|fuel IH]; intros b sync s o Ho; [discriminate|].
  simpl in Ho.
  destruct (executeQueue_body_drains b sync s) as (d & Hd & Hspec).
  destruct (executeQueue_body h cfg b sync s) as [o'|effs s'] eqn:Hbody.
  - inversion Ho; subst o'. destruct Hspec as (log & Hlog & Hrec).
    exists log, d. repeat split; auto.
    eapply fifo_log_lower; [exact Hlog | lia].
  - destruct (executeQueue_fuel h cfg fuel b false s') as [o'|] eqn:Hrec; [|discriminate].
    inversion Ho; subst o; clear Ho.
    destruct Hspec as (log & n & Hn & Hdn & Hlog & Hqueue).
    apply IH in Hrec. destruct Hrec as (log' & k & Hlog' & Hrec' & Hk).
    apply (drains_shift (outQueue s) (d + n) o' effs d d log); auto; try lia.
    exists log', k. rewrite records_skipn, <- Hqueue. repeat split; auto.
    apply (f_equal (@length QueueItem)) in Hqueue.
    rewrite length_skipn, !records_length in Hqueue.
    rewrite length_skipn. lia.
Qed.

(** Every drain sends front segments of the queue it finds, oldest first, and
    leaves what remains behind them. *)
Lemma executeQueue_drains (b : Browser) (sync : bool) (s : State) :
  drains h cfg (outQueue s) (executeQueue h cfg b sync s).
Proof.
  eapply executeQueue_fuel_drains.
  apply (executeQueue_fuel_enough (S (length (outQueue s)))). lia.
Qed.

End Drain.
(** ** Every task drains the queue in order *)

Section Tasks.

Variable h : Host.
Variable cfg : Config.

Lemma attempts_callOnRequestSuccess (batch : list BatchItem) :
  attempts (callOnRequestSuccess cfg batch) = [].
Proof. unfold callOnRequestSuccess. now destruct (hasOnRequestSuccess cfg). Qed.

Lemma attempts_callOnRequestFailure (f : RequestFailure) :
  attempts (callOnRequestFailure cfg f) = [].
Proof. unfold callOnRequestFailure. now destruct (hasOnRequestFailure cfg). Qed.

(** An outcome that attempts nothing and leaves the queue behind [m] entries. *)
Lemma drains_quiet (queue : list QueueItem) (m : nat) (o : Outcome) :
  attempts (effects o) = [] ->
  outQueue (state o) = skipn m queue ->
  drains h cfg queue o.
Proof.
  intros Hatt Hq.
  exists [], (Nat.min m (length queue)). rewrite Hatt, Hq, records_skipn. repeat split.
  - constructor. lia.
  - destruct (Nat.le_gt_cases m (length queue)) as [Hle|Hgt].
    + now rewrite Nat.min_l.
    + rewrite Nat.min_r by lia.
      rewrite !skipn_all2; auto; rewrite records_length; lia.
  - lia.
Qed.

(** Quiet steps first, then a drain of what is left behind [m] entries. *)
Lemma drains_after (queue : list QueueItem) (m : nat) (effs : list Effect)
    (s : State) (k : State -> Outcome) :
  attempts effs = [] ->
  outQueue s = skipn m queue ->
  drains h cfg (outQueue s) (k s) ->
  drains h cfg queue (emit effs s >>> k).
Proof.
  intros Hatt Hq Hdrain.
  unfold andThen, emit. cbn [thrown state effects].
  destruct (Nat.le_gt_cases m (length queue)) as [Hle|Hgt].
  - apply (drains_shift h cfg queue m (k s) effs 0%nat 0%nat []); auto; try lia.
    + rewrite Hatt. constructor. lia.
    + now rewrite <- Hq.
  - apply (drains_shift h cfg queue (length queue) (k s) effs 0%nat 0%nat []); auto; try lia.
    + rewrite Hatt. constructor. lia.
    + rewrite skipn_all2 in Hq by lia. rewrite skipn_all. now rewrite <- Hq.
Qed.

Lemma drains_executeQueue_after (queue : list QueueItem) (m : nat) (effs : list Effect)
    (b : Browser) (sync : bool) (s : State) :
  attempts effs = [] ->
  outQueue s = skipn m queue ->
  drains h cfg queue (emit effs s >>> executeQueue h cfg b sync).
Proof.
  intros Hatt Hq. eapply drains_after; eauto. apply executeQueue_drains.
Qed.

Lemma andThen_done (s : State) (k : State -> Outcome) :
  k s = emit [] s >>> k.
Proof. unfold andThen, emit. cbn. now destruct (k s). Qed.

Lemma drains_executeQueue_from (queue : list QueueItem) (m : nat)
    (b : Browser) (sync : bool) (s : State) :
  outQueue s = skipn m queue ->
  drains h cfg queue (executeQueue h cfg b sync s).
Proof.
  intros Hq. rewrite (andThen_done s (executeQueue h cfg b sync)).
  now apply (drains_executeQueue_after queue m).
Qed.

Lemma writeQueue_outQueue (b : Browser) (s : State) :
  outQueue (fst (writeQueue h cfg b s)) = outQueue s.
Proof.
  unfold writeQueue, attemptWriteLocalStorage.
  now destruct (storageWritable b _).
Qed.

Lemma afterPush_drains (b : Browser) (s : State) :
  drains h cfg (outQueue s) (afterPush h cfg b s).
Proof.
  unfold afterPush. cbv zeta.
  set (w := if useLocalStorage s then writeQueue h cfg b s else (s, false)).
  assert (Hw : outQueue (fst w) = skipn 0 (outQueue s)).
  { subst w. destruct (useLocalStorage s); [apply writeQueue_outQueue | reflexivity]. }
  destruct (_ && _).
  - now apply (drains_executeQueue_from (outQueue s) 0%nat).
  - now apply (drains_quiet (outQueue s) 0%nat).
Qed.

Lemma enqueueRequest_drains (b : Browser) (request : Payload) (url : jsstring) (s : State) :
  drains h cfg (outQueue s ++ pushed h cfg b (CallEnqueueRequest request url) s)
         (enqueueRequest h cfg b request url s).
Proof.
  unfold enqueueRequest, pushed, setCollectorUrl. cbv zeta.
  destruct (usePost cfg).
  - destruct (maxPostBytes cfg <=? bytes (getBody h request)).
    + rewrite app_nil_r. apply (drains_quiet _ 0%nat); reflexivity.
    + exact (afterPush_drains b
               (set_outQueue (outQueue s ++ [Post (getBody h request)])
                             (set_configCollectorUrl (Some (url ++ path cfg)) s))).
  - destruct ((0 <? maxGetBytes cfg) && _).
    + rewrite app_nil_r. destruct (useXhr cfg); apply (drains_quiet _ 0%nat); reflexivity.
    + exact (afterPush_drains b
               (set_outQueue (outQueue s ++ [QueryString (getQuerystring h request)])
                             (set_configCollectorUrl (Some (url ++ path cfg)) s))).
Qed.

Lemma xhr_onreadystatechange_drains (b : Browser) (n : nat) (batch : list BatchItem)
    (readyState statusCode : Z) (statusText : jsstring) (s : State) :
  drains h cfg (outQueue s)
         (xhr_onreadystatechange h cfg b n batch readyState statusCode statusText s).
Proof.
  unfold xhr_onreadystatechange. cbv zeta.
  destruct (readyState =? 4); [|now apply (drains_quiet _ 0%nat)].
  destruct (isSuccessfulRequest statusCode).
  - apply (drains_executeQueue_after _ n).
    + change (attempts (callOnRequestSuccess cfg batch) = []).
      apply attempts_callOnRequestSuccess.
    + apply removeEventsFromQueue_outQueue.
  - destruct (negb _).
    + apply (drains_quiet _ n).
      * change (attempts (callOnRequestFailure cfg
                  (mkFailure statusCode statusText batch
                     (shouldRetryForStatusCode (retryFailedRequests cfg)
                        (retryStatusCodes cfg) (dontRetryStatusCodes cfg) statusCode))) = []).
        apply attempts_callOnRequestFailure.
      * apply removeEventsFromQueue_outQueue.
    + apply (drains_quiet _ 0%nat); [|reflexivity].
      change (attempts (callOnRequestFailure cfg
                (mkFailure statusCode statusText batch
                   (shouldRetryForStatusCode (retryFailedRequests cfg)
                      (retryStatusCodes cfg) (dontRetryStatusCodes cfg) statusCode))) = []).
      apply attempts_callOnRequestFailure.
Qed.

Lemma xhrTimeout_drains (b : Browser) (n : nat) (batch : list BatchItem) (s : State) :
  drains h cfg (outQueue s) (xhrTimeout h cfg b n batch s).
Proof.
  destruct (xhrTimeout_runs_both_handlers h cfg b n batch s) as (Heffs & _ & _ & Hq).
  cbv zeta in Heffs, Hq.
  eapply drains_quiet; [|exact Hq].
  rewrite Heffs.
  change (XhrAbort :: ClearTimeout :: ?l) with ([XhrAbort; ClearTimeout] ++ l).
  rewrite !attempts_app, !attempts_callOnRequestFailure.
  now destruct (shouldRetryForStatusCode _ _ _ 0).
Qed.

Lemma bypass_onreadystatechange_drains (batch : list BatchItem)
    (readyState statusCode : Z) (statusText : jsstring) (s : State) :
  drains h cfg (outQueue s)
         (bypass_onreadystatechange cfg batch readyState statusCode statusText s).
Proof.
  unfold bypass_onreadystatechange.
  destruct (readyState =? 4); [|now apply (drains_quiet _ 0%nat)].
  destruct (isSuccessfulRequest statusCode); apply (drains_quiet _ 0%nat);
    try reflexivity.
  - apply attempts_callOnRequestSuccess.
  - apply attempts_callOnRequestFailure.
Qed.

Lemma image_onload_drains (b : Browser) (s : State) :
  drains h cfg (outQueue s) (image_onload h cfg b s).
Proof.
  unfold image_onload. cbv zeta.
  apply (drains_executeQueue_from _ 1%nat).
  destruct (useLocalStorage _); [now rewrite writeQueue_outQueue | reflexivity].
Qed.

Lemma handle_drains (b : Browser) (ev : Event) (s : State) :
  drains h cfg (outQueue s ++ pushed h cfg b ev s) (handle h cfg b ev s).
Proof.
  destruct ev; try (cbn [pushed]; rewrite app_nil_r); cbn [handle].
  - apply enqueueRequest_drains.
  - unfold public_executeQueue. destruct (negb _).
    + now apply (drains_executeQueue_from _ 0%nat).
    + now apply (drains_quiet _ 0%nat).
  - now apply (drains_quiet _ 0%nat).
  - now apply (drains_quiet _ 0%nat).
  - now apply (drains_quiet _ 0%nat).
  - now apply (drains_quiet _ 0%nat).
  - unfold bufferFlusher. destruct (flusherRegistered cfg); [|now apply (drains_quiet _ 0%nat)].
    destruct (negb _).
    + now apply (drains_executeQueue_from _ 0%nat).
    + now apply (drains_quiet _ 0%nat).
  - set (s' := if readyState =? 4 then _ else s).
    assert (Hs' : outQueue s' = outQueue s) by (subst s'; now destruct (readyState =? 4)).
    destruct (nth_error (pending s) i) as [[n batch| |armed|batch]|];
      try (now apply (drains_quiet _ 0%nat)); rewrite <- Hs'.
    + apply xhr_onreadystatechange_drains.
    + unfold idService_onreadystatechange. destruct (readyState =? 4).
      * now apply (drains_executeQueue_from _ 0%nat).
      * now apply (drains_quiet _ 0%nat).
    + apply bypass_onreadystatechange_drains.
  - destruct (nth_error (pending s) i) as [[n batch| |[|]|batch]|];
      try (now apply (drains_quiet _ 0%nat)).
    + apply (xhrTimeout_drains b n batch (set_pending (remove_nth i (pending s)) s)).
    + destruct (executingQueue s).
      * now apply (drains_executeQueue_from _ 0%nat).
      * now apply (drains_quiet _ 0%nat).
  - destruct (nth_error (pending s) i) as [[n batch| |armed|batch]|];
      try (now apply (drains_quiet _ 0%nat)).
    apply (image_onload_drains b (set_pending (remove_nth i (pending s)) s)).
  - destruct (nth_error (pending s) i) as [[n batch| |armed|batch]|];
      now apply (drains_quiet _ 0%nat).
Qed.

End Tasks.

(** ** First in, first out *)



(** C7.  The claim fails on the code, and the code is at fault: a removal
    after an outcome can take more than the prefix that was sent.  Retries
    are off.  The first [enqueueRequest] sends record 1; the second finds
    the request in flight and leaves record 2 queued behind it.  Then the
    timer of the request fires.  The abort runs the response callback with
    status 0, which removes the batch of one from the front; the body of
    the timer removes one entry from the front again, and this time it is
    record 2.  The queue ends empty with nothing in flight, and record 2 was
    never part of an attempt. *)
Theorem timeout_removes_unsent_record :
  let stamped := fun n =>
    setProp (str "stm") (stm_now sampleHost sampleBrowser)
            (evt (getBody sampleHost (samplePayload n))) in
  let before := run sampleHost sampleConfig_noRetry (firstn 2 scenarioTimeout2)
                    sampleState_noRetry in
  let r := run sampleHost sampleConfig_noRetry scenarioTimeout2 sampleState_noRetry in
  retryFailedRequests sampleConfig_noRetry = false
  /\ records (outQueue (fst before))
     = records [Post (getBody sampleHost (samplePayload 1));
                Post (getBody sampleHost (samplePayload 2))]
  /\ pending (fst before) = [XhrCallbacks 1%nat [BEvent (stamped 1)]]
  /\ attempts (snd before) = [PostAttempt [stamped 1]]
  /\ attempts (snd r) = [PostAttempt [stamped 1]]
  /\ outQueue (fst r) = []
  /\ executingQueue (fst r) = false
  /\ pending (fst r) = [].
Proof. cbv zeta. repeat split; vm_compute; reflexivity. Qed.

(** ** The oversized-event bypass *)

(** C3, as the code has it.  An [enqueueRequest] whose record reaches or
    exceeds the cap of the active transport (the POST cap, or the GET cap
    when that cap is positive) never touches the queue or its stored copy,
    and logs the size warning.  In POST mode the record goes out at once as a
    standalone POST to the collector.  In GET mode it goes out as a
    standalone POST to the POST path when the browser has CORS requests, and
    is dropped after the warning when it has not.  In GET mode with a cap of
    zero there is no size check: the record is pushed at the back of the
    queue and the usual tail (persist, maybe drain) follows. *)
Theorem enqueueRequest_oversized_bypass
    (h : Host) (cfg : Config) (b : Browser) (request : Payload) (url : jsstring) (s : State) :
  let s0 := setCollectorUrl cfg url s in
  let body := getBody h request in
  let qs := getQuerystring h request in
  let size := getUTF8Length (createGetUrl h cfg b s0 qs) in
  let o := enqueueRequest h cfg b request url s in
  let standalone := fun postUrl =>
    XhrSend StandaloneRequest (initializeXMLHttpRequest cfg s0 postUrl true false)
            (Some (encloseInPayloadDataEnvelope h
                     [setProp (str "stm") (stm_now h b) (evt body)])) in
  (usePost cfg = true -> maxPostBytes cfg <= bytes body ->
     effects o = [eventTooBigWarning h (bytes body) (maxPostBytes cfg);
                  standalone (url ++ path cfg)]
     /\ outQueue (state o) = outQueue s
     /\ stored (state o) = stored s
     /\ thrown o = None)
  /\ (usePost cfg = false -> 0 < maxGetBytes cfg -> maxGetBytes cfg <= size ->
     effects o = eventTooBigWarning h size (maxGetBytes cfg)
                   :: (if useXhr cfg then [standalone (url ++ postPath cfg)] else [])
     /\ outQueue (state o) = outQueue s
     /\ stored (state o) = stored s
     /\ thrown o = None)
  /\ (usePost cfg = false -> maxGetBytes cfg = 0 ->
     o = afterPush h cfg b (set_outQueue (outQueue s ++ [QueryString qs]) s0)
     /\ pushed h cfg b (CallEnqueueRequest request url) s = [QueryString qs]).
Proof.
  cbv zeta. unfold enqueueRequest, pushed, setCollectorUrl. cbv zeta.
  split; [|split].
  - intros Hpost Hbig. rewrite Hpost.
    apply Z.leb_le in Hbig. rewrite Hbig. repeat split.
  - intros Hget Hcap Hbig. rewrite Hget.
    apply Z.ltb_lt in Hcap. apply Z.leb_le in Hbig. rewrite Hcap, Hbig. cbn [andb].
    destruct (useXhr cfg); repeat split.
  - intros Hget Hzero. rewrite Hget, Hzero. cbn [Z.ltb Z.compare andb]. split; reflexivity.
Qed.

(** Scenario B: a record of 18000 bytes under a POST cap of 10000 goes out
    on its own and is neither queued nor stored. *)
Lemma enqueueRequest_oversized_bypass_witness :
  let o := enqueueRequest sampleHost sampleConfig sampleBrowser samplePayload_18000
             (str "https://collector.example") sampleState in
  bytes (getBody sampleHost samplePayload_18000) = 18000
  /\ maxPostBytes sampleConfig = 10000
  /\ (exists warning xhr envelope,
        effects o = [LogWarn warning; XhrSend StandaloneRequest xhr envelope])
  /\ outQueue (state o) = []
  /\ stored (state o) = None
  /\ thrown o = None.
Proof.
  cbv zeta.
  destruct (proj1 (enqueueRequest_oversized_bypass sampleHost sampleConfig sampleBrowser
                     samplePayload_18000 (str "https://collector.example") sampleState))
    as (Heff & Hq & Hst & Hth).
  - reflexivity.
  - apply Z.leb_le. vm_compute. reflexivity.
  - split; [vm_compute; reflexivity|]. split; [reflexivity|].
    split; [rewrite Heff; unfold eventTooBigWarning; eauto|].
    split; [exact Hq|]. split; [exact Hst | exact Hth].
Defined.

(** C3 as stated fails: in GET mode in a browser without CORS requests, a
    record whose URL exceeds the GET cap is warned about and then dropped;
    nothing is sent, and it is not queued either. *)
Lemma enqueueRequest_oversized_get_without_xhr_drops :
  let o := enqueueRequest sampleHost sampleConfig_get sampleBrowser samplePayload_small
             (str "https://collector.example") sampleState_get in
  usePost sampleConfig_get = false
  /\ maxGetBytes sampleConfig_get = 10
  /\ 10 < getUTF8Length
            (createGetUrl sampleHost sampleConfig_get sampleBrowser
               (setCollectorUrl sampleConfig_get (str "https://collector.example")
                                sampleState_get)
               (getQuerystring sampleHost samplePayload_small))
  /\ (exists warning, effects o = [LogWarn warning])
  /\ outQueue (state o) = []
  /\ pending (state o) = [].
Proof.
  cbv zeta. repeat split.
  eexists. vm_compute. reflexivity.
Qed.
(** ** Single flight as an invariant *)

Section SingleFlight.

Variable h : Host.
Variable cfg : Config.

Lemma drain_pendings_add (p : Pending) (s : State) :
  drain_pendings (add_pending p s)
  = drain_pendings s ++ (if is_bypass p then [] else [p]).
Proof.
  unfold drain_pendings, add_pending. cbn [pending set_pending].
  rewrite filter_app. cbn [filter]. now destruct (is_bypass p).
Qed.

Lemma single_flight_free (s : State) :
  drain_pendings s = [] -> single_flight h cfg s.
Proof. intros Hfree. unfold single_flight. now rewrite Hfree. Qed.

Lemma firstn_exact {A : Type} (l rest : list A) : firstn (length l) (l ++ rest) = l.
Proof.
  rewrite firstn_app, Nat.sub_diag, firstn_O, app_nil_r. apply firstn_all.
Qed.

Lemma sendBatch_single_flight (b : Browser) (xhr : XhrRequest) (n : nat)
    (evs : list (option Evt)) (s : State) (batch rest : list QueueItem) :
  drain_pendings s = [] ->
  executingQueue s = true ->
  outQueue s = batch ++ rest ->
  length batch = n -> (1 <= n)%nat ->
  map_evt batch = Returned evs ->
  single_flight h cfg (state (sendBatch h cfg b xhr n evs s)).
Proof.
  intros Hfree Hexec Hq Hlen Hn Hmap. unfold sendBatch. cbv zeta.
  destruct (snd (attachStmToEvent (stm_now h b) evs)) eqn:Hthrew.
  - apply single_flight_free. exact Hfree.
  - destruct (attach_through_posts _ _ _ Hmap Hthrew) as (posts & Hposts).
    subst batch. rewrite map_evt_posts in Hmap. inversion Hmap; subst evs; clear Hmap.
    rewrite attachStmToEvent_posts. cbn [fst].
    unfold andThen, setXhrCallbacks, emit. cbn [thrown state].
    unfold single_flight. rewrite drain_pendings_add.
    change (drain_pendings (set_outQueue _ s)) with (drain_pendings s).
    rewrite Hfree. cbn [is_bypass app].
    cbn [executingQueue add_pending set_pending set_outQueue outQueue].
    rewrite Hq, aliased_posts, present_posts.
    rewrite length_map in Hlen.
    split; [exact Hexec|]. split.
    + rewrite length_app, !length_map. lia.
    + left. exists (map (stampPost (stm_now h b)) posts). split.
      * rewrite <- Hlen.
        rewrite <- (length_map (stampPost (stm_now h b)) posts).
        rewrite <- (length_map Post (map (stampPost (stm_now h b)) posts)).
        apply firstn_exact.
      * now rewrite !map_map.
Qed.

Lemma removeEventsFromQueue_pending (b : Browser) (n : nat) (s : State) :
  pending (removeEventsFromQueue h cfg b n s) = pending s.
Proof.
  unfold removeEventsFromQueue, writeQueue, attemptWriteLocalStorage. cbv zeta.
  cbn [useLocalStorage set_outQueue].
  destruct (useLocalStorage s); [|reflexivity].
  now destruct (storageWritable b _).
Qed.

Lemma removeEventsFromQueue_executingQueue (b : Browser) (n : nat) (s : State) :
  executingQueue (removeEventsFromQueue h cfg b n s) = executingQueue s.
Proof.
  unfold removeEventsFromQueue, writeQueue, attemptWriteLocalStorage. cbv zeta.
  cbn [useLocalStorage set_outQueue].
  destruct (useLocalStorage s); [|reflexivity].
  now destruct (storageWritable b _).
Qed.

Lemma xhrTimeout_pending (b : Browser) (n : nat) (batch : list BatchItem) (s : State) :
  pending (state (xhrTimeout h cfg b n batch s)) = pending s.
Proof.
  unfold xhrTimeout, xhr_onreadystatechange. cbv zeta.
  change (4 =? 4) with true. change (isSuccessfulRequest 0) with false. cbv iota.
  destruct (negb (shouldRetryForStatusCode _ _ _ 0));
    destruct (negb (retryFailedRequests cfg));
    repeat (progress (rewrite ?removeEventsFromQueue_pending;
                      cbn [emit state pending set_executingQueue]));
    reflexivity.
Qed.

Lemma executeQueue_body_single_flight (b : Browser) (sync : bool) (s : State) :
  drain_pendings s = [] ->
  match executeQueue_body h cfg b sync s with
  | Halt o => single_flight h cfg (state o)
  | Recurse effs s' => drain_pendings s' = []
  end.
Proof.
  intros Hfree.
  unfold executeQueue_body. cbv zeta.
  pose proof (dropBadHead_head (outQueue s)) as Hhead.
  remember (dropBadHead (outQueue s)) as q eqn:Hq.
  cbn [outQueue set_outQueue set_executingQueue configCollectorUrl idServiceCalled
       anonymousTracking].
  assert (Hquiet : forall s' : State, pending s' = pending s -> single_flight h cfg s').
  { intros s' Hs'. apply single_flight_free. unfold drain_pendings. now rewrite Hs'. }
  destruct q as [|head tl] eqn:Hqueue.
  { now apply Hquiet. }
  rewrite <- Hqueue in *.
  destruct (negb (isString (configCollectorUrl s))).
  { now apply Hquiet. }
  destruct (if idServiceCalled s then None else idService_truthy cfg) as [idUrl|].
  { destruct sync; [now apply Hquiet|].
    cbn [state emit]. unfold single_flight. rewrite drain_pendings_add.
    change (drain_pendings (set_idServiceCalled true _)) with (drain_pendings s).
    rewrite Hfree. reflexivity. }
  set (s1 := set_executingQueue true (set_outQueue q s)).
  assert (Hfree1 : drain_pendings s1 = []) by exact Hfree.
  destruct (useXhr cfg).
  - destruct (postable q) as [[|]|] eqn:Hpostable.
    + destruct (chooseHowManyToSend (maxPostBytes cfg) q) as [n|] eqn:Hn;
        [|now apply Hquiet].
      pose proof (chooseHowManyToSend_bound _ _ _ Hn) as Hnle.
      pose proof (firstn_skipn n q) as Hsplit.
      pose proof (firstn_length_le q Hnle) as Hbl.
      destruct (firstn n q) as [|x batch] eqn:Hbatch; [now apply Hquiet|].
      assert (Hn1 : (1 <= n)%nat) by (destruct n; [discriminate | lia]).
      destruct (map_evt (x :: batch)) as [evs|] eqn:Hmap; [|now apply Hquiet].
      destruct (useBeacon cfg).
      * destruct (snd (attachStmToEvent (stm_now h b) evs)) eqn:Hthrew;
          [now apply Hquiet|].
        destruct (attach_through_posts _ _ _ Hmap Hthrew) as (posts & Hposts).
        rewrite Hposts in *. rewrite map_evt_posts in Hmap.
        inversion Hmap; subst evs; clear Hmap.
        rewrite attachStmToEvent_posts in *. cbn [fst snd] in *.
        destruct (sendBeacon b _ _).
        -- unfold drain_pendings. rewrite removeEventsFromQueue_pending. exact Hfree.
        -- unfold andThen, emit. cbn [thrown state].
           apply (sendBatch_single_flight b _ n _ _
                    (map Post (map (stampPost (stm_now h b)) posts)) (skipn n q)).
           ++ exact Hfree.
           ++ reflexivity.
           ++ cbn [outQueue set_outQueue]. rewrite <- Hsplit at 1. apply aliased_posts.
           ++ rewrite !length_map. rewrite length_map in Hbl. exact Hbl.
           ++ exact Hn1.
           ++ rewrite map_evt_posts, map_map. reflexivity.
      * apply (sendBatch_single_flight b _ n evs s1 (x :: batch) (skipn n q)).
        -- exact Hfree1.
        -- reflexivity.
        -- subst s1. cbn [outQueue set_outQueue set_executingQueue]. now rewrite Hsplit.
        -- exact Hbl.
        -- exact Hn1.
        -- exact Hmap.
    + destruct (postable_false_head head tl (Hhead head tl Hqueue)) as (qs & Hqs).
      { now rewrite <- Hqueue. }
      subst head. cbn [createGetUrl_head].
      unfold andThen, setXhrCallbacks, emit. cbn [thrown state].
      unfold single_flight. rewrite drain_pendings_add, Hfree1. cbn [is_bypass app].
      subst s1. cbn [executingQueue add_pending set_pending set_executingQueue
                     set_outQueue outQueue].
      rewrite Hqueue. cbn [firstn length].
      split; [reflexivity|]. split; [lia|].
      right. exists qs, b, (set_executingQueue true (set_outQueue (QueryString qs :: tl) s)).
      split; reflexivity.
    + now apply Hquiet.
  - destruct (negb (anonymousTracking s)); [|now apply Hquiet].
    destruct (postable q) as [[|]|] eqn:Hpostable; try (now apply Hquiet).
    destruct (postable_false_head head tl (Hhead head tl Hqueue)) as (qs & Hqs).
    { now rewrite <- Hqueue. }
    subst head. cbn [createGetUrl_head emit state].
    unfold single_flight. rewrite drain_pendings_add, Hfree1. cbn [is_bypass app].
    subst s1. cbn [executingQueue add_pending set_pending set_executingQueue
                   set_outQueue outQueue].
    split; [reflexivity|]. rewrite Hqueue. eauto.
Qed.


Lemma executeQueue_fuel_single_flight (fuel : nat) :
  forall (b : Browser) (sync : bool) (s : State) (o : Outcome),
    drain_pendings s = [] ->
    executeQueue_fuel h cfg fuel b sync s = Some o ->
    single_flight h cfg (state o).
Proof.
  induction fuel as [|fuel IH]; intros b sync s o Hfree Ho; [discriminate|].
  simpl in Ho.
  pose proof (executeQueue_body_single_flight b sync s Hfree) as Hbody.
  destruct (executeQueue_body h cfg b sync s) as [o'|effs s'].
  - now inversion Ho; subst.
  - destruct (executeQueue_fuel h cfg fuel b false s') as [o'|] eqn:Hrec; [|discriminate].
    inversion Ho; subst o; cbn [state]. eapply IH; eauto.
Qed.

Lemma executeQueue_single_flight (b : Browser) (sync : bool) (s : State) :
  drain_pendings s = [] -> single_flight h cfg (state (executeQueue h cfg b sync s)).
Proof.
  intros Hfree. eapply executeQueue_fuel_single_flight; [exact Hfree|].
  apply (executeQueue_fuel_enough h cfg (S (length (outQueue s)))). lia.
Qed.

Lemma single_flight_idle (s : State) :
  single_flight h cfg s -> executingQueue s = false -> drain_pendings s = [].
Proof.
  unfold single_flight. intros Hsf Hidle.
  destruct (drain_pendings s) as [|p [|p' l]]; [reflexivity| |].
  - destruct p; intuition congruence.
  - destruct p; contradiction.
Qed.

Lemma single_flight_ext (s s' : State) :
  pending s' = pending s -> executingQueue s' = executingQueue s ->
  outQueue s' = outQueue s ->
  single_flight h cfg s -> single_flight h cfg s'.
Proof.
  intros Hp He Hq. unfold single_flight, drain_pendings. now rewrite Hp, He, Hq.
Qed.

(** A record pushed at the back disturbs no drain in flight. *)
Lemma single_flight_push (s s' : State) (x : QueueItem) :
  pending s' = pending s -> executingQueue s' = executingQueue s ->
  outQueue s' = outQueue s ++ [x] ->
  single_flight h cfg s -> single_flight h cfg s'.
Proof.
  intros Hp He Hq. unfold single_flight, drain_pendings. rewrite Hp, He, Hq.
  destruct (filter _ (pending s)) as [|p [|p' l]]; auto.
  destruct p as [n batch| |armed|batch]; auto.
  - intros (Hexec & Hn & Hmatch). split; [assumption|]. split.
    + rewrite length_app. simpl. lia.
    + rewrite firstn_app. replace (n - length (outQueue s))%nat with 0%nat by lia.
      now rewrite firstn_O, app_nil_r.
  - intros (Hexec & q & rest & Hhead). split; [assumption|].
    rewrite Hhead. simpl. eauto.
Qed.

Lemma filter_remove_nth_false {A : Type} (f : A -> bool) (l : list A) :
  forall i p, nth_error l i = Some p -> f p = false ->
  filter f (remove_nth i l) = filter f l.
Proof.
  induction l as [|x l IH]; intros i p Hnth Hf; destruct i as [|i]; simpl in *;
    try discriminate.
  - inversion Hnth; subst. now rewrite Hf.
  - rewrite (IH i p Hnth Hf). reflexivity.
Qed.

Lemma filter_remove_nth_single {A : Type} (f : A -> bool) (l : list A) :
  forall i p p', nth_error l i = Some p -> f p = true -> filter f l = [p'] ->
  p = p' /\ filter f (remove_nth i l) = [].
Proof.
  induction l as [|x l IH]; intros i p p' Hnth Hf Hone; destruct i as [|i]; simpl in *;
    try discriminate.
  - inversion Hnth; subst. rewrite Hf in Hone. inversion Hone. auto.
  - destruct (f x) eqn:Hx.
    + inversion Hone as [[Hp Hrest]]. exfalso.
      assert (Hin : In p (filter f l)).
      { apply filter_In. split; [eapply nth_error_In; eauto | assumption]. }
      rewrite Hrest in Hin. contradiction.
    + apply (IH i p p' Hnth Hf Hone).
Qed.

(** The callback of the drain in flight is the only one; once it has run,
    no drain is waiting. *)
Lemma single_flight_take (s : State) (i : nat) (p : Pending) :
  single_flight h cfg s ->
  nth_error (pending s) i = Some p -> is_bypass p = false ->
  drain_pendings s = [p]
  /\ drain_pendings (set_pending (remove_nth i (pending s)) s) = [].
Proof.
  intros Hsf Hnth Hp. unfold drain_pendings in *. cbn [pending set_pending].
  assert (Hin : In p (filter (fun p => negb (is_bypass p)) (pending s))).
  { apply filter_In. split; [eapply nth_error_In; eauto | now rewrite Hp]. }
  unfold single_flight, drain_pendings in Hsf.
  destruct (filter (fun p => negb (is_bypass p)) (pending s)) as [|p0 [|p1 l]] eqn:Hfilter.
  - contradiction.
  - destruct (filter_remove_nth_single (fun p => negb (is_bypass p)) (pending s) i p p0
                  Hnth ltac:(cbn; now rewrite Hp) Hfilter)
      as (Heq & Hnone).
    subst p0. auto.
  - destruct p0; contradiction.
Qed.

Lemma drain_pendings_drop_bypass (s : State) (i : nat) (batch : list BatchItem) :
  nth_error (pending s) i = Some (BypassXhr batch) ->
  drain_pendings (set_pending (remove_nth i (pending s)) s) = drain_pendings s.
Proof.
  intros Hnth. unfold drain_pendings. cbn [pending set_pending].
  now apply (filter_remove_nth_false _ _ i (BypassXhr batch)).
Qed.

Lemma writeQueue_control (b : Browser) (s : State) :
  pending (fst (writeQueue h cfg b s)) = pending s
  /\ executingQueue (fst (writeQueue h cfg b s)) = executingQueue s
  /\ outQueue (fst (writeQueue h cfg b s)) = outQueue s.
Proof.
  unfold writeQueue, attemptWriteLocalStorage.
  now destruct (storageWritable b _).
Qed.

Lemma afterPush_single_flight (b : Browser) (s : State) :
  single_flight h cfg s -> single_flight h cfg (state (afterPush h cfg b s)).
Proof.
  intros Hsf. unfold afterPush. cbv zeta.
  set (w := if useLocalStorage s then writeQueue h cfg b s else (s, false)).
  assert (Hw : pending (fst w) = pending s /\ executingQueue (fst w) = executingQueue s
               /\ outQueue (fst w) = outQueue s).
  { subst w. destruct (useLocalStorage s); [apply writeQueue_control | auto]. }
  destruct Hw as (Hp & He & Hq).
  assert (Hsf' : single_flight h cfg (fst w)) by (eapply single_flight_ext; eauto).
  destruct (executingQueue (fst w)) eqn:Hexec; cbn [negb andb]; [exact Hsf'|].
  destruct (_ || _); [|exact Hsf'].
  apply executeQueue_single_flight. now apply single_flight_idle.
Qed.

Lemma single_flight_executeQueue_if_idle (b : Browser) (sync : bool) (s : State) :
  single_flight h cfg s ->
  single_flight h cfg
    (state (if negb (executingQueue s) then executeQueue h cfg b sync s else done s)).
Proof.
  intros Hsf. destruct (executingQueue s) eqn:Hexec; cbn [negb]; [exact Hsf|].
  apply executeQueue_single_flight. now apply single_flight_idle.
Qed.

(** Every task keeps the drain single-flight. *)
Lemma handle_single_flight (b : Browser) (ev : Event) (s : State) :
  single_flight h cfg s -> single_flight h cfg (state (handle h cfg b ev s)).
Proof.
  intros Hsf. destruct ev; cbn [handle].
  - (* enqueueRequest *)
    unfold enqueueRequest. cbv zeta.
    assert (Hsf0 : single_flight h cfg (set_configCollectorUrl (Some (url ++ path cfg)) s))
      by (eapply single_flight_ext; eauto).
    assert (Hbypass : forall body postUrl effs,
              single_flight h cfg
                (state (emit effs (set_configCollectorUrl (Some (url ++ path cfg)) s)
                          >>> sendPostRequestWithoutQueueing h cfg b body postUrl))).
    { intros body postUrl effs. unfold andThen, sendPostRequestWithoutQueueing, emit.
      cbn [thrown state effects]. unfold single_flight in *.
      rewrite drain_pendings_add. cbn [is_bypass]. rewrite app_nil_r. exact Hsf0. }
    destruct (usePost cfg).
    + destruct (_ <=? _); [apply Hbypass|].
      apply afterPush_single_flight.
      eapply single_flight_push; [| | |exact Hsf]; reflexivity.
    + destruct (_ && _).
      * destruct (useXhr cfg); [apply Hbypass | exact Hsf0].
      * apply afterPush_single_flight.
        eapply single_flight_push; [| | |exact Hsf]; reflexivity.
  - now apply single_flight_executeQueue_if_idle.
  - eapply single_flight_ext; eauto.
  - eapply single_flight_ext; eauto.
  - eapply single_flight_ext; eauto.
  - eapply single_flight_ext; eauto.
  - destruct (flusherRegistered cfg); [|exact Hsf].
    now apply single_flight_executeQueue_if_idle.
  - (* a readystatechange *)
    destruct (nth_error (pending s) i) as [[n batch| |armed|batch]|] eqn:Hnth;
      try exact Hsf.
    + unfold xhr_onreadystatechange. cbv zeta.
      destruct (readyState =? 4); [|exact Hsf].
      destruct (single_flight_take s i _ Hsf Hnth eq_refl) as (_ & Hfree).
      destruct (isSuccessfulRequest statusCode).
      * unfold andThen, emit. cbn [thrown state].
        apply executeQueue_single_flight.
        unfold drain_pendings. rewrite removeEventsFromQueue_pending. exact Hfree.
      * destruct (negb _); cbn [state emit]; apply single_flight_free.
        -- unfold drain_pendings. cbn [pending set_executingQueue].
           rewrite removeEventsFromQueue_pending. exact Hfree.
        -- exact Hfree.
    + unfold idService_onreadystatechange.
      destruct (readyState =? 4); [|exact Hsf].
      destruct (single_flight_take s i _ Hsf Hnth eq_refl) as (_ & Hfree).
      now apply executeQueue_single_flight.
    + unfold bypass_onreadystatechange.
      destruct (readyState =? 4); [|exact Hsf].
      assert (Hsf' : single_flight h cfg (set_pending (remove_nth i (pending s)) s)).
      { unfold single_flight in *.
        rewrite (drain_pendings_drop_bypass s i batch Hnth). exact Hsf. }
      now destruct (isSuccessfulRequest statusCode).
  - (* a timer *)
    destruct (nth_error (pending s) i) as [[n batch| |[|]|batch]|] eqn:Hnth;
      try exact Hsf.
    + destruct (single_flight_take s i _ Hsf Hnth eq_refl) as (_ & Hfree).
      apply single_flight_free. unfold drain_pendings in *.
      rewrite xhrTimeout_pending. exact Hfree.
    + destruct (single_flight_take s i _ Hsf Hnth eq_refl) as (Hone & Hfree).
      unfold single_flight in Hsf. rewrite Hone in Hsf. destruct Hsf as (Hexec & _).
      rewrite Hexec. now apply executeQueue_single_flight.
  - (* an image has loaded *)
    destruct (nth_error (pending s) i) as [[n batch| |armed|batch]|] eqn:Hnth;
      try exact Hsf.
    destruct (single_flight_take s i _ Hsf Hnth eq_refl) as (_ & Hfree).
    unfold image_onload. cbv zeta. apply executeQueue_single_flight.
    destruct (useLocalStorage _); [|exact Hfree].
    unfold drain_pendings.
    now rewrite (proj1 (writeQueue_control b _)).
  - (* an image has failed *)
    destruct (nth_error (pending s) i) as [[n batch| |armed|batch]|] eqn:Hnth;
      try exact Hsf.
    destruct (single_flight_take s i _ Hsf Hnth eq_refl) as (_ & Hfree).
    unfold image_onerror. cbn [state done]. now apply single_flight_free.
Qed.

End SingleFlight.

(** Single flight holds all along a run that starts with no drain waiting,
    such as the state the constructor returns. *)
Lemma run_single_flight (h : Host) (cfg : Config) (tasks : list (Browser * Event)) :
  forall s : State,
    single_flight h cfg s -> single_flight h cfg (fst (run h cfg tasks s)).
Proof.
  induction tasks as [|[b ev] rest IH]; intros s Hsf; [exact Hsf|].
  cbn [run fst]. apply IH. now apply handle_single_flight.
Qed.

Lemma OutQueueManager_single_flight (h : Host) (w : Window) (a : Args) :
  single_flight h (fst (OutQueueManager h w a)) (snd (OutQueueManager h w a)).
Proof. exact I. Qed.

(** Removal after a response: in a run from construction, while the callback
    of the attempt in flight waits, the first [numberToSend] entries of the
    queue are the entries the attempt sent, and one call of
    [removeEventsFromQueue] takes exactly these off the front. *)
Lemma removal_is_the_attempted_prefix
    (h : Host) (w : Window) (a : Args) (tasks : list (Browser * Event))
    (b : Browser) (i n : nat) (batch : list BatchItem) :
  let cfg := fst (OutQueueManager h w a) in
  let s := fst (run h cfg tasks (snd (OutQueueManager h w a))) in
  nth_error (pending s) i = Some (XhrCallbacks n batch) ->
  executingQueue s = true
  /\ (1 <= n <= length (outQueue s))%nat
  /\ batch_matches h cfg batch (firstn n (outQueue s))
  /\ outQueue (removeEventsFromQueue h cfg b n s) = skipn n (outQueue s).
Proof.
  cbv zeta. intros Hnth.
  pose proof (run_single_flight h _ tasks _ (OutQueueManager_single_flight h w a)) as Hsf.
  destruct (single_flight_take h _ _ i _ Hsf Hnth eq_refl) as (Hone & _).
  unfold single_flight in Hsf. rewrite Hone in Hsf.
  destruct Hsf as (Hexec & Hn & Hmatch).
  repeat split; try assumption; try lia.
  apply removeEventsFromQueue_outQueue.
Qed.

(** ** The scenarios of the specification, run *)

(** Scenario A: with a buffer of two, nothing is sent on the first enqueue;
    the second starts a drain that sends records 1 and 2 in one request; the
    response 200 removes them; record 3 stays queued, and no drain is
    running. *)
Lemma scenarioA_run :
  let r := run sampleHost sampleConfig_buffer2 scenarioA sampleState_buffer2 in
  let stamped := fun n =>
    setProp (str "stm") (stm_now sampleHost sampleBrowser)
            (evt (getBody sampleHost (samplePayload n))) in
  attempts (snd (run sampleHost sampleConfig_buffer2 [hd (sampleBrowser, CallExecuteQueue) scenarioA]
                     sampleState_buffer2)) = []
  /\ attempts (snd r) = [PostAttempt [stamped 1; stamped 2]]
  /\ outQueue (fst r) = [Post (getBody sampleHost (samplePayload 3))]
  /\ executingQueue (fst r) = false
  /\ pending (fst r) = [].
Proof. cbv zeta. repeat split; vm_compute; reflexivity. Qed.

(** Scenario D: status 503, on neither list, retries enabled: the failure is
    reported with [willRetry = true], the batch stays queued, the drain has
    halted and nothing new was sent. *)
Lemma scenarioD_run :
  let r := run sampleHost sampleConfig scenarioD sampleState in
  let stamped :=
    setProp (str "stm") (stm_now sampleHost sampleBrowser)
            (evt (getBody sampleHost (samplePayload 1))) in
  In (OnRequestFailure
        (mkFailure 503 (str "Service Unavailable") [BEvent stamped] true)) (snd r)
  /\ attempts (snd r) = [PostAttempt [stamped]]
  /\ records (outQueue (fst r)) = records [Post (getBody sampleHost (samplePayload 1))]
  /\ executingQueue (fst r) = false
  /\ pending (fst r) = [].
Proof.
  cbv zeta. repeat split; try (vm_compute; reflexivity).
  vm_compute. right. right. right. left. reflexivity.
Qed.
(** * Further properties *)

(** ** The byte count *)

Lemma getUTF8Length_cons (code : Z) (rest : jsstring) :
  getUTF8Length (code :: rest)
  = if code <=? 127 then 1 + getUTF8Length rest
    else if code <=? 2047 then 2 + getUTF8Length rest
    else if (55296 <=? code) && (code <=? 57343) then
      4 + match rest with [] => 0 | _ :: rest' => getUTF8Length rest' end
    else if code <? 65535 then 3 + getUTF8Length rest
    else 4 + getUTF8Length rest.
Proof. reflexivity. Qed.

Lemma getUTF8Length_bounds_upto (n : nat) :
  forall s : jsstring, (length s <= n)%nat ->
  Z.of_nat (length s) <= getUTF8Length s <= 4 * Z.of_nat (length s).
Proof.
  induction n as [|n IH]; intros s Hlen.
  - destruct s; simpl in *; lia.
  - destruct s as [|code rest]; [simpl; lia|].
    simpl in Hlen.
    pose proof (IH rest ltac:(lia)) as Hrest.
    rewrite getUTF8Length_cons.
    change (length (code :: rest)) with (S (length rest)).
    destruct (code <=? 127); [lia|].
    destruct (code <=? 2047); [lia|].
    destruct ((55296 <=? code) && (code <=? 57343)).
    + destruct rest as [|c rest']; [simpl; lia|].
      pose proof (IH rest' ltac:(simpl in Hlen; lia)) as Hrest'.
      change (length (c :: rest')) with (S (length rest')). lia.
    + destruct (code <? 65535); lia.
Qed.

(** X1.  The count lies between the number of code units and four times
    that number, for every string: no unit counts for less than one byte
    (a skipped surrogate half shares the four bytes of its partner) or for
    more than four. *)
Theorem getUTF8Length_bounds (s : jsstring) :
  Z.of_nat (length s) <= getUTF8Length s <= 4 * Z.of_nat (length s).
Proof. apply (getUTF8Length_bounds_upto (length s)). lia. Qed.

Lemma utf8_size_supplementary (cp : Z) : 65536 <= cp -> utf8_size cp = 4.
Proof.
  intros Hcp. unfold utf8_size.
  destruct (Z.leb_spec cp 127); [lia|].
  destruct (Z.leb_spec cp 2047); [lia|].
  destruct (Z.leb_spec cp 65535); [lia|reflexivity].
Qed.

Lemma codePoints_cons (c : Z) (rest : jsstring) :
  codePoints (c :: rest)
  = if isHighSurrogate c then
      match rest with
      | [] => None
      | lo :: rest' =>
          if isLowSurrogate lo then
            option_map (cons (65536 + (c - 55296) * 1024 + (lo - 56320)))
                       (codePoints rest')
          else None
      end
    else if isLowSurrogate c then None
    else if (0 <=? c) && (c <=? 65535) then option_map (cons c) (codePoints rest)
    else None.
Proof. reflexivity. Qed.

Lemma getUTF8Length_codePoints_upto (n : nat) :
  forall (s : jsstring) (cps : list Z),
    (length s <= n)%nat ->
    codePoints s = Some cps -> ~ In 65535 s ->
    getUTF8Length s = utf8_length cps.
Proof.
  induction n as [|n IH]; intros s cps Hlen Hcps Hno.
  - destruct s; simpl in *; [|lia]. now inversion Hcps.
  - destruct s as [|c rest]; [now inversion Hcps|].
    simpl in Hlen. rewrite getUTF8Length_cons.
    rewrite codePoints_cons in Hcps.
    unfold isHighSurrogate, isLowSurrogate in Hcps.
    destruct ((55296 <=? c) && (c <=? 56319)) eqn:Hhi.
    + (* a surrogate pair *)
      apply andb_true_iff in Hhi. destruct Hhi as [Hh1 Hh2].
      apply Z.leb_le in Hh1. apply Z.leb_le in Hh2.
      destruct rest as [|lo rest']; [discriminate|].
      destruct ((56320 <=? lo) && (lo <=? 57343)) eqn:Hlo; [|discriminate].
      apply andb_true_iff in Hlo. destruct Hlo as [Hl1 Hl2].
      apply Z.leb_le in Hl1. apply Z.leb_le in Hl2.
      destruct (codePoints rest') as [cps'|] eqn:Hrest; [|discriminate].
      unfold option_map in Hcps.
      assert (Hcps' : cps = (65536 + (c - 55296) * 1024 + (lo - 56320)) :: cps')
        by congruence.
      subst cps. clear Hcps.
      assert (Hrec : getUTF8Length rest' = utf8_length cps').
      { apply (IH rest' cps'); [simpl in Hlen; lia | assumption |].
        intros Hin. apply Hno. right. right. assumption. }
      replace (c <=? 127) with false by (symmetry; apply Z.leb_gt; lia).
      replace (c <=? 2047) with false by (symmetry; apply Z.leb_gt; lia).
      replace ((55296 <=? c) && (c <=? 57343)) with true
        by (symmetry; apply andb_true_iff; split; apply Z.leb_le; lia).
      rewrite Hrec.
      change (utf8_length ((65536 + (c - 55296) * 1024 + (lo - 56320)) :: cps'))
        with (utf8_size (65536 + (c - 55296) * 1024 + (lo - 56320)) + utf8_length cps').
      assert (Hcp : 65536 <= 65536 + (c - 55296) * 1024 + (lo - 56320)) by lia.
      rewrite (utf8_size_supplementary _ Hcp). reflexivity.
    + destruct ((56320 <=? c) && (c <=? 57343)) eqn:Hlo; [discriminate|].
      destruct ((0 <=? c) && (c <=? 65535)) eqn:Hrange; [|discriminate].
      destruct (codePoints rest) as [cps'|] eqn:Hrest; [|discriminate].
      unfold option_map in Hcps.
      assert (Hcps' : cps = c :: cps') by congruence.
      subst cps. clear Hcps.
      assert (Hrec : getUTF8Length rest = utf8_length cps').
      { apply (IH rest cps'); [lia | assumption |].
        intros Hin. apply Hno. right. assumption. }
      assert (Hc : c <> 65535) by (intros ->; apply Hno; now left).
      apply andb_true_iff in Hrange. destruct Hrange as [Hr1 Hr2].
      apply Z.leb_le in Hr1. apply Z.leb_le in Hr2.
      assert (Hsur : (55296 <=? c) && (c <=? 57343) = false).
      { rewrite andb_false_iff, !Z.leb_gt in Hhi, Hlo.
        rewrite andb_false_iff, !Z.leb_gt. lia. }
      rewrite Hsur. rewrite Hrec.
      change (utf8_length (c :: cps')) with (utf8_size c + utf8_length cps').
      unfold utf8_size.
      destruct (c <=? 127); [reflexivity|].
      destruct (c <=? 2047); [reflexivity|].
      replace (c <? 65535) with true by (symmetry; apply Z.ltb_lt; lia).
      replace (c <=? 65535) with true by (symmetry; apply Z.leb_le; lia).
      reflexivity.
Qed.

(** X2.  On a well-formed UTF-16 string that does not hold the code unit
    U+FFFF, the count is the number of bytes of the string's UTF-8 encoding.
    (The unit U+FFFF itself is counted as four bytes by the test
    [code < 0xffff]; UTF-8 gives it three.) *)
Theorem getUTF8Length_is_utf8_length (s : jsstring) (cps : list Z) :
  codePoints s = Some cps -> ~ In 65535 s ->
  getUTF8Length s = utf8_length cps.
Proof. apply (getUTF8Length_codePoints_upto (length s)). lia. Qed.

Lemma getUTF8Length_is_utf8_length_witness :
  getUTF8Length [104; 233; 8364; 55357; 56832] = utf8_length [104; 233; 8364; 128512].
Proof.
  apply (getUTF8Length_is_utf8_length [104; 233; 8364; 55357; 56832]).
  - reflexivity.
  - simpl. intros H. repeat (destruct H as [H|H]; [discriminate|]). exact H.
Defined.
(** ** The query string *)

Lemma jsstring_eqb_eq (a b : jsstring) : jsstring_eqb a b = true <-> a = b.
Proof.
  revert b. induction a as [|x a IH]; intros [|y b]; simpl; split; intros H;
    try reflexivity; try discriminate.
  - apply andb_true_iff in H. destruct H as [Hx Ha].
    apply Z.eqb_eq in Hx. apply IH in Ha. now subst.
  - inversion H; subst. rewrite Z.eqb_refl. simpl. now apply IH.
Qed.

Lemma getQuerystring_pairs_acc (h : Host) (request : Payload) :
  forall (acc : jsstring) (firstPair : bool),
    getQuerystring_pairs h request acc firstPair
    = acc ++ getQuerystring_pairs h request [] firstPair.
Proof.
  induction request as [|[key value] request IH]; intros acc firstPair.
  - simpl. now rewrite app_nil_r.
  - cbn [getQuerystring_pairs].
    destruct (negb (isLowPriority key)); [|apply IH].
    rewrite IH. rewrite (IH (_ ++ _)).
    destruct firstPair; cbn [app]; now rewrite <- ?app_assoc.
Qed.

Lemma getQuerystring_pairs_filter (h : Host) (request : Payload) :
  forall (acc : jsstring) (firstPair : bool),
    getQuerystring_pairs h request acc firstPair
    = getQuerystring_pairs h
        (filter (fun kv => negb (isLowPriority (fst kv))) request) acc firstPair.
Proof.
  induction request as [|[key value] request IH]; intros acc firstPair; [reflexivity|].
  cbn [getQuerystring_pairs filter fst].
  destruct (negb (isLowPriority key)) eqn:Hlow.
  - cbn [getQuerystring_pairs]. rewrite Hlow. apply IH.
  - apply IH.
Qed.

Lemma getQuerystring_context_acc (h : Host) (request : Payload) (keys : list jsstring) :
  forall acc : jsstring,
    getQuerystring_context h request keys acc
    = acc ++ getQuerystring_context h request keys [].
Proof.
  induction keys as [|key keys IH]; intros acc.
  - simpl. now rewrite app_nil_r.
  - cbn [getQuerystring_context].
    destruct (getProp key request); [|apply IH].
    rewrite IH. rewrite (IH ([] ++ _)). cbn [app]. now rewrite <- ?app_assoc.
Qed.

Lemma getQuerystring_context_ext (h : Host) (request request' : Payload)
    (keys : list jsstring) (acc : jsstring) :
  (forall key, In key keys -> getProp key request = getProp key request') ->
  getQuerystring_context h request keys acc = getQuerystring_context h request' keys acc.
Proof.
  revert acc. induction keys as [|key keys IH]; intros acc Hsame; [reflexivity|].
  cbn [getQuerystring_context]. rewrite <- (Hsame key) by now left.
  destruct (getProp key request); apply IH; intros k Hk; apply Hsame; now right.
Qed.

Lemma getProp_app (key : jsstring) (r1 r2 : Payload) :
  getProp key (r1 ++ r2)
  = match getProp key r1 with Some v => Some v | None => getProp key r2 end.
Proof.
  induction r1 as [|[k v] r1 IH]; [reflexivity|].
  cbn [app getProp]. now destruct (jsstring_eqb k key).
Qed.

Lemma getProp_filtered (key : jsstring) (request : Payload) :
  isLowPriority key = true ->
  getProp key (filter (fun kv => negb (isLowPriority (fst kv))) request) = None.
Proof.
  intros Hlow. induction request as [|[k v] request IH]; [reflexivity|].
  cbn [filter fst]. destruct (negb (isLowPriority k)) eqn:Hk; [|exact IH].
  cbn [getProp]. destruct (jsstring_eqb k key) eqn:Heq; [|exact IH].
  apply jsstring_eqb_eq in Heq. subst k. rewrite Hlow in Hk. discriminate.
Qed.

Lemma contextPairs_low (request : Payload) :
  filter (fun kv => negb (isLowPriority (fst kv))) (contextPairs request) = [].
Proof.
  unfold contextPairs, lowPriorityKeys. cbn [flat_map].
  destruct (getProp (str "co") request); destruct (getProp (str "cx") request);
    reflexivity.
Qed.

Lemma getProp_contextPairs (request : Payload) (key : jsstring) :
  In key lowPriorityKeys -> getProp key (contextPairs request) = getProp key request.
Proof.
  unfold contextPairs, lowPriorityKeys. cbn [flat_map].
  intros [<-|[<-|[]]];
    destruct (getProp (str "co") request) eqn:Hco;
    destruct (getProp (str "cx") request) eqn:Hcx;
    vm_compute; congruence.
Qed.

Lemma filter_idempotent {A : Type} (f : A -> bool) (l : list A) :
  filter f (filter f l) = filter f l.
Proof.
  induction l as [|x l IH]; [reflexivity|].
  simpl. destruct (f x) eqn:Hx; [|exact IH]. simpl. now rewrite Hx, IH.
Qed.

Lemma getQuerystring_form (h : Host) (request : Payload) :
  getQuerystring h request
  = str "?" ++ getQuerystring_pairs h
                 (filter (fun kv => negb (isLowPriority (fst kv))) request) [] true
            ++ getQuerystring_context h request lowPriorityKeys [].
Proof.
  unfold getQuerystring.
  rewrite getQuerystring_context_acc, getQuerystring_pairs_acc,
          getQuerystring_pairs_filter.
  now rewrite <- app_assoc.
Qed.

Lemma getQuerystring_pairs_rest (h : Host) (l : Payload) :
  forallb (fun kv => negb (isLowPriority (fst kv))) l = true ->
  getQuerystring_pairs h l [] false
  = concat (map (fun kv => str "&" ++ encodedPair h kv) l).
Proof.
  induction l as [|[key value] l IH]; intros Hall; [reflexivity|].
  cbn [forallb fst] in Hall. apply andb_true_iff in Hall. destruct Hall as [Hk Hl].
  cbn [getQuerystring_pairs map concat]. rewrite Hk.
  rewrite getQuerystring_pairs_acc, (IH Hl).
  unfold encodedPair. cbn [fst snd app]. now rewrite <- ?app_assoc.
Qed.

Lemma joinWith_cons (sep x : jsstring) (l : list jsstring) :
  joinWith sep (x :: l) = x ++ concat (map (fun y => sep ++ y) l).
Proof.
  revert x. induction l as [|y l IH]; intros x.
  - cbn. now rewrite app_nil_r.
  - change (joinWith sep (x :: y :: l)) with (x ++ sep ++ joinWith sep (y :: l)).
    rewrite IH. cbn [map concat]. now rewrite <- ?app_assoc.
Qed.

Lemma getQuerystring_pairs_joined (h : Host) (l : Payload) :
  forallb (fun kv => negb (isLowPriority (fst kv))) l = true ->
  getQuerystring_pairs h l [] true = joinWith (str "&") (map (encodedPair h) l).
Proof.
  destruct l as [|[key value] l]; intros Hall; [reflexivity|].
  cbn [forallb fst] in Hall. apply andb_true_iff in Hall. destruct Hall as [Hk Hl].
  cbn [getQuerystring_pairs map]. rewrite Hk.
  rewrite getQuerystring_pairs_acc, (getQuerystring_pairs_rest h l Hl).
  rewrite joinWith_cons, map_map. reflexivity.
Qed.

Lemma ordinaryFields_all (request : Payload) :
  forallb (fun kv => negb (isLowPriority (fst kv))) (ordinaryFields request) = true.
Proof.
  apply forallb_forall. intros kv Hin. now apply filter_In in Hin.
Qed.

Lemma getQuerystring_context_fields (h : Host) (request : Payload) :
  getQuerystring_context h request lowPriorityKeys []
  = contextField h request (str "co") ++ contextField h request (str "cx").
Proof.
  unfold lowPriorityKeys, contextField. cbn [getQuerystring_context].
  destruct (getProp (str "co") request); destruct (getProp (str "cx") request);
    cbn [getQuerystring_context app]; rewrite ?app_nil_r; try reflexivity;
    now rewrite <- ?app_assoc.
Qed.

(** X3.  The query string is ['?'], then the ordinary fields of the
    payload in their order, each as [key=value] with both sides
    percent-encoded and an ['&'] between neighbours, then [&co=<value>] if
    the payload has a [co] field and [&cx=<value>] if it has a [cx] field,
    with the value percent-encoded, wherever these two stood in the
    payload.  So a payload and the same payload with its context fields
    moved to the end give the same query string. *)
Theorem getQuerystring_context_last (h : Host) (request : Payload) :
  getQuerystring h request
  = str "?" ++ joinWith (str "&") (map (encodedPair h) (ordinaryFields request))
            ++ contextField h request (str "co")
            ++ contextField h request (str "cx")
  /\ getQuerystring h request
     = getQuerystring h (ordinaryFields request ++ contextPairs request).
Proof.
  assert (Hshape : forall r,
             getQuerystring h r
             = str "?" ++ joinWith (str "&") (map (encodedPair h) (ordinaryFields r))
                 ++ contextField h r (str "co") ++ contextField h r (str "cx")).
  { intros r. rewrite getQuerystring_form.
    fold (ordinaryFields r).
    rewrite (getQuerystring_pairs_joined h _ (ordinaryFields_all r)).
    now rewrite getQuerystring_context_fields. }
  split; [apply Hshape|].
  rewrite (Hshape request), (Hshape (_ ++ _)).
  assert (Hctx : forall key, In key lowPriorityKeys ->
             contextField h (ordinaryFields request ++ contextPairs request) key
             = contextField h request key).
  { intros key Hkey. unfold contextField.
    rewrite getProp_app. unfold ordinaryFields. rewrite getProp_filtered.
    - now rewrite getProp_contextPairs.
    - unfold isLowPriority. apply existsb_exists. exists key. split; [assumption|].
      now apply jsstring_eqb_eq. }
  rewrite !Hctx by (unfold lowPriorityKeys; cbn; tauto).
  unfold ordinaryFields at 2.
  rewrite filter_app. fold (ordinaryFields request). unfold ordinaryFields at 2.
  rewrite filter_idempotent. fold (ordinaryFields request).
  now rewrite contextPairs_low, app_nil_r.
Qed.

(** ** The URL of a GET *)

Lemma replaceQuestionMark_none (r s : jsstring) :
  ~ In 63 s -> replaceQuestionMark r s = s.
Proof.
  induction s as [|c s IH]; intros Hno; [reflexivity|].
  cbn [replaceQuestionMark]. destruct (c =? 63) eqn:Hc.
  - apply Z.eqb_eq in Hc. subst c. exfalso. apply Hno. now left.
  - rewrite IH; [reflexivity|]. intros Hin. apply Hno. now right.
Qed.

(** X4.  For the query string of any payload, the GET URL is the collector
    URL followed by that query string, with [stm=<now>&] put right behind
    its ['?'] when timestamps are enabled.  A string without a question mark
    gets no timestamp at all: the URL is then the plain concatenation even
    when timestamps are enabled. *)
Theorem createGetUrl_stm_after_question_mark
    (h : Host) (cfg : Config) (b : Browser) (s : State) (request : Payload) :
  (exists tail,
      getQuerystring h request = str "?" ++ tail
      /\ createGetUrl h cfg b s (getQuerystring h request)
         = collectorUrl_text s
             ++ (if useStm cfg
                 then str "?stm=" ++ Number_toString h (now b) ++ str "&" ++ tail
                 else str "?" ++ tail))
  /\ (forall nextRequest,
        ~ In 63 nextRequest ->
        createGetUrl h cfg b s nextRequest = collectorUrl_text s ++ nextRequest).
Proof.
  split.
  - pose proof (getQuerystring_form h request) as Hform.
    eexists. split; [exact Hform|].
    rewrite Hform. unfold createGetUrl.
    destruct (useStm cfg); [|reflexivity].
    cbn [str map list_ascii_of_string app replaceQuestionMark].
    change (Z.of_nat (nat_of_ascii "?") =? 63) with true. cbn iota.
    now rewrite <- !app_assoc.
  - intros nextRequest Hno. unfold createGetUrl.
    destruct (useStm cfg); [|reflexivity].
    now rewrite replaceQuestionMark_none.
Qed.
(** ** What the constructor resolves *)

(** X5.  POST is chosen only with CORS requests available and never when
    GET was requested (a method that lower-cases to "get"); the path is the
    POST path exactly in POST mode and ["/i"] otherwise.  The beacon is used
    only when it was requested, the browser has it and is not on the WebKit
    list; and whenever the beacon was requested, supported or not, the
    manager sends no custom header. *)
Theorem OutQueueManager_transport (h : Host) (w : Window) (a : Args) :
  let cfg := fst (OutQueueManager h w a) in
  useXhr cfg = xhrSupported w
  /\ (usePost cfg = true ->
        xhrSupported w = true /\ methodIs (loweredMethod h a) "get" = false
        /\ (methodIs (loweredMethod h a) "post" = true \/ beaconRequested h a = true))
  /\ path cfg = (if usePost cfg then arg_postPath a else str "/i")
  /\ (useBeacon cfg = true ->
        beaconRequested h a = true /\ beaconSupported w = true
        /\ webKitBeaconBug w = false)
  /\ (beaconRequested h a = true -> customHeaders cfg = [])
  /\ (beaconRequested h a = false -> customHeaders cfg = arg_customHeaders a).
Proof.
  cbv zeta. unfold OutQueueManager, beaconRequested, loweredMethod. cbv zeta.
  cbn [fst useXhr usePost path useBeacon customHeaders].
  destruct (arg_eventMethod a) as [ms|v]; cbv iota beta.
  - set (req := methodIs (MethodString (toLowerCase h ms)) "beacon"
                || methodIs (MethodString (toLowerCase h ms)) "true").
    split; [reflexivity|]. split.
    { intros Hpost.
      destruct (methodIs (MethodString (toLowerCase h ms)) "get"); [discriminate|].
      destruct (xhrSupported w); [|discriminate].
      cbn [negb andb] in Hpost. apply orb_true_iff in Hpost.
      split; [reflexivity|]. split; [reflexivity|]. exact Hpost. }
    split; [reflexivity|]. split.
    { intros Hbeacon.
      destruct req; [|discriminate].
      destruct (beaconSupported w); [|discriminate].
      destruct (webKitBeaconBug w); [discriminate|].
      split; [reflexivity|]. split; reflexivity. }
    split; intros Hreq; now rewrite Hreq.
  - cbn [methodIs orb negb andb].
    split; [reflexivity|]. split.
    { intros Hpost.
      destruct (xhrSupported w); [|discriminate].
      cbn [andb] in Hpost.
      split; [reflexivity|]. split; [reflexivity|]. now right. }
    split; [reflexivity|]. split.
    { intros Hbeacon.
      destruct v; [|discriminate].
      destruct (beaconSupported w); [|discriminate].
      destruct (webKitBeaconBug w); [discriminate|].
      split; [reflexivity|]. split; reflexivity. }
    split; intros Hreq; now rewrite Hreq.
Qed.

(** X6.  Records are buffered only in POST mode with local storage enabled
    and accessible: in every other case the buffer size is 1, whatever the
    caller asked for, and a requested size of 0 also gives 1.  A buffer
    flusher is registered only for a buffer larger than 1, hence only in
    POST mode over CORS requests. *)
Theorem OutQueueManager_bufferSize (h : Host) (w : Window) (a : Args) :
  let cfg := fst (OutQueueManager h w a) in
  let s := snd (OutQueueManager h w a) in
  (bufferSize s = 1 \/ bufferSize s = arg_bufferSize a)
  /\ bufferSize s <> 0
  /\ (bufferSize s <> 1 ->
        usePost cfg = true /\ arg_useLocalStorage a = true
        /\ localStorageAccessible w = true)
  /\ (flusherRegistered cfg = true ->
        1 < bufferSize s /\ usePost cfg = true /\ useXhr cfg = true).
Proof.
  cbv zeta. unfold OutQueueManager. cbv zeta.
  cbn [fst snd bufferSize usePost useXhr flusherRegistered].
  set (post := negb _ && xhrSupported w && _).
  assert (Hbuf : forall P : Z -> Prop,
            P 1 ->
            (arg_useLocalStorage a = true -> localStorageAccessible w = true ->
             post = true -> arg_bufferSize a <> 0 -> P (arg_bufferSize a)) ->
            P (if arg_useLocalStorage a && localStorageAccessible w && post
                  && negb (arg_bufferSize a =? 0)
               then arg_bufferSize a else 1)).
  { intros P H1 Hn.
    destruct (arg_useLocalStorage a); [|exact H1].
    destruct (localStorageAccessible w); [|exact H1].
    destruct post; [|exact H1].
    destruct (arg_bufferSize a =? 0) eqn:Hz; [exact H1|].
    apply Hn; auto. now apply Z.eqb_neq. }
  split; [|split; [|split]].
  - apply Hbuf; auto.
  - apply Hbuf; [discriminate | auto].
  - apply Hbuf; [congruence | auto].
  - apply (Hbuf (fun z => xhrSupported w && (1 <? z) = true ->
                          1 < z /\ post = true /\ xhrSupported w = true)).
    + intros Hf. apply andb_true_iff in Hf. destruct Hf as [_ Hf]. discriminate.
    + intros _ _ Hp _ Hf. apply andb_true_iff in Hf. destruct Hf as [Hx Hf].
      apply Z.ltb_lt in Hf. auto.
Qed.

(** X7.  The storage key determines the instance and the mode: two managers
    that use the same key have the same identifier and are both in POST mode
    or both in GET mode.  So a POST queue and a GET queue never share a
    slot, nor do two instances with different identifiers. *)
Theorem queueName_injective (h h' : Host) (w w' : Window) (a a' : Args) :
  queueName (fst (OutQueueManager h w a)) = queueName (fst (OutQueueManager h' w' a')) ->
  arg_id a = arg_id a'
  /\ usePost (fst (OutQueueManager h w a)) = usePost (fst (OutQueueManager h' w' a')).
Proof.
  unfold OutQueueManager. cbv zeta. cbn [fst queueName usePost].
  set (post := negb _ && xhrSupported w && _).
  set (post' := negb _ && xhrSupported w' && _).
  intros Hname. apply app_inv_head in Hname.
  destruct post; destruct post'.
  - split; [|reflexivity].
    rewrite !app_assoc in Hname.
    apply app_inv_tail in Hname. now apply app_inv_tail in Hname.
  - exfalso.
    change (str "_" ++ str "post2") with ((str "_post") ++ [50]) in Hname.
    change (str "_" ++ str "get") with ((str "_ge") ++ [116]) in Hname.
    rewrite !app_assoc in Hname. apply app_inj_tail in Hname.
    destruct Hname as [_ Hname]. discriminate.
  - exfalso.
    change (str "_" ++ str "post2") with ((str "_post") ++ [50]) in Hname.
    change (str "_" ++ str "get") with ((str "_ge") ++ [116]) in Hname.
    rewrite !app_assoc in Hname. apply app_inj_tail in Hname.
    destruct Hname as [_ Hname]. discriminate.
  - split; [|reflexivity].
    rewrite !app_assoc in Hname.
    apply app_inv_tail in Hname. now apply app_inv_tail in Hname.
Qed.

Lemma queueName_injective_witness :
  arg_id sampleArgs = arg_id sampleArgs
  /\ usePost (fst (OutQueueManager sampleHost sampleWindow sampleArgs))
     = usePost (fst (OutQueueManager sampleHost sampleWindow sampleArgs_buffer2)).
Proof.
  apply (queueName_injective sampleHost sampleHost sampleWindow sampleWindow
           sampleArgs sampleArgs_buffer2).
  reflexivity.
Defined.
(** ** The failsafe *)

Lemma dropBadHead_fixed (queue : list QueueItem) :
  dropBadHead (dropBadHead queue) = dropBadHead queue.
Proof.
  induction queue as [|x queue IH]; [reflexivity|].
  cbn [dropBadHead].
  destruct (negb (is_TString (typeof x)) && negb (is_TObject (typeof x))) eqn:Hx;
    [exact IH|].
  cbn [dropBadHead]. now rewrite Hx.
Qed.

(** X8.  The failsafe loop of [executeQueue] removes a front part of the
    queue and nothing else: what it removes are numbers and booleans only,
    what it leaves starts with a string or a value of type ['object'] (or is
    empty), strings and post-records are never removed, and running it again
    changes nothing. *)
Theorem dropBadHead_removes_leading_primitives (queue : list QueueItem) :
  exists dropped,
    queue = dropped ++ dropBadHead queue
    /\ Forall (fun x => typeof x = TNumber \/ typeof x = TBoolean) dropped
    /\ (forall x rest, dropBadHead queue = x :: rest ->
          typeof x = TString \/ typeof x = TObject)
    /\ (forall x, In x queue -> typeof x = TString \/ typeof x = TObject ->
          In x (dropBadHead queue))
    /\ dropBadHead (dropBadHead queue) = dropBadHead queue.
Proof.
  destruct (dropBadHead_suffix queue) as (d & Hd & Hlen & Hall).
  exists (firstn d queue).
  split; [rewrite Hd; symmetry; apply firstn_skipn|].
  split; [exact Hall|].
  split; [apply dropBadHead_head|].
  split; [|apply dropBadHead_fixed].
  intros x Hin Hty.
  rewrite <- (firstn_skipn d queue) in Hin. apply in_app_or in Hin.
  destruct Hin as [Hin|Hin]; [|now rewrite Hd].
  exfalso. rewrite Forall_forall in Hall. specialize (Hall x Hin).
  destruct Hty as [Hty|Hty]; rewrite Hty in Hall; destruct Hall; discriminate.
Qed.

(** ** Stamping *)

Lemma getEvtProp_setProp (key value : jsstring) (e : Evt) :
  getEvtProp key (setProp key value e) = Some value.
Proof.
  induction e as [|[k v] e IH]; cbn [setProp getEvtProp].
  - assert (Hkey : jsstring_eqb key key = true) by now apply jsstring_eqb_eq.
    now rewrite Hkey.
  - destruct (jsstring_eqb k key) eqn:Hk; cbn [getEvtProp]; now rewrite Hk.
Qed.

Lemma setProp_setProp (key v1 v2 : jsstring) (e : Evt) :
  setProp key v2 (setProp key v1 e) = setProp key v2 e.
Proof.
  induction e as [|[k v] e IH]; cbn [setProp].
  - assert (Hkey : jsstring_eqb key key = true) by now apply jsstring_eqb_eq.
    now rewrite Hkey.
  - destruct (jsstring_eqb k key) eqn:Hk; cbn [setProp]; rewrite Hk;
      [reflexivity | now rewrite IH].
Qed.

Lemma setProp_keys (key value : jsstring) (e : Evt) :
  map fst (setProp key value e)
  = if existsb (fun k => jsstring_eqb k key) (map fst e)
    then map fst e else map fst e ++ [key].
Proof.
  induction e as [|[k v] e IH]; [reflexivity|].
  cbn [setProp map fst existsb].
  destruct (jsstring_eqb k key) eqn:Hk; cbn [orb map fst]; [reflexivity|].
  rewrite IH. now destruct (existsb _ (map fst e)).
Qed.

(** X9.  [attachStmToEvent] on a batch of records writes the one time stamp
    into every record: each returned record reads [stm] as that stamp, is
    otherwise the record it was, and keeps its place; no field is
    duplicated (a record that had an [stm] field keeps its fields'
    names, one that had none gains exactly that name at the end); and
    stamping again with a later stamp leaves only the later one. *)
Theorem attachStmToEvent_stamps_all (stm stm' : jsstring) (evts : list Evt) :
  let stamped := attachStmToEvent stm (map Some evts) in
  snd stamped = false
  /\ present (fst stamped) = map (setProp (str "stm") stm) evts
  /\ Forall (fun e => getEvtProp (str "stm") e = Some stm) (present (fst stamped))
  /\ map eraseStmEvt (present (fst stamped)) = map eraseStmEvt evts
  /\ Forall2 (fun e e' =>
                map fst e'
                = if existsb (fun k => jsstring_eqb k (str "stm")) (map fst e)
                  then map fst e else map fst e ++ [str "stm"])
             evts (present (fst stamped))
  /\ fst (attachStmToEvent stm' (fst stamped)) = fst (attachStmToEvent stm' (map Some evts)).
Proof.
  cbv zeta. induction evts as [|e evts IH].
  - repeat split; constructor.
  - destruct IH as (Hthrough & Hpresent & Hstm & Herase & Hkeys & Hagain).
    cbn [map attachStmToEvent fst snd present].
    split; [exact Hthrough|].
    split; [now rewrite Hpresent|].
    split; [constructor; [apply getEvtProp_setProp | exact Hstm]|].
    split; [now rewrite eraseStmEvt_setProp, Herase|].
    split; [constructor; [apply setProp_keys | exact Hkeys]|].
    now rewrite setProp_setProp, Hagain.
Qed.

(** ** Responses *)

(** X10.  A completed response with a status outside 2xx halts the drain:
    the executing flag goes off, nothing is sent, and one failure is
    reported with the status, the status text, the batch and the
    classifier's verdict as [willRetry].  The batch leaves the queue exactly
    when the verdict is "do not retry", and then an error is logged.  A
    state change that is not completion (a [readyState] other than 4)
    changes nothing and reports nothing. *)
Theorem xhr_onreadystatechange_failure_halts
    (h : Host) (cfg : Config) (b : Browser) (n : nat) (batch : list BatchItem)
    (readyState statusCode : Z) (statusText : jsstring) (s : State) :
  let o := xhr_onreadystatechange h cfg b n batch readyState statusCode statusText s in
  let willRetry :=
    shouldRetryForStatusCode (retryFailedRequests cfg) (retryStatusCodes cfg)
                             (dontRetryStatusCodes cfg) statusCode in
  (readyState <> 4 -> o = done s)
  /\ (readyState = 4 -> isSuccessfulRequest statusCode = false ->
        executingQueue (state o) = false
        /\ thrown o = None
        /\ forallb (fun e => negb (isXhrSend e) && negb (isImageSrc e)) (effects o) = true
        /\ attempts (effects o) = []
        /\ filter (fun e => match e with OnRequestFailure _ => true | _ => false end)
                  (effects o)
           = callOnRequestFailure cfg (mkFailure statusCode statusText batch willRetry)
        /\ outQueue (state o)
           = (if willRetry then outQueue s else skipn n (outQueue s))
        /\ (existsb (fun e => match e with LogError _ => true | _ => false end)
                    (effects o) = negb willRetry)
        /\ pending (state o) = pending s).
Proof.
  cbv zeta. unfold xhr_onreadystatechange. cbv zeta. split.
  - intros Hready. apply Z.eqb_neq in Hready. now rewrite Hready.
  - intros Hready Hstatus. subst readyState. cbn [Z.eqb Pos.eqb]. rewrite Hstatus.
    destruct (shouldRetryForStatusCode _ _ _ statusCode); cbn [negb];
      unfold callOnRequestFailure; destruct (hasOnRequestFailure cfg);
      cbn; repeat split;
      try apply removeEventsFromQueue_outQueue;
      try apply removeEventsFromQueue_pending.
Qed.

(** ** Drains *)


(** X12.  [executeQueue] returns: whenever its body calls itself, the queue
    has become shorter, so a number of activations beyond the length of the
    queue is never needed and any larger bound gives the same outcome; and
    the queue it leaves is never longer than the one it found. *)
Theorem executeQueue_terminates
    (h : Host) (cfg : Config) (b : Browser) (sync : bool) (s : State) :
  (forall effs s',
      executeQueue_body h cfg b sync s = Recurse effs s' ->
      (length (outQueue s') < length (outQueue s))%nat)
  /\ (forall fuel,
        (length (outQueue s) < fuel)%nat ->
        executeQueue_fuel h cfg fuel b sync s = Some (executeQueue h cfg b sync s))
  /\ (length (outQueue (state (executeQueue h cfg b sync s))) <= length (outQueue s))%nat.
Proof.
  split; [|split].
  - intros effs s'. apply executeQueue_body_recurse_shorter.
  - intros fuel. apply executeQueue_fuel_enough.
  - destruct (executeQueue_drains h cfg b sync s) as (log & k & _ & Hrec & Hk).
    apply (f_equal (@length QueueItem)) in Hrec.
    rewrite length_skipn, !records_length in Hrec. lia.
Qed.

(** ** The queue of a POST manager *)

Lemma postBelow_eraseStm (maxBytes : Z) (x : QueueItem) :
  postBelow maxBytes (eraseStm x) = postBelow maxBytes x.
Proof. now destruct x. Qed.

Lemma forallb_postBelow_records (maxBytes : Z) (queue : list QueueItem) :
  forallb (postBelow maxBytes) (records queue) = forallb (postBelow maxBytes) queue.
Proof.
  induction queue as [|x queue IH]; [reflexivity|].
  cbn [records map forallb]. rewrite postBelow_eraseStm. f_equal. exact IH.
Qed.

Lemma forallb_skipn {A : Type} (f : A -> bool) (k : nat) :
  forall l : list A, forallb f l = true -> forallb f (skipn k l) = true.
Proof.
  induction k as [|k IH]; intros [|x l] Hall; try assumption.
  cbn [skipn]. apply IH. cbn [forallb] in Hall. now apply andb_true_iff in Hall.
Qed.

Lemma pushed_postBelow (h : Host) (cfg : Config) (b : Browser) (ev : Event) (s : State) :
  usePost cfg = true ->
  forallb (postBelow (maxPostBytes cfg)) (pushed h cfg b ev s) = true.
Proof.
  intros Hpost. destruct ev; try reflexivity.
  cbn [pushed]. rewrite Hpost.
  destruct (maxPostBytes cfg <=? bytes (getBody h request)) eqn:Hcap; [reflexivity|].
  cbn [forallb postBelow]. apply Z.leb_gt in Hcap.
  pose proof (getBody_bytes_nonneg h request) as Hnonneg.
  rewrite andb_true_r. apply andb_true_iff. split; [apply Z.leb_le|apply Z.ltb_lt]; lia.
Qed.

Lemma handle_postBelow (h : Host) (cfg : Config) (b : Browser) (ev : Event) (s : State) :
  usePost cfg = true ->
  forallb (postBelow (maxPostBytes cfg)) (outQueue s) = true ->
  forallb (postBelow (maxPostBytes cfg)) (outQueue (state (handle h cfg b ev s))) = true.
Proof.
  intros Hpost Hqueue.
  destruct (handle_drains h cfg b ev s) as (log & k & _ & Hrec & _).
  rewrite <- forallb_postBelow_records, Hrec.
  apply forallb_skipn. rewrite forallb_postBelow_records, forallb_app, Hqueue.
  now apply pushed_postBelow.
Qed.

Lemma postBelow_posts (maxBytes : Z) (queue : list QueueItem) :
  forallb (postBelow maxBytes) queue = true ->
  exists posts, queue = map Post posts /\ Forall (fun p => 0 <= bytes p < maxBytes) posts.
Proof.
  induction queue as [|x queue IH]; intros Hall.
  - exists []. split; [reflexivity|constructor].
  - cbn [forallb] in Hall. apply andb_true_iff in Hall. destruct Hall as [Hx Hall].
    destruct (IH Hall) as (posts & Hq & Hposts).
    destruct x as [p| | | |]; try discriminate.
    cbn [postBelow] in Hx. apply andb_true_iff in Hx. destruct Hx as [H0 Hmax].
    apply Z.leb_le in H0. apply Z.ltb_lt in Hmax.
    exists (p :: posts). split; [now rewrite Hq|].
    constructor; [lia|assumption].
Qed.

(** X13.  In a POST manager whose queue holds only post-records with sizes
    from zero to below the cap, every task leaves such a queue again:
    [enqueueRequest] diverts what is at or above the cap, and nothing else
    adds to the queue.  On such a queue the selection never comes out
    empty: when the queue is not empty, [chooseHowManyToSend] returns at
    least one, and the records it selects are together below the cap. *)
Theorem run_post_queue_below_cap
    (h : Host) (cfg : Config) (tasks : list (Browser * Event)) (s : State) :
  usePost cfg = true ->
  forallb (postBelow (maxPostBytes cfg)) (outQueue s) = true ->
  let queue := outQueue (fst (run h cfg tasks s)) in
  forallb (postBelow (maxPostBytes cfg)) queue = true
  /\ (queue <> [] ->
      exists (n : nat) (posts : list PostEvent),
        queue = map Post posts
        /\ chooseHowManyToSend (maxPostBytes cfg) queue = Returned n
        /\ (1 <= n <= length queue)%nat
        /\ total_bytes (firstn n posts) < maxPostBytes cfg).
Proof.
  intros Hpost Hqueue. cbv zeta.
  assert (Hinv : forallb (postBelow (maxPostBytes cfg))
                         (outQueue (fst (run h cfg tasks s))) = true).
  { revert s Hqueue. induction tasks as [|[b ev] rest IH]; intros s Hqueue; [exact Hqueue|].
    cbn [run fst]. apply IH. now apply handle_postBelow. }
  split; [exact Hinv|].
  intros Hne.
  destruct (postBelow_posts _ _ Hinv) as (posts & Hq & Hposts).
  destruct (chooseHowManyToSend_posts (maxPostBytes cfg) posts)
    as (n & Hn & Hlen & Hbelow & Hstop).
  exists n, posts. rewrite Hq in *. rewrite length_map.
  split; [reflexivity|]. split; [exact Hn|].
  destruct posts as [|p posts]; [now elim Hne|].
  assert (Hn1 : (1 <= n)%nat).
  { destruct n as [|n]; [exfalso|lia].
    specialize (Hstop ltac:(cbn [length]; lia)).
    inversion Hposts as [|? ? Hp _]; subst.
    cbn in Hstop. lia. }
  split; [lia|]. apply Hbelow. lia.
Qed.

Lemma run_post_queue_below_cap_witness :
  let queue := outQueue (fst (run sampleHost sampleConfig_buffer2 scenarioA sampleState_buffer2)) in
  forallb (postBelow (maxPostBytes sampleConfig_buffer2)) queue = true
  /\ (queue <> [] ->
      exists (n : nat) (posts : list PostEvent),
        queue = map Post posts
        /\ chooseHowManyToSend (maxPostBytes sampleConfig_buffer2) queue = Returned n
        /\ (1 <= n <= length queue)%nat
        /\ total_bytes (firstn n posts) < maxPostBytes sampleConfig_buffer2).
Proof.
  apply (run_post_queue_below_cap sampleHost sampleConfig_buffer2 scenarioA
           sampleState_buffer2).
  - reflexivity.
  - reflexivity.
Defined.

(** ** What a drain leaves alone *)

(** Case analysis on every test the body of [executeQueue] makes. *)
Ltac body_cases :=
  unfold executeQueue_body, sendBatch, setXhrCallbacks, andThen, emit, done, throw,
         removeEventsFromQueue, writeQueue, attemptWriteLocalStorage,
         callOnRequestSuccess;
  cbv zeta;
  repeat match goal with
         | |- context [match ?x with _ => _ end] =>
             lazymatch x with
             | context [match _ with _ => _ end] => fail
             | _ => destruct x eqn:?
             end
         end.

(** A property of [executeQueue] follows from the same property of its
    body, carried through the calls the body makes to itself. *)
Lemma executeQueue_induction
    (h : Host) (cfg : Config) (b : Browser) (P : State -> Outcome -> Prop) :
  (forall sync s o, executeQueue_body h cfg b sync s = Halt o -> P s o) ->
  (forall sync s effs s' o,
      executeQueue_body h cfg b sync s = Recurse effs s' ->
      P s' o -> P s (mkOutcome (state o) (effs ++ effects o) (thrown o))) ->
  forall sync s, P s (executeQueue h cfg b sync s).
Proof.
  intros Hhalt Hrec sync s.
  remember (length (outQueue s)) as m eqn:Hm.
  revert sync s Hm. induction m as [m IH] using lt_wf_ind. intros sync s Hm.
  rewrite executeQueue_unfold.
  destruct (executeQueue_body h cfg b sync s) as [o|effs s'] eqn:Hbody.
  - now apply (Hhalt sync).
  - cbv zeta. apply (Hrec sync s effs s' _ Hbody).
    apply (IH (length (outQueue s'))); [|reflexivity].
    subst m. now apply (executeQueue_body_recurse_shorter h cfg b sync s s' effs).
Qed.

(** The same, for a property that depends on the [sync] argument: the calls
    the body makes to itself pass none, so they run with [sync = false]. *)
Lemma executeQueue_induction_sync
    (h : Host) (cfg : Config) (b : Browser) (P : bool -> State -> Outcome -> Prop) :
  (forall sync s o, executeQueue_body h cfg b sync s = Halt o -> P sync s o) ->
  (forall sync s effs s' o,
      executeQueue_body h cfg b sync s = Recurse effs s' ->
      P false s' o -> P sync s (mkOutcome (state o) (effs ++ effects o) (thrown o))) ->
  forall sync s, P sync s (executeQueue h cfg b sync s).
Proof.
  intros Hhalt Hrec sync s.
  remember (length (outQueue s)) as m eqn:Hm.
  revert sync s Hm. induction m as [m IH] using lt_wf_ind. intros sync s Hm.
  rewrite executeQueue_unfold.
  destruct (executeQueue_body h cfg b sync s) as [o|effs s'] eqn:Hbody.
  - now apply (Hhalt sync).
  - cbv zeta. apply (Hrec sync s effs s' _ Hbody).
    apply (IH (length (outQueue s'))); [|reflexivity].
    subst m. now apply (executeQueue_body_recurse_shorter h cfg b sync s s' effs).
Qed.

Lemma drain_frame_refl (s : State) : drain_frame s s.
Proof. unfold drain_frame. tauto. Qed.

Lemma drain_frame_trans (s1 s2 s3 : State) :
  drain_frame s1 s2 -> drain_frame s2 s3 -> drain_frame s1 s3.
Proof.
  unfold drain_frame.
  intros (Hu & Hl & Ha & Hb & Hs & Hi) (Hu' & Hl' & Ha' & Hb' & Hs' & Hi').
  repeat split; try congruence.
  - intros Hoff. rewrite Hs' by congruence. auto.
  - auto.
Qed.

Lemma executeQueue_body_frame
    (h : Host) (cfg : Config) (b : Browser) (sync : bool) (s : State) :
  match executeQueue_body h cfg b sync s with
  | Halt o => drain_frame s (state o)
  | Recurse _ s' => drain_frame s s'
  end.
Proof.
  unfold drain_frame. body_cases; cbn in *; repeat split; congruence.
Qed.

Lemma executeQueue_frame
    (h : Host) (cfg : Config) (b : Browser) (sync : bool) (s : State) :
  drain_frame s (state (executeQueue h cfg b sync s)).
Proof.
  apply (executeQueue_induction h cfg b (fun s o => drain_frame s (state o))).
  - intros sync' s' o Hbody.
    pose proof (executeQueue_body_frame h cfg b sync' s') as Hframe.
    now rewrite Hbody in Hframe.
  - intros sync' s1 effs s2 o Hbody Hrest. cbn [state].
    pose proof (executeQueue_body_frame h cfg b sync' s1) as Hframe.
    rewrite Hbody in Hframe. now apply (drain_frame_trans s1 s2).
Qed.

Lemma removeEventsFromQueue_frame
    (h : Host) (cfg : Config) (b : Browser) (n : nat) (s : State) :
  drain_frame s (removeEventsFromQueue h cfg b n s).
Proof.
  unfold drain_frame, removeEventsFromQueue, writeQueue, attemptWriteLocalStorage.
  cbv zeta. cbn [useLocalStorage set_outQueue].
  destruct (useLocalStorage s) eqn:Hls; [destruct (storageWritable b _)|];
    cbn; repeat split; congruence.
Qed.

Lemma writeQueue_frame (h : Host) (cfg : Config) (b : Browser) (s : State) :
  drain_frame s (fst (if useLocalStorage s then writeQueue h cfg b s else (s, false))).
Proof.
  unfold writeQueue, attemptWriteLocalStorage.
  destruct (useLocalStorage s) eqn:Hls; [destruct (storageWritable b _)|];
    unfold drain_frame; cbn; repeat split; congruence.
Qed.

Lemma afterPush_frame (h : Host) (cfg : Config) (b : Browser) (s : State) :
  drain_frame s (state (afterPush h cfg b s)).
Proof.
  unfold afterPush. cbv zeta.
  destruct (_ && _); [|apply writeQueue_frame].
  eapply drain_frame_trans; [apply writeQueue_frame | apply executeQueue_frame].
Qed.

(** Steps that touch only the queue, the executing flag or the callbacks. *)
Ltac frame_step := unfold drain_frame; cbn; repeat split; congruence.

Lemma xhr_onreadystatechange_frame
    (h : Host) (cfg : Config) (b : Browser) (n : nat) (batch : list BatchItem)
    (readyState statusCode : Z) (statusText : jsstring) (s : State) :
  drain_frame s
    (state (xhr_onreadystatechange h cfg b n batch readyState statusCode statusText s)).
Proof.
  unfold xhr_onreadystatechange. cbv zeta.
  destruct (readyState =? 4); [|apply drain_frame_refl].
  destruct (isSuccessfulRequest statusCode).
  - unfold andThen, emit. cbn [thrown state].
    eapply drain_frame_trans;
      [apply (removeEventsFromQueue_frame h cfg b n) | apply executeQueue_frame].
  - destruct (negb _); cbn [emit state]; [|frame_step].
    eapply drain_frame_trans;
      [apply (removeEventsFromQueue_frame h cfg b n) | frame_step].
Qed.

Lemma xhrTimeout_frame
    (h : Host) (cfg : Config) (b : Browser) (n : nat) (batch : list BatchItem)
    (s : State) :
  drain_frame s (state (xhrTimeout h cfg b n batch s)).
Proof.
  unfold xhrTimeout. cbv zeta. cbn [state].
  eapply drain_frame_trans;
    [apply (xhr_onreadystatechange_frame h cfg b n batch 4 0 [])|].
  destruct (negb (retryFailedRequests cfg)); [|frame_step].
  eapply drain_frame_trans;
    [apply (removeEventsFromQueue_frame h cfg b n) | frame_step].
Qed.

(** Every task leaves the frame of the state as its setter, if it has one,
    made it. *)
Lemma handle_frame (h : Host) (cfg : Config) (b : Browser) (ev : Event) (s : State) :
  drain_frame
    (match ev with
     | CallEnqueueRequest _ url | CallSetCollectorUrl url => setCollectorUrl cfg url s
     | CallSetUseLocalStorage v => set_useLocalStorage v s
     | CallSetAnonymousTracking v => set_anonymousTracking v s
     | CallSetBufferSize v => set_bufferSize v s
     | _ => s
     end)
    (state (handle h cfg b ev s)).
Proof.
  destruct ev; cbn [handle]; try apply drain_frame_refl.
  - (* enqueueRequest *)
    unfold enqueueRequest, setCollectorUrl. cbv zeta.
    set (s0 := set_configCollectorUrl (Some (url ++ path cfg)) s).
    destruct (usePost cfg).
    + destruct (maxPostBytes cfg <=? _); [frame_step|].
      eapply drain_frame_trans; [|apply afterPush_frame]. frame_step.
    + destruct (_ && _); [destruct (useXhr cfg); frame_step|].
      eapply drain_frame_trans; [|apply afterPush_frame]. frame_step.
  - unfold public_executeQueue.
    destruct (negb _); [apply executeQueue_frame | apply drain_frame_refl].
  - unfold bufferFlusher. destruct (flusherRegistered cfg); [|apply drain_frame_refl].
    destruct (negb _); [apply executeQueue_frame | apply drain_frame_refl].
  - (* a response *)
    cbv zeta.
    set (s0 := if readyState =? 4 then set_pending (remove_nth i (pending s)) s else s).
    assert (Hs0 : drain_frame s s0) by (subst s0; destruct (readyState =? 4); frame_step).
    destruct (nth_error (pending s) i) as [[n batch| |armed|batch]|];
      try apply drain_frame_refl;
      (eapply drain_frame_trans; [exact Hs0|]).
    + unfold xhr_onreadystatechange. cbv zeta.
      destruct (readyState =? 4); [|apply drain_frame_refl].
      destruct (isSuccessfulRequest statusCode).
      * unfold andThen, emit. cbn [thrown state].
        eapply drain_frame_trans;
          [apply (removeEventsFromQueue_frame h cfg b n) | apply executeQueue_frame].
      * destruct (negb _); cbn [emit state]; [|frame_step].
        eapply drain_frame_trans;
          [apply (removeEventsFromQueue_frame h cfg b n) | frame_step].
    + unfold idService_onreadystatechange.
      destruct (readyState =? 4); [apply executeQueue_frame | apply drain_frame_refl].
    + unfold bypass_onreadystatechange.
      destruct (readyState =? 4); [|apply drain_frame_refl].
      destruct (isSuccessfulRequest statusCode); apply drain_frame_refl.
  - (* a timer *)
    destruct (nth_error (pending s) i) as [[n batch| |[|]|batch]|];
      try apply drain_frame_refl.
    + eapply drain_frame_trans; [|apply xhrTimeout_frame]. frame_step.
    + destruct (executingQueue s); [|frame_step].
      eapply drain_frame_trans; [|apply executeQueue_frame]. frame_step.
  - (* the pixel loads *)
    destruct (nth_error (pending s) i) as [[n batch| |armed|batch]|];
      try apply drain_frame_refl.
    unfold image_onload. cbv zeta.
    change (drain_frame s
              (state (executeQueue h cfg b false
                        (removeEventsFromQueue h cfg b 1
                           (set_pending (remove_nth i (pending s)) s))))).
    eapply drain_frame_trans; [|apply executeQueue_frame].
    eapply drain_frame_trans; [|apply (removeEventsFromQueue_frame h cfg b 1)].
    frame_step.
  - destruct (nth_error (pending s) i) as [[n batch| |armed|batch]|];
      try apply drain_frame_refl.
    unfold image_onerror. frame_step.
Qed.

(** X14.  While [useLocalStorage] is off, the manager never writes to
    storage: through any run of tasks in which [setUseLocalStorage(true)] is
    not called, the flag stays off and the stored text stays what it was,
    whatever is enqueued, sent, answered or timed out. *)
Theorem storage_untouched_while_off
    (h : Host) (cfg : Config) (tasks : list (Browser * Event)) (s : State) :
  forallb (fun t => negb (isStorageSwitch (snd t))) tasks = true ->
  useLocalStorage s = false ->
  useLocalStorage (fst (run h cfg tasks s)) = false
  /\ stored (fst (run h cfg tasks s)) = stored s.
Proof.
  revert s. induction tasks as [|[b ev] rest IH]; intros s Htasks Hoff; [now split|].
  cbn [forallb snd] in Htasks. apply andb_true_iff in Htasks.
  destruct Htasks as [Hev Hrest].
  cbn [run fst].
  pose proof (handle_frame h cfg b ev s) as (_ & Hl & _ & _ & Hs & _).
  assert (Hoff' : useLocalStorage (state (handle h cfg b ev s)) = false).
  { rewrite Hl. destruct ev; try exact Hoff. destruct v; [discriminate|reflexivity]. }
  assert (Hstored : stored (state (handle h cfg b ev s)) = stored s).
  { destruct ev; now apply Hs. }
  destruct (IH _ Hrest Hoff') as (Hfin & Hst).
  split; [exact Hfin | congruence].
Qed.

Lemma storage_untouched_while_off_witness :
  useLocalStorage
    (fst (run sampleHost sampleConfig scenarioD (set_useLocalStorage false sampleState)))
  = false
  /\ stored (fst (run sampleHost sampleConfig scenarioD
                      (set_useLocalStorage false sampleState)))
     = stored (set_useLocalStorage false sampleState).
Proof.
  apply (storage_untouched_while_off sampleHost sampleConfig scenarioD
           (set_useLocalStorage false sampleState)).
  - reflexivity.
  - reflexivity.
Defined.

(** ** One activation on a queue of post-records *)

Lemma dropBadHead_posts (posts : list PostEvent) :
  dropBadHead (map Post posts) = map Post posts.
Proof. now destruct posts. Qed.

Lemma executeQueue_body_posts
    (h : Host) (cfg : Config) (b : Browser) (sync : bool) (s : State)
    (posts : list PostEvent) (u : jsstring) :
  outQueue s = map Post posts ->
  posts <> [] ->
  configCollectorUrl s = Some u ->
  (if idServiceCalled s then None else idService_truthy cfg) = None ->
  useXhr cfg = true ->
  exists n,
    chooseHowManyToSend (maxPostBytes cfg) (map Post posts) = Returned n
    /\ (n <= length posts)%nat
    /\ let stamped := map (stampPost (stm_now h b)) (firstn n posts) in
       let evts := map evt stamped in
       let s2 := set_outQueue (map Post stamped ++ map Post (skipn n posts))
                              (set_executingQueue true s) in
       match executeQueue_body h cfg b sync s with
       | Recurse effs s' =>
           useBeacon cfg = true /\ sendBeacon b u evts = true /\ (1 <= n)%nat
           /\ effs = BeaconSend u (encloseInPayloadDataEnvelope h evts) true
                       :: callOnRequestSuccess cfg (map BQueued (map Post stamped))
           /\ s' = removeEventsFromQueue h cfg b n s2
       | Halt o =>
           thrown o = None
           /\ (useBeacon cfg = true -> (1 <= n)%nat -> sendBeacon b u evts = false)
       end.
Proof.
  intros Hq Hne Hurl Hid Hxhr.
  destruct (chooseHowManyToSend_posts (maxPostBytes cfg) posts) as (n & Hn & Hlen & _).
  exists n. split; [exact Hn|]. split; [exact Hlen|]. cbv zeta.
  unfold executeQueue_body. cbv zeta.
  cbn [outQueue set_outQueue set_executingQueue configCollectorUrl idServiceCalled
       anonymousTracking].
  rewrite Hq, dropBadHead_posts, Hurl, Hid, Hxhr. cbn [isString negb].
  destruct posts as [|p0 ps0]; [now elim Hne|].
  cbn [map]. cbn [postable typeof is_TObject evt_in].
  change (Post p0 :: map Post ps0) with (map Post (p0 :: ps0)).
  set (posts := p0 :: ps0) in *.
  rewrite Hn. rewrite firstn_map.
  unfold collectorUrl_text. cbn [configCollectorUrl set_executingQueue set_outQueue].
  rewrite Hurl.
  pose proof (firstn_length_le posts Hlen) as Hbl.
  pose proof (firstn_skipn n posts) as Hsplit.
  destruct (firstn n posts) as [|x batch] eqn:Hbatch.
  - cbn [map]. split; [reflexivity|]. intros _ Hn1. exfalso. cbn in Hbl. lia.
  - assert (Hn1 : (1 <= n)%nat) by (cbn in Hbl; lia).
    assert (Halias :
              aliased (map (fun p => Some (evt (stampPost (stm_now h b) p))) (x :: batch))
                      (map Post posts)
              = map Post (map (stampPost (stm_now h b)) (x :: batch))
                ++ map Post (skipn n posts)).
    { rewrite <- Hsplit at 1. rewrite map_app. apply aliased_posts. }
    assert (Hfront :
              firstn n (map Post (map (stampPost (stm_now h b)) (x :: batch))
                        ++ map Post (skipn n posts))
              = map Post (map (stampPost (stm_now h b)) (x :: batch))).
    { rewrite <- Hbl at 1.
      rewrite <- (length_map (stampPost (stm_now h b)) (x :: batch)).
      rewrite <- (length_map Post). apply firstn_exact. }
    assert (Hstamp :
              map (fun p => Some (evt (stampPost (stm_now h b) p))) (x :: batch)
              = map (fun p => Some (evt p)) (map (stampPost (stm_now h b)) (x :: batch)))
      by now rewrite map_map.
    assert (Hevts :
              map (fun p => evt (stampPost (stm_now h b) p)) (x :: batch)
              = map evt (map (stampPost (stm_now h b)) (x :: batch)))
      by now rewrite map_map.
    change (match map Post (x :: batch) with
            | [] => ?a
            | y :: l => @?f y l
            end) with (f (Post x) (map Post batch)).
    cbv beta.
    change (Post x :: map Post batch) with (map Post (x :: batch)).
    rewrite map_evt_posts.
    destruct (useBeacon cfg) eqn:Hbeacon.
    + rewrite attachStmToEvent_posts. cbn [fst snd]. rewrite present_posts.
      rewrite Halias, Hevts.
      destruct (sendBeacon b u _) eqn:Hsent.
      * split; [reflexivity|]. split; [reflexivity|]. split; [exact Hn1|].
        cbn [outQueue set_outQueue]. rewrite Hfront. split; reflexivity.
      * split; [|intros _ _; reflexivity].
        unfold andThen, emit, sendBatch. cbv zeta. cbn [thrown state].
        rewrite Hstamp, attachStmToEvent_posts. reflexivity.
    + split; [|discriminate].
      unfold sendBatch. cbv zeta. rewrite attachStmToEvent_posts. reflexivity.
Qed.

(** ** Exceptions *)

Lemma isPost_posts (queue : list QueueItem) :
  forallb isPost queue = true -> exists posts, queue = map Post posts.
Proof.
  induction queue as [|x queue IH]; intros Hall; [now exists []|].
  cbn [forallb] in Hall. apply andb_true_iff in Hall. destruct Hall as [Hx Hall].
  destruct (IH Hall) as (posts & Hq). destruct x as [p| | | |]; try discriminate.
  exists (p :: posts). now rewrite Hq.
Qed.

Lemma forallb_map_same {A : Type} (f : A -> bool) (g : A -> A) (l : list A) :
  (forall x, f (g x) = f x) -> forallb f (map g l) = forallb f l.
Proof.
  intros Hfg. induction l as [|x l IH]; [reflexivity|].
  cbn [map forallb]. now rewrite Hfg, IH.
Qed.

Lemma sameShape_records (queue : list QueueItem) :
  sameShape (records queue) = sameShape queue.
Proof.
  unfold sameShape, records.
  rewrite (forallb_map_same isPost eraseStm) by (intros x; now destruct x).
  rewrite (forallb_map_same isQueryString eraseStm) by (intros x; now destruct x).
  reflexivity.
Qed.

Lemma sameShape_skipn (k : nat) (queue : list QueueItem) :
  sameShape queue = true -> sameShape (skipn k queue) = true.
Proof.
  unfold sameShape. intros Hs. apply orb_true_iff in Hs. apply orb_true_iff.
  destruct Hs as [Hs|Hs]; [left|right]; now apply forallb_skipn.
Qed.

(** On a queue of one shape, with the URL set, an activation throws nothing
    of its own; what is left is the timeout setter of a synchronous call to
    the identity service. *)
Lemma executeQueue_body_no_throw
    (h : Host) (cfg : Config) (b : Browser) (sync : bool) (s : State) :
  sameShape (outQueue s) = true ->
  isString (configCollectorUrl s) = true ->
  match executeQueue_body h cfg b sync s with
  | Halt o => thrown o = None \/ (sync = true /\ thrown o = Some InvalidAccessError)
  | Recurse _ _ => True
  end.
Proof.
  intros Hshape Hurl.
  destruct (configCollectorUrl s) as [u|] eqn:Hu; [clear Hurl|discriminate].
  unfold sameShape in Hshape. apply orb_true_iff in Hshape.
  destruct Hshape as [Hposts|Hstrings].
  - destruct (isPost_posts _ Hposts) as (posts & Hq).
    destruct posts as [|p0 ps0].
    { unfold executeQueue_body. cbv zeta. cbn [outQueue set_outQueue].
      rewrite Hq. now left. }
    destruct (if idServiceCalled s then None else idService_truthy cfg) as [idUrl|] eqn:Hid;
      [|destruct (useXhr cfg) eqn:Hxhr].
    + unfold executeQueue_body. cbv zeta.
      cbn [outQueue set_outQueue set_executingQueue configCollectorUrl idServiceCalled].
      rewrite Hq. cbn [map dropBadHead typeof is_TString is_TObject negb andb].
      rewrite Hu, Hid. cbn [isString negb].
      destruct sync; [right; now split | now left].
    + destruct (executeQueue_body_posts h cfg b sync s (p0 :: ps0) u Hq
                  ltac:(discriminate) Hu Hid Hxhr) as (n & _ & _ & Hbody).
      cbv zeta in Hbody.
      destruct (executeQueue_body h cfg b sync s); [left; apply Hbody | exact I].
    + unfold executeQueue_body. cbv zeta.
      cbn [outQueue set_outQueue set_executingQueue configCollectorUrl idServiceCalled
           anonymousTracking].
      rewrite Hq. cbn [map dropBadHead typeof is_TString is_TObject negb andb].
      rewrite Hu, Hid, Hxhr. cbn.
      destruct (anonymousTracking s); now left.
  - unfold executeQueue_body. cbv zeta.
    cbn [outQueue set_outQueue set_executingQueue configCollectorUrl idServiceCalled
         anonymousTracking].
    destruct (outQueue s) as [|[p|qs| | |] tl]; try discriminate; [now left|].
    cbn [dropBadHead typeof is_TString is_TObject negb andb].
    rewrite Hu. cbn [isString negb].
    destruct (if idServiceCalled s then None else idService_truthy cfg).
    { destruct sync; [right; now split | now left]. }
    cbn [postable typeof is_TObject createGetUrl_head].
    destruct (useXhr cfg); [now left|].
    destruct (anonymousTracking s); now left.
Qed.

Lemma executeQueue_no_throw
    (h : Host) (cfg : Config) (b : Browser) (sync : bool) (s : State) :
  sameShape (outQueue s) = true ->
  isString (configCollectorUrl s) = true ->
  thrown (executeQueue h cfg b sync s) = None
  \/ (sync = true /\ thrown (executeQueue h cfg b sync s) = Some InvalidAccessError).
Proof.
  apply (executeQueue_induction_sync h cfg b
           (fun sync s o =>
              sameShape (outQueue s) = true ->
              isString (configCollectorUrl s) = true ->
              thrown o = None \/ (sync = true /\ thrown o = Some InvalidAccessError))).
  - intros sync' s' o Hbody Hshape Hurl.
    pose proof (executeQueue_body_no_throw h cfg b sync' s' Hshape Hurl) as Hno.
    now rewrite Hbody in Hno.
  - intros sync' s1 effs s2 o Hbody Hrest Hshape Hurl. cbn [thrown].
    left.
    assert (Hrec : thrown o = None
                   \/ (false = true /\ thrown o = Some InvalidAccessError)).
    { apply Hrest.
      - destruct (executeQueue_body_drains h cfg b sync' s1) as (d & _ & Hspec).
        rewrite Hbody in Hspec. destruct Hspec as (log & n & _ & _ & _ & Hrec).
        rewrite <- sameShape_records, Hrec. apply sameShape_skipn.
        now rewrite sameShape_records.
      - pose proof (executeQueue_body_frame h cfg b sync' s1) as Hframe.
        rewrite Hbody in Hframe. destruct Hframe as (Hsame & _). now rewrite Hsame. }
    destruct Hrec as [Hnone|(Hsync & _)]; [exact Hnone | discriminate].
Qed.

Lemma executeQueue_async_no_throw
    (h : Host) (cfg : Config) (b : Browser) (s : State) :
  sameShape (outQueue s) = true ->
  isString (configCollectorUrl s) = true ->
  thrown (executeQueue h cfg b false s) = None.
Proof.
  intros Hshape Hurl.
  destruct (executeQueue_no_throw h cfg b false s Hshape Hurl) as [Hnone|(Hsync & _)];
    [exact Hnone | discriminate].
Qed.

Lemma wellTyped_sameShape (cfg : Config) (queue : list QueueItem) :
  wellTyped cfg queue = true -> sameShape queue = true.
Proof.
  unfold wellTyped, sameShape. intros Hw. apply orb_true_iff.
  destruct (usePost cfg); [now left | now right].
Qed.

Lemma wellTyped_records (cfg : Config) (queue : list QueueItem) :
  wellTyped cfg (records queue) = wellTyped cfg queue.
Proof.
  unfold wellTyped, records. destruct (usePost cfg).
  - apply forallb_map_same. intros x. now destruct x.
  - apply forallb_map_same. intros x. now destruct x.
Qed.

Lemma wellTyped_skipn (cfg : Config) (k : nat) (queue : list QueueItem) :
  wellTyped cfg queue = true -> wellTyped cfg (skipn k queue) = true.
Proof. unfold wellTyped. destruct (usePost cfg); apply forallb_skipn. Qed.

Lemma wellTyped_app (cfg : Config) (q1 q2 : list QueueItem) :
  wellTyped cfg (q1 ++ q2) = wellTyped cfg q1 && wellTyped cfg q2.
Proof. unfold wellTyped. destruct (usePost cfg); apply forallb_app. Qed.

Lemma pushed_wellTyped (h : Host) (cfg : Config) (b : Browser) (ev : Event) (s : State) :
  wellTyped cfg (pushed h cfg b ev s) = true.
Proof.
  unfold wellTyped. destruct ev; cbn [pushed]; try (now destruct (usePost cfg)).
  destruct (usePost cfg).
  - now destruct (maxPostBytes cfg <=? _).
  - now destruct (_ && _).
Qed.

Lemma handle_wellTyped (h : Host) (cfg : Config) (b : Browser) (ev : Event) (s : State) :
  wellTyped cfg (outQueue s) = true ->
  wellTyped cfg (outQueue (state (handle h cfg b ev s))) = true.
Proof.
  intros Hw.
  destruct (handle_drains h cfg b ev s) as (log & k & _ & Hrec & _).
  rewrite <- wellTyped_records, Hrec. apply wellTyped_skipn.
  now rewrite wellTyped_records, wellTyped_app, Hw, pushed_wellTyped.
Qed.

Lemma removeEventsFromQueue_no_throw
    (h : Host) (cfg : Config) (b : Browser) (n : nat) (s : State) :
  sameShape (outQueue s) = true ->
  isString (configCollectorUrl s) = true ->
  thrown (executeQueue h cfg b false (removeEventsFromQueue h cfg b n s)) = None.
Proof.
  intros Hshape Hurl. apply executeQueue_async_no_throw.
  - rewrite removeEventsFromQueue_outQueue. now apply sameShape_skipn.
  - destruct (removeEventsFromQueue_frame h cfg b n s) as (Hsame & _). now rewrite Hsame.
Qed.

Lemma afterPush_no_throw (h : Host) (cfg : Config) (b : Browser) (s : State) :
  sameShape (outQueue s) = true ->
  isString (configCollectorUrl s) = true ->
  thrown (afterPush h cfg b s) = None.
Proof.
  intros Hshape Hurl. unfold afterPush. cbv zeta.
  destruct (_ && _); [|reflexivity].
  apply executeQueue_async_no_throw.
  - destruct (useLocalStorage s); [|exact Hshape]. now rewrite writeQueue_outQueue.
  - destruct (writeQueue_frame h cfg b s) as (Hsame & _). now rewrite Hsame.
Qed.

(** What a task can end in, on a queue of the transport's shape with the
    URL set: nothing, or the exception of the timeout setter when the
    flusher runs [executeQueue] synchronously. *)
Lemma handle_thrown
    (h : Host) (cfg : Config) (b : Browser) (ev : Event) (s : State) :
  wellTyped cfg (outQueue s) = true ->
  isString (configCollectorUrl s) || setsCollectorUrl ev = true ->
  thrown (handle h cfg b ev s) = None
  \/ (ev = CallBufferFlusher true
      /\ thrown (handle h cfg b ev s) = Some InvalidAccessError).
Proof.
  intros Hw Hurl.
  pose proof (wellTyped_sameShape cfg _ Hw) as Hshape.
  destruct ev; cbn [handle]; cbn [setsCollectorUrl] in Hurl;
    rewrite ?orb_false_r in Hurl; try (now left).
  - (* enqueueRequest *)
    left. unfold enqueueRequest. cbv zeta.
    destruct (usePost cfg) eqn:Hpost.
    + destruct (maxPostBytes cfg <=? _); [reflexivity|].
      apply afterPush_no_throw; [|reflexivity].
      apply (wellTyped_sameShape cfg). cbn [outQueue set_outQueue set_configCollectorUrl].
      rewrite wellTyped_app, Hw. unfold wellTyped. now rewrite Hpost.
    + destruct (_ && _); [now destruct (useXhr cfg)|].
      apply afterPush_no_throw; [|reflexivity].
      apply (wellTyped_sameShape cfg). cbn [outQueue set_outQueue set_configCollectorUrl].
      rewrite wellTyped_app, Hw. unfold wellTyped. now rewrite Hpost.
  - left. unfold public_executeQueue.
    destruct (negb _); [now apply executeQueue_async_no_throw | reflexivity].
  - unfold bufferFlusher. destruct (flusherRegistered cfg); [|now left].
    destruct (negb _); [|now left].
    destruct (executeQueue_no_throw h cfg b sync s Hshape Hurl) as [Hnone|(Hsync & Hthrown)];
      [now left | right]. subst sync. now split.
  - (* a response *)
    left. cbv zeta.
    set (s0 := if readyState =? 4 then set_pending (remove_nth i (pending s)) s else s).
    assert (Hshape0 : sameShape (outQueue s0) = true)
      by (subst s0; now destruct (readyState =? 4)).
    assert (Hurl0 : isString (configCollectorUrl s0) = true)
      by (subst s0; now destruct (readyState =? 4)).
    destruct (nth_error (pending s) i) as [[n batch| |armed|batch]|]; try reflexivity.
    + unfold xhr_onreadystatechange. cbv zeta.
      destruct (readyState =? 4); [|reflexivity].
      destruct (isSuccessfulRequest statusCode).
      * unfold andThen, emit. cbn [thrown state].
        now apply removeEventsFromQueue_no_throw.
      * now destruct (negb _).
    + unfold idService_onreadystatechange.
      destruct (readyState =? 4); [now apply executeQueue_async_no_throw | reflexivity].
    + unfold bypass_onreadystatechange.
      destruct (readyState =? 4); [|reflexivity].
      now destruct (isSuccessfulRequest statusCode).
  - (* a timer *)
    left.
    destruct (nth_error (pending s) i) as [[n batch| |[|]|batch]|]; try reflexivity.
    destruct (executingQueue s); [|reflexivity].
    now apply executeQueue_async_no_throw.
  - (* the pixel loads *)
    left.
    destruct (nth_error (pending s) i) as [[n batch| |armed|batch]|]; try reflexivity.
    change (thrown (executeQueue h cfg b false
                      (removeEventsFromQueue h cfg b 1
                         (set_pending (remove_nth i (pending s)) s))) = None).
    now apply removeEventsFromQueue_no_throw.
  - left. destruct (nth_error (pending s) i) as [[n batch| |armed|batch]|]; reflexivity.
Qed.

(** X15.  A manager whose queue holds only what its transport pushes
    (post-records under POST, query strings under GET) and whose collector
    URL is set raises neither of the manager's own two exceptions: no task
    ends in a [TypeError] from reading a queue entry or in 'No collector
    configured'.  Every task leaves such a state again; [enqueueRequest] and
    [setCollectorUrl] set the URL themselves and need only the queue.  So
    those two exceptions can come only from entries that storage brought
    in, or from a drain started before any URL was given.  Exceptions that
    the browser's own calls raise (the timeout setter on a synchronous
    request, [encodeURIComponent] on an unpaired surrogate,
    [XMLHttpRequest.open] on a URL it cannot parse) are a different matter
    and are not excluded here. *)
Theorem handle_no_TypeError
    (h : Host) (cfg : Config) (b : Browser) (ev : Event) (s : State) :
  wellTyped cfg (outQueue s) = true ->
  isString (configCollectorUrl s) || setsCollectorUrl ev = true ->
  let o := handle h cfg b ev s in
  thrown o <> Some TypeError
  /\ thrown o <> Some NoCollectorConfigured
  /\ wellTyped cfg (outQueue (state o)) = true
  /\ isString (configCollectorUrl (state o)) = true.
Proof.
  intros Hw Hurl. cbv zeta.
  pose proof (handle_thrown h cfg b ev s Hw Hurl) as Hthrown.
  split; [destruct Hthrown as [Ht|(_ & Ht)]; rewrite Ht; discriminate|].
  split; [destruct Hthrown as [Ht|(_ & Ht)]; rewrite Ht; discriminate|].
  split; [now apply handle_wellTyped|].
  destruct (handle_frame h cfg b ev s) as (Hsame & _). rewrite Hsame.
  destruct ev; cbn [setsCollectorUrl] in Hurl; rewrite ?orb_false_r in Hurl;
    try exact Hurl; reflexivity.
Qed.

Lemma handle_no_TypeError_witness :
  let o := handle sampleHost sampleConfig sampleBrowser
                  (CallEnqueueRequest (samplePayload 1) (str "https://collector.example"))
                  sampleState in
  thrown o <> Some TypeError
  /\ thrown o <> Some NoCollectorConfigured
  /\ wellTyped sampleConfig (outQueue (state o)) = true
  /\ isString (configCollectorUrl (state o)) = true.
Proof.
  apply (handle_no_TypeError sampleHost sampleConfig sampleBrowser
           (CallEnqueueRequest (samplePayload 1) (str "https://collector.example"))
           sampleState).
  - reflexivity.
  - reflexivity.
Defined.

(** ** The configuration error *)

Lemma postable_threw (queue : list QueueItem) (e : JsError) :
  postable queue = Threw e -> e = TypeError.
Proof.
  destruct queue as [|[p|q| |z|v] tl]; cbn; congruence.
Qed.

Lemma chooseHowManyToSend_loop_threw (maxBytes : Z) (rest : list QueueItem) (e : JsError) :
  forall n acc, chooseHowManyToSend_loop maxBytes rest n acc = Threw e -> e = TypeError.
Proof.
  induction rest as [|x rest IH]; intros n acc Hthrew; cbn in Hthrew; [discriminate|].
  destruct x as [p|q| |z|v]; cbn in Hthrew; try congruence;
    destruct (number_geb _ _); try discriminate; now apply IH in Hthrew.
Qed.

Lemma chooseHowManyToSend_threw (maxBytes : Z) (queue : list QueueItem) (e : JsError) :
  chooseHowManyToSend maxBytes queue = Threw e -> e = TypeError.
Proof. apply chooseHowManyToSend_loop_threw. Qed.

Lemma map_evt_threw (batch : list QueueItem) (e : JsError) :
  map_evt batch = Threw e -> e = TypeError.
Proof.
  induction batch as [|x batch IH]; intros Hthrew; cbn in Hthrew; [discriminate|].
  destruct x as [p|q| |z|v]; cbn in Hthrew; try congruence;
    destruct (map_evt batch); try discriminate; apply IH; congruence.
Qed.

Lemma createGetUrl_head_threw
    (h : Host) (cfg : Config) (b : Browser) (s : State) (x : QueueItem) (e : JsError) :
  createGetUrl_head h cfg b s x = Threw e -> e = TypeError.
Proof.
  destruct x as [p|q| |z|v]; cbn; destruct (useStm cfg); congruence.
Qed.

Ltac threw_TypeError :=
  repeat match goal with
         | H : postable _ = Threw _ |- _ => apply postable_threw in H
         | H : chooseHowManyToSend _ _ = Threw _ |- _ => apply chooseHowManyToSend_threw in H
         | H : map_evt _ = Threw _ |- _ => apply map_evt_threw in H
         | H : createGetUrl_head _ _ _ _ _ = Threw _ |- _ => apply createGetUrl_head_threw in H
         end.

Lemma executeQueue_body_not_configured
    (h : Host) (cfg : Config) (b : Browser) (sync : bool) (s : State) :
  match executeQueue_body h cfg b sync s with
  | Halt o =>
      thrown o = Some NoCollectorConfigured ->
      configCollectorUrl s = None /\ effects o = []
  | Recurse _ _ => isString (configCollectorUrl s) = true
  end.
Proof.
  body_cases; threw_TypeError; subst;
    cbn [thrown effects state configCollectorUrl set_outQueue set_executingQueue] in *;
    try discriminate.
  all: try (intros _; split; [|reflexivity]).
  all: try (destruct (configCollectorUrl s); [discriminate | reflexivity]).
  all: try (destruct (configCollectorUrl s); [reflexivity | discriminate]).
Qed.

Lemma executeQueue_not_configured
    (h : Host) (cfg : Config) (b : Browser) (sync : bool) (s : State) :
  thrown (executeQueue h cfg b sync s) = Some NoCollectorConfigured ->
  configCollectorUrl s = None /\ effects (executeQueue h cfg b sync s) = [].
Proof.
  apply (executeQueue_induction h cfg b
           (fun s o => thrown o = Some NoCollectorConfigured ->
                       configCollectorUrl s = None /\ effects o = [])).
  - intros sync' s' o Hbody.
    pose proof (executeQueue_body_not_configured h cfg b sync' s') as Hspec.
    now rewrite Hbody in Hspec.
  - intros sync' s1 effs s2 o Hbody Hrest Hthrown. cbn [thrown] in Hthrown.
    exfalso.
    pose proof (executeQueue_body_not_configured h cfg b sync' s1) as Hspec.
    pose proof (executeQueue_body_frame h cfg b sync' s1) as Hframe.
    rewrite Hbody in Hspec, Hframe. destruct Hframe as (Hsame & _).
    destruct (Hrest Hthrown) as (Hnone & _).
    rewrite Hsame in Hnone. now rewrite Hnone in Hspec.
Qed.

(** ** The shape of a task *)

Lemma quiet_callOnRequestSuccess (cfg : Config) (batch : list BatchItem) :
  forallb isQuiet (callOnRequestSuccess cfg batch) = true.
Proof. unfold callOnRequestSuccess. now destruct (hasOnRequestSuccess cfg). Qed.

Lemma quiet_callOnRequestFailure (cfg : Config) (f : RequestFailure) :
  forallb isQuiet (callOnRequestFailure cfg f) = true.
Proof. unfold callOnRequestFailure. now destruct (hasOnRequestFailure cfg). Qed.

Lemma removeEventsFromQueue_idServiceCalled
    (h : Host) (cfg : Config) (b : Browser) (n : nat) (s : State) :
  idServiceCalled (removeEventsFromQueue h cfg b n s) = idServiceCalled s.
Proof.
  unfold removeEventsFromQueue, writeQueue, attemptWriteLocalStorage. cbv zeta.
  cbn [useLocalStorage set_outQueue].
  destruct (useLocalStorage s); [destruct (storageWritable b _)|]; reflexivity.
Qed.

Lemma xhrTimeout_quiet
    (h : Host) (cfg : Config) (b : Browser) (n : nat) (batch : list BatchItem)
    (s : State) :
  forallb isQuiet (effects (xhrTimeout h cfg b n batch s)) = true.
Proof.
  destruct (xhrTimeout_runs_both_handlers h cfg b n batch s) as (Heffs & _).
  cbv zeta in Heffs. rewrite Heffs.
  cbn [forallb isQuiet andb]. rewrite !forallb_app, !quiet_callOnRequestFailure.
  now destruct (shouldRetryForStatusCode _ _ _ 0).
Qed.

Lemma xhrTimeout_idServiceCalled
    (h : Host) (cfg : Config) (b : Browser) (n : nat) (batch : list BatchItem)
    (s : State) :
  idServiceCalled (state (xhrTimeout h cfg b n batch s)) = idServiceCalled s.
Proof.
  unfold xhrTimeout, xhr_onreadystatechange. cbv zeta.
  change (4 =? 4) with true. change (isSuccessfulRequest 0) with false. cbv iota.
  destruct (negb (shouldRetryForStatusCode _ _ _ 0));
    destruct (negb (retryFailedRequests cfg));
    repeat (progress (rewrite ?removeEventsFromQueue_idServiceCalled;
                      cbn [emit state idServiceCalled set_executingQueue]));
    reflexivity.
Qed.

(** Every task is one of three things: quiet steps followed by
    [executeQueue]; quiet steps only; or the diversion of an oversized
    event. *)
Lemma handle_decompose (h : Host) (cfg : Config) (b : Browser) (ev : Event) (s : State) :
  let o := handle h cfg b ev s in
  (exists effs s0 sync,
      o = emit effs s0 >>> executeQueue h cfg b sync
      /\ forallb isQuiet effs = true
      /\ drain_frame (afterSetter cfg ev s) s0
      /\ idServiceCalled s0 = idServiceCalled s)
  \/ (thrown o = None
      /\ forallb isQuiet (effects o) = true
      /\ drain_frame (afterSetter cfg ev s) (state o)
      /\ idServiceCalled (state o) = idServiceCalled s)
  \/ (exists request url0 url nbytes maxBytes,
        ev = CallEnqueueRequest request url0
        /\ o = emit [eventTooBigWarning h nbytes maxBytes] (setCollectorUrl cfg url0 s)
                 >>> sendPostRequestWithoutQueueing h cfg b (getBody h request) url).
Proof.
  cbv zeta.
  assert (Hquiet : forall s0 : State,
             drain_frame (afterSetter cfg ev s) s0 ->
             idServiceCalled s0 = idServiceCalled s ->
             thrown (done s0) = None
             /\ forallb isQuiet (effects (done s0)) = true
             /\ drain_frame (afterSetter cfg ev s) (state (done s0))
             /\ idServiceCalled (state (done s0)) = idServiceCalled s)
    by (intros s0 Hf Hi; split; [reflexivity|]; split; [reflexivity|]; split; assumption).
  assert (Hexec : forall sync (s0 : State),
             drain_frame (afterSetter cfg ev s) s0 ->
             idServiceCalled s0 = idServiceCalled s ->
             exists effs s1 sync',
               executeQueue h cfg b sync s0 = emit effs s1 >>> executeQueue h cfg b sync'
               /\ forallb isQuiet effs = true
               /\ drain_frame (afterSetter cfg ev s) s1
               /\ idServiceCalled s1 = idServiceCalled s).
  { intros sync s0 Hf Hi. exists [], s0, sync.
    split; [apply andThen_done|]. split; [reflexivity|]. split; assumption. }
  destruct ev; cbn [handle].
  - (* enqueueRequest *)
    unfold enqueueRequest. cbv zeta.
    destruct (usePost cfg).
    + destruct (maxPostBytes cfg <=? _).
      * right. right. do 5 eexists. split; reflexivity.
      * unfold afterPush. cbv zeta.
        set (s1 := set_outQueue _ _).
        assert (Hw : drain_frame (afterSetter cfg (CallEnqueueRequest request url) s)
                       (fst (if useLocalStorage s1 then writeQueue h cfg b s1
                             else (s1, false)))).
        { eapply drain_frame_trans; [|apply writeQueue_frame]. subst s1. frame_step. }
        assert (Hi : idServiceCalled
                       (fst (if useLocalStorage s1 then writeQueue h cfg b s1
                             else (s1, false))) = idServiceCalled s).
        { unfold writeQueue, attemptWriteLocalStorage.
          destruct (useLocalStorage s1); [destruct (storageWritable b _)|]; reflexivity. }
        destruct (_ && _); [left; now apply Hexec | right; left; now apply Hquiet].
    + destruct (_ && _).
      * destruct (useXhr cfg).
        -- right. right. do 5 eexists. split; reflexivity.
        -- right. left. repeat split; frame_step.
      * unfold afterPush. cbv zeta.
        set (s1 := set_outQueue _ _).
        assert (Hw : drain_frame (afterSetter cfg (CallEnqueueRequest request url) s)
                       (fst (if useLocalStorage s1 then writeQueue h cfg b s1
                             else (s1, false)))).
        { eapply drain_frame_trans; [|apply writeQueue_frame]. subst s1. frame_step. }
        assert (Hi : idServiceCalled
                       (fst (if useLocalStorage s1 then writeQueue h cfg b s1
                             else (s1, false))) = idServiceCalled s).
        { unfold writeQueue, attemptWriteLocalStorage.
          destruct (useLocalStorage s1); [destruct (storageWritable b _)|]; reflexivity. }
        destruct (_ && _); [left; now apply Hexec | right; left; now apply Hquiet].
  - unfold public_executeQueue. destruct (negb _).
    + left. apply Hexec; [apply drain_frame_refl | reflexivity].
    + right. left. apply Hquiet; [apply drain_frame_refl | reflexivity].
  - right. left. apply Hquiet; [apply drain_frame_refl | reflexivity].
  - right. left. apply Hquiet; [apply drain_frame_refl | reflexivity].
  - right. left. apply Hquiet; [apply drain_frame_refl | reflexivity].
  - right. left. apply Hquiet; [apply drain_frame_refl | reflexivity].
  - unfold bufferFlusher. destruct (flusherRegistered cfg);
      [|right; left; apply Hquiet; [apply drain_frame_refl | reflexivity]].
    destruct (negb _).
    + left. apply Hexec; [apply drain_frame_refl | reflexivity].
    + right. left. apply Hquiet; [apply drain_frame_refl | reflexivity].
  - (* a response *)
    cbv zeta. cbn [afterSetter] in *.
    set (s0 := if readyState =? 4 then set_pending (remove_nth i (pending s)) s else s).
    assert (Hs0 : drain_frame s s0) by (subst s0; destruct (readyState =? 4); frame_step).
    assert (Hi0 : idServiceCalled s0 = idServiceCalled s)
      by (subst s0; now destruct (readyState =? 4)).
    destruct (nth_error (pending s) i) as [[n batch| |armed|batch]|];
      try (right; left; apply Hquiet; [apply drain_frame_refl | reflexivity]).
    + unfold xhr_onreadystatechange. cbv zeta.
      destruct (readyState =? 4); [|right; left; now apply Hquiet].
      destruct (isSuccessfulRequest statusCode).
      * left. exists (ClearTimeout :: callOnRequestSuccess cfg batch),
                     (removeEventsFromQueue h cfg b n s0), false.
        split; [reflexivity|]. split; [apply quiet_callOnRequestSuccess|]. split.
        -- eapply drain_frame_trans; [exact Hs0 | apply removeEventsFromQueue_frame].
        -- now rewrite removeEventsFromQueue_idServiceCalled.
      * right. left. destruct (negb _); cbn [emit thrown effects state forallb isQuiet].
        -- split; [reflexivity|]. split; [apply quiet_callOnRequestFailure|]. split.
           ++ eapply drain_frame_trans; [exact Hs0|].
              eapply drain_frame_trans; [apply (removeEventsFromQueue_frame h cfg b n)|].
              frame_step.
           ++ cbn. now rewrite removeEventsFromQueue_idServiceCalled.
        -- split; [reflexivity|]. split; [apply quiet_callOnRequestFailure|]. split.
           ++ eapply drain_frame_trans; [exact Hs0|]. frame_step.
           ++ exact Hi0.
    + unfold idService_onreadystatechange.
      destruct (readyState =? 4); [left; now apply Hexec | right; left; now apply Hquiet].
    + unfold bypass_onreadystatechange. right. left.
      destruct (readyState =? 4); [|now apply Hquiet].
      destruct (isSuccessfulRequest statusCode); cbn [emit thrown effects state].
      * split; [reflexivity|]. split; [apply quiet_callOnRequestSuccess|]. now split.
      * split; [reflexivity|]. split; [apply quiet_callOnRequestFailure|]. now split.
  - (* a timer *)
    cbn [afterSetter] in *.
    destruct (nth_error (pending s) i) as [[n batch| |[|]|batch]|];
      try (right; left; apply Hquiet; [apply drain_frame_refl | reflexivity]).
    + right. left.
      split; [reflexivity|]. split; [apply xhrTimeout_quiet|]. split.
      * eapply drain_frame_trans; [|apply xhrTimeout_frame]. frame_step.
      * now rewrite xhrTimeout_idServiceCalled.
    + destruct (executingQueue s).
      * left. apply Hexec; [frame_step | reflexivity].
      * right. left. apply Hquiet; [frame_step | reflexivity].
  - (* the pixel loads *)
    cbn [afterSetter] in *.
    destruct (nth_error (pending s) i) as [[n batch| |armed|batch]|];
      try (right; left; apply Hquiet; [apply drain_frame_refl | reflexivity]).
    left.
    change (image_onload h cfg b (set_pending (remove_nth i (pending s)) s))
      with (executeQueue h cfg b false
              (removeEventsFromQueue h cfg b 1 (set_pending (remove_nth i (pending s)) s))).
    apply Hexec.
    + eapply drain_frame_trans; [|apply (removeEventsFromQueue_frame h cfg b 1)].
      frame_step.
    + now rewrite removeEventsFromQueue_idServiceCalled.
  - cbn [afterSetter] in *.
    destruct (nth_error (pending s) i) as [[n batch| |armed|batch]|];
      try (right; left; apply Hquiet; [apply drain_frame_refl | reflexivity]).
    right. left. unfold image_onerror. apply Hquiet; [frame_step | reflexivity].
Qed.

(** X16.  The error 'No collector configured' comes out of a task only when
    no collector URL has been set and the task is not one that sets it
    ([enqueueRequest], [setCollectorUrl]); and the task that throws it has
    sent nothing.  Once a URL is set, no later task throws it. *)
Theorem no_collector_error_only_when_unset
    (h : Host) (cfg : Config) (b : Browser) (ev : Event) (s : State) :
  thrown (handle h cfg b ev s) = Some NoCollectorConfigured ->
  configCollectorUrl s = None
  /\ setsCollectorUrl ev = false
  /\ forallb isQuiet (effects (handle h cfg b ev s)) = true
  /\ configCollectorUrl (state (handle h cfg b ev s)) = None.
Proof.
  intros Hthrown.
  assert (Hsame : configCollectorUrl (state (handle h cfg b ev s))
                  = configCollectorUrl (afterSetter cfg ev s))
    by apply (handle_frame h cfg b ev s).
  destruct (handle_decompose h cfg b ev s)
    as [(effs & s0 & sync & Ho & Hquiet & Hframe & _)
       | [(Hnone & _) | (request & url0 & url & nbytes & maxBytes & _ & Ho)]].
  - rewrite Hsame. rewrite Ho in *. unfold andThen, emit in *.
    cbn [thrown state effects] in *.
    destruct (executeQueue_not_configured h cfg b sync s0 Hthrown) as (Hunset & Heffs).
    destruct Hframe as (Hurl & _). rewrite Hurl in Hunset.
    rewrite Hunset, Heffs, app_nil_r.
    destruct ev; cbn [afterSetter setCollectorUrl configCollectorUrl
                      set_configCollectorUrl set_useLocalStorage set_anonymousTracking
                      set_bufferSize] in Hunset;
      try discriminate; repeat split; assumption.
  - rewrite Hnone in Hthrown. discriminate.
  - rewrite Ho in Hthrown. discriminate.
Qed.

Lemma no_collector_error_only_when_unset_witness :
  let s := set_outQueue [Post (mkPostEvent [] 7)] sampleState in
  configCollectorUrl s = None
  /\ setsCollectorUrl CallExecuteQueue = false
  /\ forallb isQuiet (effects (handle sampleHost sampleConfig sampleBrowser CallExecuteQueue s))
     = true
  /\ configCollectorUrl
       (state (handle sampleHost sampleConfig sampleBrowser CallExecuteQueue s)) = None.
Proof.
  apply (no_collector_error_only_when_unset sampleHost sampleConfig sampleBrowser
           CallExecuteQueue (set_outQueue [Post (mkPostEvent [] 7)] sampleState)).
  reflexivity.
Defined.

(** ** The identity service *)








(** ** Anonymous tracking *)

Lemma initializeXMLHttpRequest_anonymous
    (cfg : Config) (s : State) (url : jsstring) (post sync : bool) :
  anonymousTracking s = true ->
  hasHeader (str "SP-Anonymous") (str "*") (initializeXMLHttpRequest cfg s url post sync)
  = true.
Proof.
  intros Hanon. unfold hasHeader, initializeXMLHttpRequest. cbn [xhr_headers].
  rewrite Hanon, !existsb_app. apply orb_true_iff. right.
  apply orb_true_iff. left. vm_compute. reflexivity.
Qed.

Lemma anonymousOnly_app (e1 e2 : list Effect) :
  anonymousOnly (e1 ++ e2) = anonymousOnly e1 && anonymousOnly e2.
Proof. apply forallb_app. Qed.

Lemma anonymousOnly_quiet (effs : list Effect) :
  forallb isQuiet effs = true -> anonymousOnly effs = true.
Proof.
  induction effs as [|e effs IH]; [reflexivity|].
  cbn [forallb]. intros Hq. apply andb_true_iff in Hq. destruct Hq as [He Hq].
  unfold anonymousOnly in *. cbn [forallb]. rewrite (IH Hq).
  destruct e; try discriminate; reflexivity.
Qed.

Lemma executeQueue_body_anonymous
    (h : Host) (cfg : Config) (b : Browser) (sync : bool) (s : State) :
  useBeacon cfg = false ->
  anonymousTracking s = true ->
  match executeQueue_body h cfg b sync s with
  | Halt o => anonymousOnly (effects o) = true
  | Recurse effs _ => anonymousOnly effs = true
  end.
Proof.
  intros Hbeacon Hanon.
  assert (Hheader : forall (s' : State) url post sync',
             anonymousTracking s' = anonymousTracking s ->
             hasHeader (str "SP-Anonymous") (str "*")
                       (initializeXMLHttpRequest cfg s' url post sync') = true).
  { intros s' url post sync' Hs'. apply initializeXMLHttpRequest_anonymous. congruence. }
  body_cases; try congruence; unfold anonymousOnly; cbn [effects forallb app andb];
    rewrite ?Hheader by reflexivity; try reflexivity.
  - (* the pixel: not taken under anonymous tracking *)
    cbn in *. rewrite Hanon in *. discriminate.
  - (* the identity service: the same headers *)
    rewrite andb_true_r. apply (Hheader _ j false sync). reflexivity.
  - cbn in *. rewrite Hanon in *. discriminate.
Qed.

Lemma executeQueue_anonymous
    (h : Host) (cfg : Config) (b : Browser) (sync : bool) (s : State) :
  useBeacon cfg = false ->
  anonymousTracking s = true ->
  anonymousOnly (effects (executeQueue h cfg b sync s)) = true.
Proof.
  intros Hbeacon. revert sync s.
  apply (executeQueue_induction h cfg b
           (fun s o => anonymousTracking s = true -> anonymousOnly (effects o) = true)).
  - intros sync' s' o Hbody Hanon.
    pose proof (executeQueue_body_anonymous h cfg b sync' s' Hbeacon Hanon) as Hspec.
    now rewrite Hbody in Hspec.
  - intros sync' s1 effs s2 o Hbody Hrest Hanon.
    pose proof (executeQueue_body_anonymous h cfg b sync' s1 Hbeacon Hanon) as Hspec.
    pose proof (executeQueue_body_frame h cfg b sync' s1) as Hframe.
    rewrite Hbody in Hspec, Hframe. destruct Hframe as (_ & _ & Hsame & _).
    cbn [effects]. rewrite anonymousOnly_app, Hspec. apply Hrest. congruence.
Qed.

Lemma handle_anonymous (h : Host) (cfg : Config) (b : Browser) (ev : Event) (s : State) :
  useBeacon cfg = false ->
  anonymousTracking s = true ->
  anonymousOnly (effects (handle h cfg b ev s)) = true
  /\ anonymousTracking (state (handle h cfg b ev s))
     = negb (isAnonymousSwitch ev).
Proof.
  intros Hbeacon Hanon.
  split.
  - destruct ev as [request url0| |v|v|url0|v|sync|i rs sc st|i|i|i];
      try reflexivity;
      match goal with
      | |- context [handle h cfg b ?ev s] =>
          destruct (handle_decompose h cfg b ev s)
            as [(effs & s0 & sync' & Ho & Hquiet & Hframe & _)
               | [(_ & Hquiet & _) | (request' & url1 & url & nbytes & maxBytes & Hev & Ho)]]
      end;
      try (now apply anonymousOnly_quiet);
      try (rewrite Ho; unfold andThen, emit; cbn [thrown state effects];
           rewrite anonymousOnly_app, (anonymousOnly_quiet _ Hquiet);
           destruct Hframe as (_ & _ & Hsame & _);
           apply executeQueue_anonymous; [exact Hbeacon | now rewrite Hsame]);
      try discriminate.
    rewrite Ho. unfold andThen, sendPostRequestWithoutQueueing, emit.
    cbn [thrown state effects app]. unfold anonymousOnly. cbn [forallb].
    rewrite initializeXMLHttpRequest_anonymous; [reflexivity|exact Hanon].
  - destruct (handle_frame h cfg b ev s) as (_ & _ & Hsame & _).
    rewrite Hsame. destruct ev; try exact Hanon. now destruct v.
Qed.

(** X18.  Under anonymous tracking, in a manager that does not use the
    beacon, every request the manager sends is an XHR that carries the
    header [SP-Anonymous: *] (requests from the queue, the call to the
    identity service and the requests of oversized events alike); no pixel
    is loaded and no beacon is sent, since neither can carry the header.
    This holds through any run of tasks that does not call
    [setAnonymousTracking(false)].  (The beacon path of [executeQueue] does
    not test [anonymousTracking]: with the beacon in use, records go out as
    beacons under anonymous tracking too, hence the condition.) *)
Theorem anonymous_tracking_always_has_header
    (h : Host) (cfg : Config) (tasks : list (Browser * Event)) (s : State) :
  useBeacon cfg = false ->
  forallb (fun t => negb (isAnonymousSwitch (snd t))) tasks = true ->
  anonymousTracking s = true ->
  anonymousOnly (snd (run h cfg tasks s)) = true
  /\ anonymousTracking (fst (run h cfg tasks s)) = true.
Proof.
  intros Hbeacon.
  revert s. induction tasks as [|[b ev] rest IH]; intros s Htasks Hanon; [now split|].
  cbn [forallb snd] in Htasks. apply andb_true_iff in Htasks.
  destruct Htasks as [Hev Hrest].
  cbn [run fst snd].
  destruct (handle_anonymous h cfg b ev s Hbeacon Hanon) as (Honly & Hstill).
  rewrite Hev in Hstill.
  destruct (IH _ Hrest Hstill) as (Hrun & Hfin).
  split; [|exact Hfin]. now rewrite anonymousOnly_app, Honly, Hrun.
Qed.

Lemma anonymous_tracking_always_has_header_witness :
  anonymousOnly (snd (run sampleHost sampleConfig scenarioD
                          (set_anonymousTracking true sampleState))) = true
  /\ anonymousTracking (fst (run sampleHost sampleConfig scenarioD
                                 (set_anonymousTracking true sampleState))) = true.
Proof.
  apply (anonymous_tracking_always_has_header sampleHost sampleConfig scenarioD
           (set_anonymousTracking true sampleState)).
  - reflexivity.
  - reflexivity.
  - reflexivity.
Defined.

(** ** Buffering *)

Lemma enqueueRequest_buffered
    (h : Host) (cfg : Config) (b : Browser) (request : Payload) (url : jsstring)
    (s : State) :
  usePost cfg = true ->
  useLocalStorage s = true ->
  (forall value, storageWritable b value = true) ->
  bytes (getBody h request) < maxPostBytes cfg ->
  Z.of_nat (length (outQueue s) + 1) < bufferSize s ->
  let queue := outQueue s ++ [Post (getBody h request)] in
  enqueueRequest h cfg b request url s
  = done (set_stored
            (Some (JSON_stringify_queue h (slice0 (maxLocalStorageQueueSize cfg) queue)))
            (set_outQueue queue (set_configCollectorUrl (Some (url ++ path cfg)) s))).
Proof.
  intros Hpost Hls Hwrite Hsize Hbuf. cbv zeta.
  unfold enqueueRequest. cbv zeta. rewrite Hpost.
  replace (maxPostBytes cfg <=? bytes (getBody h request)) with false
    by (symmetry; apply Z.leb_gt; lia).
  unfold afterPush, writeQueue, attemptWriteLocalStorage. cbv zeta.
  cbn [useLocalStorage set_outQueue set_configCollectorUrl outQueue].
  rewrite Hls, Hwrite. cbn [fst snd negb orb].
  cbn [bufferSize outQueue executingQueue set_stored set_outQueue set_configCollectorUrl].
  replace (bufferSize s <=? _) with false
    by (symmetry; apply Z.leb_gt; rewrite length_app; cbn [length]; lia).
  now rewrite andb_false_r.
Qed.

(** X19.  Buffering under POST with storage on and writable: while the
    queue stays shorter than [bufferSize], enqueueing sends nothing at all;
    the records are appended in order, the queue is written to storage each
    time, and the executing flag is left as it was. *)
Theorem enqueueRequest_buffers_below_bufferSize
    (h : Host) (cfg : Config) (b : Browser) (url : jsstring)
    (requests : list Payload) (s : State) :
  usePost cfg = true ->
  useLocalStorage s = true ->
  (forall value, storageWritable b value = true) ->
  Forall (fun request => bytes (getBody h request) < maxPostBytes cfg) requests ->
  Z.of_nat (length (outQueue s) + length requests) < bufferSize s ->
  let r := run h cfg (enqueueAll b url requests) s in
  snd r = []
  /\ outQueue (fst r)
     = outQueue s ++ map (fun request => Post (getBody h request)) requests
  /\ executingQueue (fst r) = executingQueue s
  /\ pending (fst r) = pending s
  /\ (requests <> [] ->
      stored (fst r)
      = Some (JSON_stringify_queue h
                (slice0 (maxLocalStorageQueueSize cfg) (outQueue (fst r))))).
Proof.
  intros Hpost Hls Hwrite Hsizes. revert s Hls.
  induction Hsizes as [|request rest Hsize Hrest IH]; intros s Hls Hbuf; cbv zeta.
  - cbn [enqueueAll map run fst snd]. rewrite app_nil_r.
    repeat split. intros Hne. now elim Hne.
  - change (enqueueAll b url (request :: rest))
      with ((b, CallEnqueueRequest request url) :: enqueueAll b url rest).
    cbn [run fst snd handle]. cbn [length] in Hbuf.
    rewrite (enqueueRequest_buffered h cfg b request url s Hpost Hls Hwrite Hsize)
      by lia.
    cbv zeta. cbn [state effects done app].
    set (s1 := set_stored _ _).
    specialize (IH s1 Hls).
    assert (Hbuf1 : Z.of_nat (length (outQueue s1) + length rest) < bufferSize s1).
    { subst s1. cbn [outQueue bufferSize set_stored set_outQueue set_configCollectorUrl].
      rewrite length_app. cbn [length]. lia. }
    specialize (IH Hbuf1). cbv zeta in IH.
    destruct IH as (Heffs & Hqueue & Hexec & Hpend & Hstored).
    split; [exact Heffs|].
    split; [rewrite Hqueue; subst s1; cbn [outQueue set_stored set_outQueue];
            now rewrite <- app_assoc|].
    split; [exact Hexec|]. split; [exact Hpend|].
    intros _. destruct rest as [|request' rest'].
    + reflexivity.
    + apply Hstored. discriminate.
Qed.

Lemma enqueueRequest_buffers_below_bufferSize_witness :
  let r := run sampleHost sampleConfig_buffer2
               (enqueueAll sampleBrowser (str "https://collector.example")
                           [samplePayload 1])
               sampleState_buffer2 in
  snd r = []
  /\ outQueue (fst r)
     = outQueue sampleState_buffer2
       ++ map (fun request => Post (getBody sampleHost request)) [samplePayload 1]
  /\ executingQueue (fst r) = executingQueue sampleState_buffer2
  /\ pending (fst r) = pending sampleState_buffer2
  /\ ([samplePayload 1] <> [] ->
      stored (fst r)
      = Some (JSON_stringify_queue sampleHost
                (slice0 (maxLocalStorageQueueSize sampleConfig_buffer2)
                        (outQueue (fst r))))).
Proof.
  apply (enqueueRequest_buffers_below_bufferSize sampleHost sampleConfig_buffer2
           sampleBrowser (str "https://collector.example") [samplePayload 1]
           sampleState_buffer2).
  - reflexivity.
  - reflexivity.
  - intros value. reflexivity.
  - repeat constructor.
  - vm_compute. reflexivity.
Defined.

(** ** Beacons *)







(** ** What a waiting callback holds was sent *)



Lemma wasSent_now (trace more : list Effect) (n : nat) (batch : list BatchItem)
    (e : Effect) :
  In e more -> sendsBatch batch e -> wasSent (trace ++ more) (XhrCallbacks n batch).
Proof.
  intros Hin Hsends. exists e. split; [|exact Hsends]. apply in_or_app. now right.
Qed.











